(** * DayOne journal: editable text, reconciliation, load and save

    A shallow embedding of [jrnl/DayOneJournal.py] (class [DayOne]) and the
    properties its specification states about it.

    Scope of the model.
    - Python [str] values are Rocq [string]s, read as sequences of ASCII
      characters; the line boundaries, white space and case mappings that
      Python defines for code points above 127 are not modelled.
    - A [datetime] is an integer number of seconds ([Z]); adding a
      [timedelta] is integer addition.
    - Exceptions are values of [Error]; a method that can raise returns a
      [Result].
    - The entries of the model are typed as in the data model of the
      specification (a string for the identity, an instant for the date, a
      flag for [starred]).  [open] does not test the type of what it reads
      from a record: where a record holds a value of another type under
      [Creation Date], [Entry Text], [Starred] or [UUID], the Python code
      goes on with that value, and the model stops with [Untyped].  An
      answer [Ok] or [Err] with a Python exception is what the code does;
      the answer [Untyped] says that the run is not covered.
    - A property list holds strings, booleans, integers, dates, arrays and
      dictionaries ([PValue]); reals and binary data are not modelled.
    - [Entry], [Journal.sort] and [jrnl.time.parse] are not part of the
      source tree.  The [Entry] record follows the data model of the
      specification, and the methods of the collaborators are the fields of
      the class [Collab], over which every definition and theorem below is
      parametric. *)

From Stdlib Require Import ZArith NArith Ascii String DecimalString.
From stdpp Require Import base option list strings gmap sorting.

Open Scope string_scope.
Open Scope list_scope.

(** ** Exceptions and results *)

Inductive Error : Set :=
| AttributeError
| KeyError
| TypeError
| IndexError
| ValueError
| OverflowError
| FileNotFoundError
| PermissionError
(** Not an exception of Python: the run has left the typed model (see the
    scope of the model above). *)
| Untyped.

Inductive Result (A : Type) : Type :=
| Ok (a : A)
| Err (e : Error).
Arguments Ok {A} a.
Arguments Err {A} e.

#[global] Instance Result_ret : MRet Result := fun _ a => Ok a.
#[global] Instance Result_bind : MBind Result := fun _ _ f m =>
  match m with
  | Ok a => f a
  | Err e => Err e
  end.

Definition is_Ok {A} (r : Result A) : bool :=
  match r with Ok _ => true | Err _ => false end.

(** [o ?! e]: the value of an attribute or key that may be absent. *)
Definition or_raise {A} (o : option A) (e : Error) : Result A :=
  match o with Some a => Ok a | None => Err e end.
Infix "?!" := or_raise (at level 45, no associativity).

(** [for x in l: ...] with a body that may raise, threading a state. *)
Fixpoint foldM {A St} (f : St → A → Result St) (s : St) (l : list A)
  : Result St :=
  match l with
  | [] => Ok s
  | x :: l' => s' ← f s x; foldM f s' l'
  end.

(** A list comprehension whose element expression may raise. *)
Fixpoint mapM_R {A B} (f : A → Result B) (l : list A) : Result (list B) :=
  match l with
  | [] => Ok []
  | x :: l' => y ← f x; ys ← mapM_R f l'; Ok (y :: ys)
  end.

(** ** Python string operations (ASCII) *)

Module Py.

Definition code (c : ascii) : N := N_of_ascii c.

(** [str.isspace] on one ASCII character. *)
Definition isspace (c : ascii) : bool :=
  let n := code c in
  (((9 <=? n) && (n <=? 13)) || ((28 <=? n) && (n <=? 32)))%N.

(** The ASCII line boundaries of [str.splitlines]. *)
Definition is_linebreak (c : ascii) : bool :=
  let n := code c in
  (((10 <=? n) && (n <=? 13)) || ((28 <=? n) && (n <=? 30)))%N.

Definition is_upper (c : ascii) : bool :=
  let n := code c in ((65 <=? n) && (n <=? 90))%N.

Definition is_lower (c : ascii) : bool :=
  let n := code c in ((97 <=? n) && (n <=? 122))%N.

Definition lower_char (c : ascii) : ascii :=
  if is_upper c then ascii_of_N (code c + 32) else c.

Definition upper_char (c : ascii) : ascii :=
  if is_lower c then ascii_of_N (code c - 32) else c.

Fixpoint map_chars (f : ascii → ascii) (s : string) : string :=
  match s with
  | EmptyString => EmptyString
  | String c s' => String (f c) (map_chars f s')
  end.

(** [s.lower()] and [s.upper()]. *)
Definition lower : string → string := map_chars lower_char.
Definition upper : string → string := map_chars upper_char.

Fixpoint existsb_chars (p : ascii → bool) (s : string) : bool :=
  match s with
  | EmptyString => false
  | String c s' => p c || existsb_chars p s'
  end.

(** Some character of [s] is an upper-case letter. *)
Definition has_upper : string → bool := existsb_chars is_upper.

Fixpoint drop_while (p : ascii → bool) (s : string) : string :=
  match s with
  | EmptyString => EmptyString
  | String c s' => if p c then drop_while p s' else s
  end.

Fixpoint take_while (p : ascii → bool) (s : string) : string :=
  match s with
  | EmptyString => EmptyString
  | String c s' => if p c then String c (take_while p s') else EmptyString
  end.

Definition rev (s : string) : string :=
  string_of_list_ascii (reverse (list_ascii_of_string s)).

Definition lstrip_by (p : ascii → bool) (s : string) : string := drop_while p s.
Definition rstrip_by (p : ascii → bool) (s : string) : string :=
  rev (drop_while p (rev s)).

(** [s.rstrip()], [s.strip()] and [s.strip(chars)]. *)
Definition rstrip : string → string := rstrip_by isspace.
Definition strip (s : string) : string := lstrip_by isspace (rstrip_by isspace s).

Definition mem_char (set : string) (c : ascii) : bool :=
  existsb_chars (fun d => bool_decide (d = c)) set.

Definition strip_chars (set s : string) : string :=
  lstrip_by (mem_char set) (rstrip_by (mem_char set) s).

(** [s.endswith(c)] for a one-character suffix, and [s[:-1]]. *)
Definition ends_with_char (c : ascii) (s : string) : bool :=
  match rev s with
  | String d _ => bool_decide (d = c)
  | EmptyString => false
  end.

Definition drop_last (s : string) : string :=
  match rev s with
  | String _ r => rev r
  | EmptyString => EmptyString
  end.

(** [s[k:]]. *)
Fixpoint drop (k : nat) (s : string) : string :=
  match k, s with
  | S k', String _ s' => drop k' s'
  | _, _ => s
  end.

(** [s.replace(a, b)] for one-character [a] and [b]. *)
Definition replace_char (a b : ascii) : string → string :=
  map_chars (fun c => if bool_decide (c = a) then b else c).

(** [s.endswith(suffix)]. *)
Definition ends_with (suffix s : string) : bool :=
  bool_decide (drop (String.length s - String.length suffix) s = suffix).

(** [sep.join(l)]. *)
Fixpoint join (sep : string) (l : list string) : string :=
  match l with
  | [] => ""
  | [x] => x
  | x :: l' => x +:+ sep +:+ join sep l'
  end.

(** [s.splitlines()]: [cur] holds the characters of the line being read,
    last one first.  A carriage return directly followed by a line feed is
    one boundary; no empty line is produced after a final boundary. *)
Fixpoint splitlines_from (cur : list ascii) (s : string) : list string :=
  match s with
  | EmptyString =>
      match cur with
      | [] => []
      | _ => [string_of_list_ascii (reverse cur)]
      end
  | String c s' =>
      if is_linebreak c then
        string_of_list_ascii (reverse cur) ::
          match s' with
          | String d s'' =>
              if bool_decide (c = "013"%char) && bool_decide (d = "010"%char)
              then splitlines_from [] s''
              else splitlines_from [] s'
          | EmptyString => []
          end
      else splitlines_from (c :: cur) s'
  end.

Definition splitlines : string → list string := splitlines_from [].

End Py.

(** ** The two regular expressions of [parse_editable_str] *)

Definition is_space (c : ascii) : bool := bool_decide (c = " "%char).

(** The class [[a-f0-9]]. *)
Definition is_hex (c : ascii) : bool :=
  let n := Py.code c in
  (((48 <=? n) && (n <=? 57)) || ((97 <=? n) && (n <=? 102)))%N.

(** [re.match("# *([a-f0-9]+) *$", s)]: the group when the match succeeds.
    The classes of the three repetitions are disjoint, so the greedy match
    is the only one; [$] also matches before a final line feed. *)
Definition match_header (s : string) : option string :=
  match s with
  | String "#" rest =>
      let r1 := Py.drop_while is_space rest in
      let hex := Py.take_while is_hex r1 in
      let r3 := Py.drop_while is_space (Py.drop_while is_hex r1) in
      if bool_decide (hex = "") then None
      else if bool_decide (r3 = "") || bool_decide (r3 = String "010" "")
      then Some hex
      else None
  | _ => None
  end.

Definition not_rbracket (c : ascii) : bool := negb (bool_decide (c = "]"%char)).

(** [re.compile("^\\[[^\\]]+\\] ").findall(line)]: without the multi-line
    flag the pattern can only match at the start, so the result has at most
    one element, here an [option]. *)
Definition find_date_blob (line : string) : option string :=
  match line with
  | String "[" rest =>
      let x := Py.take_while not_rbracket rest in
      match x, Py.drop_while not_rbracket rest with
      | String _ _, String "]" (String " " _) => Some ("[" +:+ x +:+ "] ")
      | _, _ => None
      end
  | _ => None
  end.

(** ** Property-list values

    What [plistlib.load] returns: strings, booleans, integers, dates,
    arrays and dictionaries (in key order). *)

#[warnings="-register-all"]
Inductive PValue : Type :=
| PString (s : string)
| PBool (b : bool)
| PInt (n : Z)
| PDate (d : Z)
| PArray (l : list PValue)
| PDict (kv : list (string * PValue)).

Fixpoint pvalue_eqb (a b : PValue) {struct a} : bool :=
  match a, b with
  | PString s, PString t => bool_decide (s = t)
  | PBool x, PBool y => bool_decide (x = y)
  | PInt x, PInt y => bool_decide (x = y)
  | PDate x, PDate y => bool_decide (x = y)
  | PArray l, PArray m =>
      (fix go (l m : list PValue) {struct l} : bool :=
         match l, m with
         | [], [] => true
         | x :: l', y :: m' => pvalue_eqb x y && go l' m'
         | _, _ => false
         end) l m
  | PDict l, PDict m =>
      (fix go (l m : list (string * PValue)) {struct l} : bool :=
         match l, m with
         | [], [] => true
         | (k, x) :: l', (k', y) :: m' =>
             bool_decide (k = k') && pvalue_eqb x y && go l' m'
         | _, _ => false
         end) l m
  | _, _ => false
  end.

(** [d[k]] and [d.get(k)] on a dictionary. *)
Fixpoint assoc (k : string) (kv : list (string * PValue)) : option PValue :=
  match kv with
  | [] => None
  | (k', v) :: kv' => if bool_decide (k' = k) then Some v else assoc k kv'
  end.

(** [v[k]] on any value: only a dictionary has string keys, and only a
    present key has a value; [None] is any exception raised. *)
Definition subscript (v : PValue) (k : string) : option PValue :=
  match v with
  | PDict kv => assoc k kv
  | _ => None
  end.

(** ** Entries *)

(** Modelled from the spec: the attributes of [Entry], whose class is not
    in the source tree, after the data model of the specification.  An
    attribute that [hasattr] can find missing is an [option]; [starred] is
    set by the constructor and is always there; the tags are a set. *)

Record Entry : Type := mkEntry {
  uuid : option string;
  date : option Z;
  title : string;
  body : string;
  starred : bool;
  tags : gset string;
  creator_device_agent : option PValue;
  creator_generation_date : option PValue;
  creator_host_name : option PValue;
  creator_os_agent : option PValue;
  creator_software_agent : option PValue;
  location : option PValue;
  weather : option PValue;
  modified : bool
}.

Definition set_uuid (v : option string) (e : Entry) : Entry :=
  mkEntry v (date e) (title e) (body e) (starred e) (tags e)
    (creator_device_agent e) (creator_generation_date e) (creator_host_name
    e) (creator_os_agent e) (creator_software_agent e) (location e) (weather
    e) (modified e).

Definition set_date (v : option Z) (e : Entry) : Entry :=
  mkEntry (uuid e) v (title e) (body e) (starred e) (tags e)
    (creator_device_agent e) (creator_generation_date e) (creator_host_name
    e) (creator_os_agent e) (creator_software_agent e) (location e) (weather
    e) (modified e).

Definition set_title (v : string) (e : Entry) : Entry :=
  mkEntry (uuid e) (date e) v (body e) (starred e) (tags e)
    (creator_device_agent e) (creator_generation_date e) (creator_host_name
    e) (creator_os_agent e) (creator_software_agent e) (location e) (weather
    e) (modified e).

Definition set_body (v : string) (e : Entry) : Entry :=
  mkEntry (uuid e) (date e) (title e) v (starred e) (tags e)
    (creator_device_agent e) (creator_generation_date e) (creator_host_name
    e) (creator_os_agent e) (creator_software_agent e) (location e) (weather
    e) (modified e).

Definition set_starred (v : bool) (e : Entry) : Entry :=
  mkEntry (uuid e) (date e) (title e) (body e) v (tags e)
    (creator_device_agent e) (creator_generation_date e) (creator_host_name
    e) (creator_os_agent e) (creator_software_agent e) (location e) (weather
    e) (modified e).

Definition set_tags (v : gset string) (e : Entry) : Entry :=
  mkEntry (uuid e) (date e) (title e) (body e) (starred e) v
    (creator_device_agent e) (creator_generation_date e) (creator_host_name
    e) (creator_os_agent e) (creator_software_agent e) (location e) (weather
    e) (modified e).

Definition set_creator_device_agent (v : option PValue) (e : Entry) : Entry :=
  mkEntry (uuid e) (date e) (title e) (body e) (starred e) (tags e) v
    (creator_generation_date e) (creator_host_name e) (creator_os_agent e)
    (creator_software_agent e) (location e) (weather e) (modified e).

Definition set_creator_generation_date (v : option PValue) (e : Entry) : Entry :=
  mkEntry (uuid e) (date e) (title e) (body e) (starred e) (tags e)
    (creator_device_agent e) v (creator_host_name e) (creator_os_agent e)
    (creator_software_agent e) (location e) (weather e) (modified e).

Definition set_creator_host_name (v : option PValue) (e : Entry) : Entry :=
  mkEntry (uuid e) (date e) (title e) (body e) (starred e) (tags e)
    (creator_device_agent e) (creator_generation_date e) v (creator_os_agent
    e) (creator_software_agent e) (location e) (weather e) (modified e).

Definition set_creator_os_agent (v : option PValue) (e : Entry) : Entry :=
  mkEntry (uuid e) (date e) (title e) (body e) (starred e) (tags e)
    (creator_device_agent e) (creator_generation_date e) (creator_host_name
    e) v (creator_software_agent e) (location e) (weather e) (modified e).

Definition set_creator_software_agent (v : option PValue) (e : Entry) : Entry :=
  mkEntry (uuid e) (date e) (title e) (body e) (starred e) (tags e)
    (creator_device_agent e) (creator_generation_date e) (creator_host_name
    e) (creator_os_agent e) v (location e) (weather e) (modified e).

Definition set_location (v : option PValue) (e : Entry) : Entry :=
  mkEntry (uuid e) (date e) (title e) (body e) (starred e) (tags e)
    (creator_device_agent e) (creator_generation_date e) (creator_host_name
    e) (creator_os_agent e) (creator_software_agent e) v (weather e)
    (modified e).

Definition set_weather (v : option PValue) (e : Entry) : Entry :=
  mkEntry (uuid e) (date e) (title e) (body e) (starred e) (tags e)
    (creator_device_agent e) (creator_generation_date e) (creator_host_name
    e) (creator_os_agent e) (creator_software_agent e) (location e) v
    (modified e).

Definition set_modified (v : bool) (e : Entry) : Entry :=
  mkEntry (uuid e) (date e) (title e) (body e) (starred e) (tags e)
    (creator_device_agent e) (creator_generation_date e) (creator_host_name
    e) (creator_os_agent e) (creator_software_agent e) (location e) (weather
    e) v.

(** The methods of [Entry] and the time parser that [DayOne] calls.  They
    live outside the source tree and are parameters of the model. *)
Class Collab : Type := {
  (** [Entry.__init__]: how the text given at construction splits into
      title and body. *)
  split_text : string → string * string;
  (** [Entry._parse_text]: title, body and tags derived again from the
      entry's text. *)
  parse_text : Entry → string * string * gset string;
  (** [Entry.__str__]. *)
  entry_str : Entry → string;
  (** [Entry.__eq__]. *)
  entry_eqb : Entry → Entry → bool;
  (** [jrnl.time.parse]; [None] is Python's [None]. *)
  time_parse : string → option Z
}.

Record Config : Type := mkConfig {
  journal : string;
  tagsymbols : string
}.

(** The state of a [DayOne] object. *)
Record Store : Type := mkStore {
  config : Config;
  entries : list Entry;
  deleted_entries : list Entry
}.

Definition nl : string := String "010" "".

Definition uuid_of (e : Entry) : Result string := uuid e ?! AttributeError.

(** [if hasattr(match, f): entry.f = match.f]. *)
Definition copy_if_present {A} (src dst : option A) : option A :=
  match src with
  | Some v => Some v
  | None => dst
  end.

(** A comprehension [[e for e in l if p(e)]] whose condition may raise. *)
Fixpoint filterM {A} (p : A → Result bool) (l : list A) : Result (list A) :=
  match l with
  | [] => Ok []
  | x :: l' =>
      b ← p x;
      r ← filterM p l';
      Ok (if b : bool then x :: r else r)
  end.

(** ** The editable text and its reconciliation *)

Section Editable.
Context `{Collab}.

(** [Entry.Entry(journal, date, text, starred)]: a fresh entry has no
    identity, no tags, no extended attributes and is not modified. *)
Definition Entry_new (d : option Z) (text : string) (star : bool) : Entry :=
  mkEntry None d (split_text text).1 (split_text text).2 star ∅
    None None None None None None None false.

(** [entry._parse_text()]. *)
Definition apply_parse_text (e : Entry) : Entry :=
  let '(t, b, g) := parse_text e in
  set_tags g (set_body b (set_title t e)).

(** [editable_str]: one block per entry, a header line with the identity
    and then the entry's own text. *)
Definition editable_str (J : Store) : Result string :=
  blocks ← mapM_R
    (fun e => u ← uuid_of e; Ok ("# " +:+ u +:+ nl +:+ entry_str e))
    (entries J);
  Ok (Py.join nl blocks).

(** The state of the scan: the candidates finished so far and the one
    being built ([current_entry], [None] before the first header). *)
Definition ScanState : Type := list Entry * option Entry.

Definition finish_current (st : ScanState) : list Entry :=
  match st.2 with
  | Some c => st.1 ++ [c]
  | None => st.1
  end.

(** The body of [for line in edited.splitlines()]. *)
Definition scan_line (st : ScanState) (raw : string) : Result ScanState :=
  let line := Py.rstrip raw in
  match match_header (Py.lower line) with
  | Some g =>
      Ok (finish_current st,
          Some (set_uuid (Some (Py.lower g))
                  (set_modified false (Entry_new None "" false))))
  | None =>
      match find_date_blob line with
      | Some date_blob =>
          let new_date := time_parse (Py.strip_chars " []" date_blob) in
          c ← st.2 ?! AttributeError;
          let '(c, line) :=
            if Py.ends_with_char "*" line
            then (set_starred true c, Py.drop_last line)
            else (c, line) in
          let c :=
            set_title (Py.strip (Py.drop (String.length date_blob - 1) line)) c in
          Ok (st.1, Some (set_date new_date c))
      | None =>
          match st.2 with
          | Some c => Ok (st.1, Some (set_body (body c +:+ line +:+ nl) c))
          | None => Ok st
          end
      end
  end.

Definition scan_lines (st : ScanState) (lines : list string) : Result ScanState :=
  foldM scan_line st lines.

(** The first half of [parse_editable_str]: the candidates of a document,
    in document order. *)
Definition scan (edited : string) : Result (list Entry) :=
  st ← scan_lines ([], None) (Py.splitlines edited);
  Ok (finish_current st).

(** [[e for e in self.entries if e.uuid.lower() == entry.uuid.lower()]],
    each match with its position in [self.entries], which stands for the
    identity of the object. *)
Fixpoint matched_entries (i : nat) (entry : Entry) (W : list Entry)
  : Result (list (nat * Entry)) :=
  match W with
  | [] => Ok []
  | e :: W' =>
      eu ← uuid_of e;
      cu ← uuid_of entry;
      rest ← matched_entries (S i) entry W';
      Ok (if bool_decide (Py.lower eu = Py.lower cu) then (i, e) :: rest else rest)
  end.

(** [self.entries.remove(match)], where [match] is the object at position
    [i]: Python removes the first item that is [match] or compares equal
    to it, and raises [ValueError] when there is none. *)
Fixpoint list_remove (i : nat) (m : Entry) (W : list Entry) : Result (list Entry) :=
  match W with
  | [] => Err ValueError
  | x :: W' =>
      match i with
      | O => Ok W'
      | S i' =>
          if entry_eqb x m then Ok W'
          else (r ← list_remove i' m W'; Ok (x :: r))
      end
  end.

(** The extended DayOne attributes that the match hands to the candidate. *)
Definition merge_metadata (m entry : Entry) : Entry :=
  let entry := set_creator_device_agent
    (copy_if_present (creator_device_agent m) (creator_device_agent entry)) entry in
  let entry := set_creator_generation_date
    (copy_if_present (creator_generation_date m) (creator_generation_date entry)) entry in
  let entry := set_creator_host_name
    (copy_if_present (creator_host_name m) (creator_host_name entry)) entry in
  let entry := set_creator_os_agent
    (copy_if_present (creator_os_agent m) (creator_os_agent entry)) entry in
  let entry := set_creator_software_agent
    (copy_if_present (creator_software_agent m) (creator_software_agent entry)) entry in
  let entry := set_location (copy_if_present (location m) (location entry)) entry in
  set_weather (copy_if_present (weather m) (weather entry)) entry.

(** What the candidate looks like when it is compared with its match. *)
Definition merge_with (m entry : Entry) : Entry :=
  merge_metadata m (set_tags (tags entry ∪ tags m) entry).

(** The body of [for entry in entries]: the new [self.entries] and the
    candidate as the loop leaves it. *)
Definition reconcile_one (W : list Entry) (entry : Entry)
  : Result (list Entry * Entry) :=
  let entry := apply_parse_text entry in
  matched ← matched_entries 0 entry W;
  match matched with
  | (i, m) :: _ =>
      let entry := merge_with m entry in
      if negb (entry_eqb m entry) then
        W' ← list_remove i m W;
        let entry := set_modified true entry in
        Ok (W' ++ [entry], entry)
      else Ok (W, entry)
  | [] =>
      let entry := set_modified true entry in
      Ok (W ++ [entry], entry)
  end.

Fixpoint reconcile_all (W : list Entry) (cands : list Entry)
  : Result (list Entry * list Entry) :=
  match cands with
  | [] => Ok (W, [])
  | c :: cands' =>
      '(W1, c1) ← reconcile_one W c;
      '(W2, cs) ← reconcile_all W1 cands';
      Ok (W2, c1 :: cs)
  end.

(** [e.uuid in edited_uuids]. *)
Definition in_uuids (edited_uuids : list string) (e : Entry) : Result bool :=
  u ← uuid_of e; Ok (bool_decide (u ∈ edited_uuids)).

Definition not_in_uuids (edited_uuids : list string) (e : Entry) : Result bool :=
  u ← uuid_of e; Ok (negb (bool_decide (u ∈ edited_uuids))).

(** The last three statements: the entries that left the document. *)
Definition remove_deleted (J : Store) (W cands : list Entry) : Result Store :=
  edited_uuids ← mapM_R uuid_of cands;
  deleted ← filterM (not_in_uuids edited_uuids) W;
  kept ← filterM (in_uuids edited_uuids) W;
  Ok (mkStore (config J) kept deleted).

(** [parse_editable_str]: the store after the call and the list returned. *)
Definition parse_editable_str (J : Store) (edited : string)
  : Result (Store * list Entry) :=
  cands ← scan edited;
  '(W, cands') ← reconcile_all (entries J) cands;
  J' ← remove_deleted J W cands';
  Ok (J', cands').

End Editable.

(** ** Loading a journal directory *)

(** A [pytz] time zone: its [zone] name and [utcoffset(dt, is_dst)]. *)
Record TzInfo : Type := mkTz {
  zone : string;
  utcoffset : Z → bool → Z
}.

(** What the methods read from the machine they run on. *)
Class Host : Type := {
  (** [pytz.timezone(name)]; [None] is [UnknownTimeZoneError]. *)
  pytz_timezone : string → option TzInfo;
  (** [tzlocal.get_localzone()]. *)
  get_localzone : TzInfo;
  (** [datetime.utcfromtimestamp(time.mktime(d.timetuple()))]. *)
  utc_of_local : Z → Z;
  (** [fn.open(mode="wb")]: the exception raised when the file cannot be
      opened for writing (no such directory, no permission), [None] when it
      is opened, and so created or emptied. *)
  open_wb : list string → option Error;
  (** The result of the [n]-th call of [uuid.uuid1().hex]. *)
  uuid1_hex : nat → string;
  (** [socket.gethostname()], [platform.system()], [platform.release()]. *)
  gethostname : string;
  platform_system : string;
  platform_release : string;
  (** [__title__] and [__version__] of the package. *)
  jrnl_title : string;
  jrnl_version : string
}.

(** What [plistlib.load] does with a file: it raises one of
    [PLIST_EXCEPTIONS] (the file is not an XML document), it raises another
    exception (a document in which an integer or a date cannot be read
    raises [ValueError] or [AttributeError], a key outside a dictionary
    [IndexError]), or it returns a value.  A document without a value, for
    which [plistlib.load] returns [None], raises [TypeError] at the first
    subscript of [open], before anything else is done with it: it is a file
    of the second kind. *)
Inductive Loaded : Type :=
| Malformed
| Raises (e : Error)
| Plist (v : PValue).

(** A file met by [os.walk]: its directory, its name and its content. *)
Record File : Type := mkFile {
  dirpath : string;
  fname : string;
  content : Loaded
}.

(** The journal directory as [open] sees it: whether the [entries]
    subdirectory can be listed, and the files below the journal root in the
    order of [os.walk].  Every file is taken to be readable. *)
Record Directory : Type := mkDirectory {
  has_entries_dir : bool;
  walk : list File
}.

(** Modelled from the spec: [Journal.sort], which is not in the source tree;
    it re-sorts the entries by creation instant, ascending.  The sort is
    stable, as Python's is; an entry without an instant sorts first. *)
Definition date_leb (a b : Entry) : bool :=
  match date a, date b with
  | Some x, Some y => (x <=? y)%Z
  | None, _ => true
  | Some _, None => false
  end.

Fixpoint insert_by_date (e : Entry) (l : list Entry) : list Entry :=
  match l with
  | [] => [e]
  | x :: l' => if date_leb x e then x :: insert_by_date e l' else e :: l
  end.

Definition sort_entries (l : list Entry) : list Entry :=
  foldl (fun acc e => insert_by_date e acc) [] l.

Section Load.
Context `{Collab} `{Host}.

Definition as_dict (v : PValue) : Result (list (string * PValue)) :=
  match v with PDict kv => Ok kv | _ => Err TypeError end.

(** The values that go into the typed attributes of an entry.  The code
    does not test their types; a value of another type takes the run out
    of the model. *)
Definition as_string (v : PValue) : Result string :=
  match v with PString s => Ok s | _ => Err Untyped end.

Definition as_bool (v : PValue) : Result bool :=
  match v with PBool b => Ok b | _ => Err Untyped end.

Definition as_date (v : PValue) : Result Z :=
  match v with PDate d => Ok d | _ => Err Untyped end.

(** [for x in v]: the items of an array, the characters of a string, the
    keys of a dictionary. *)
Definition iterate (v : PValue) : Result (list PValue) :=
  match v with
  | PArray l => Ok l
  | PString s => Ok ((fun c => PString (String c "")) <$> list_ascii_of_string s)
  | PDict kv => Ok ((fun p => PString p.1) <$> kv)
  | _ => Err TypeError
  end.

(** [pytz.timezone(dict_entry["Time Zone"])] with its two handled
    exceptions. *)
Definition resolve_timezone (kv : list (string * PValue)) : Result TzInfo :=
  match assoc "Time Zone" kv with
  | None => Ok get_localzone
  | Some (PString name) =>
      Ok (match pytz_timezone name with
          | Some tz => tz
          | None => get_localzone
          end)
  | Some _ => Err AttributeError
  end.

(** [date + timezone.utcoffset(date, is_dst=False)] unless the zone's name
    is [UTC]. *)
Definition to_utc (timezone : TzInfo) (d : Z) : Z :=
  if bool_decide (zone timezone ≠ "UTC") then (d + utcoffset timezone d false)%Z
  else d.

(** [self.config["tagsymbols"][0] + tag.lower()]. *)
Definition decode_tag (cfg : Config) (tag : PValue) : Result string :=
  match tagsymbols cfg with
  | EmptyString => Err IndexError
  | String c _ =>
      match tag with
      | PString t => Ok (String c (Py.lower t))
      | _ => Err AttributeError
      end
  end.

(** [dict_entry["Creator"][k]] inside [try: ... except: pass]. *)
Definition creator_field (kv : list (string * PValue)) (k : string)
  : option PValue :=
  c ← assoc "Creator" kv; subscript c k.

(** The [else] branch of the loop of [open]: one loaded record becomes one
    entry. *)
Definition decode (cfg : Config) (dict_entry : PValue) : Result Entry :=
  kv ← as_dict dict_entry;
  timezone ← resolve_timezone kv;
  d ← (assoc "Creation Date" kv ?! KeyError) ≫= as_date;
  let d := to_utc timezone d in
  text ← (assoc "Entry Text" kv ?! KeyError) ≫= as_string;
  star ← (assoc "Starred" kv ?! KeyError) ≫= as_bool;
  let entry := Entry_new (Some d) text star in
  u ← (assoc "UUID" kv ?! KeyError) ≫= as_string;
  let entry := set_uuid (Some u) entry in
  tag_values ← match assoc "Tags" kv with
                | Some v => iterate v
                | None => Ok []
                end;
  tag_list ← mapM_R (decode_tag cfg) tag_values;
  let entry := set_tags (list_to_set tag_list) entry in
  let entry := set_creator_device_agent (creator_field kv "Device Agent") entry in
  let entry := set_creator_generation_date
    (Some (default (PDate d) (creator_field kv "Generation Date"))) entry in
  let entry := set_creator_host_name (creator_field kv "Host Name") entry in
  let entry := set_creator_os_agent (creator_field kv "OS Agent") entry in
  let entry := set_creator_software_agent
    (creator_field kv "Software Agent") entry in
  let entry := set_location (assoc "Location" kv) entry in
  let entry := set_weather (assoc "Weather" kv) entry in
  Ok entry.

(** [fnmatch.filter(f, "*.doentry")]. *)
Definition is_doentry (f : File) : bool := Py.ends_with ".doentry" (fname f).

(** The body of [for filename in filenames]: only the exceptions of
    [PLIST_EXCEPTIONS] are handled. *)
Definition load_file (cfg : Config) (acc : list Entry) (f : File)
  : Result (list Entry) :=
  match content f with
  | Malformed => Ok acc
  | Raises e => Err e
  | Plist dict_entry => entry ← decode cfg dict_entry; Ok (acc ++ [entry])
  end.

(** [open]: the listing of the [entries] subdirectory is computed first
    (and discarded), then every [*.doentry] file under the root is loaded. *)
Definition open (J : Store) (dir : Directory) : Result Store :=
  _ ← (if has_entries_dir dir then Ok () else Err FileNotFoundError);
  loaded ← foldM (load_file (config J)) [] (filter is_doentry (walk dir));
  Ok (mkStore (config J) (sort_entries loaded) (deleted_entries J)).

End Load.

(** ** Writing a property list *)

Module Plistlib.

(** The characters that the XML writer refuses in a string: the control
    characters other than tab, line feed and carriage return. *)
Definition is_control (c : ascii) : bool :=
  let n := Py.code c in
  ((n <? 32) && negb ((n =? 9) || (n =? 10) || (n =? 13)))%N.

Definition string_error (s : string) : option Error :=
  if Py.existsb_chars is_control s then Some ValueError else None.

Definition int_error (i : Z) : option Error :=
  if ((- 2 ^ 63 <=? i) && (i <? 2 ^ 64))%Z then None else Some OverflowError.

(** The exception that ends [plistlib.dump(v, f, fmt=FMT_XML,
    sort_keys=False)], if any.  The writer goes through the value in order
    and writes as it goes; it stops at the first string or key with a
    control character and at the first integer out of range, and what it
    has written by then is the beginning of a document. *)
Fixpoint dump_error (v : PValue) : option Error :=
  match v with
  | PString s => string_error s
  | PBool _ => None
  | PInt i => int_error i
  | PDate _ => None
  | PArray l =>
      (fix go (l : list PValue) : option Error :=
         match l with
         | [] => None
         | x :: l' =>
             match dump_error x with
             | Some e => Some e
             | None => go l'
             end
         end) l
  | PDict kv =>
      (fix go (kv : list (string * PValue)) : option Error :=
         match kv with
         | [] => None
         | (k, x) :: kv' =>
             match string_error k with
             | Some e => Some e
             | None =>
                 match dump_error x with
                 | Some e => Some e
                 | None => go kv'
                 end
             end
         end) kv
  end.

(** The line ends of a string as they are written: a carriage return, with
    the line feed after it if there is one, becomes a line feed. *)
Fixpoint newlines (s : string) : string :=
  match s with
  | EmptyString => EmptyString
  | String c s' =>
      if bool_decide (c = "013"%char) then
        match s' with
        | String "010" s'' => String "010" (newlines s'')
        | _ => String "010" (newlines s')
        end
      else String c (newlines s')
  end.

(** What [plistlib.load] returns for the document that [plistlib.dump]
    wrote for [v], when it wrote all of it: [v] with the line ends of its
    strings and keys as they were written. *)
Fixpoint reload (v : PValue) : PValue :=
  match v with
  | PString s => PString (newlines s)
  | PArray l => PArray (map reload l)
  | PDict kv =>
      PDict ((fix go (kv : list (string * PValue)) : list (string * PValue) :=
                match kv with
                | [] => []
                | (k, x) :: kv' => (newlines k, reload x) :: go kv'
                end) kv)
  | _ => v
  end.

End Plistlib.

(** ** Saving a journal *)

(** A path is the list of its components: [Path(a) / b / c] and
    [os.path.join(a, b, c)] both give [[a; b; c]]. *)
Definition Path : Type := list string.

Inductive FsOp : Type :=
| WriteFile (p : Path) (v : PValue)
| RemoveFile (p : Path).

(** The world [write] acts on: the files by path, the operations performed
    so far, oldest first, and the number of identities drawn from
    [uuid.uuid1].  A record file is given by the dictionary [v] that was
    dumped into it: the file holds the whole document when
    [Plistlib.dump_error v] is [None], and only the beginning of it when
    [plistlib.dump] raised. *)
Record Disk : Type := mkDisk {
  files : gmap Path PValue;
  oplog : list FsOp;
  uuid_calls : nat
}.

(** What [plistlib.load] makes of a record file of the disk. *)
Definition load_written (v : PValue) : Loaded :=
  match Plistlib.dump_error v with
  | Some _ => Malformed
  | None => Plist (Plistlib.reload v)
  end.

Definition file_written (op : FsOp) : option (Path * PValue) :=
  match op with
  | WriteFile p v => Some (p, v)
  | RemoveFile _ => None
  end.

Definition file_removed (op : FsOp) : option Path :=
  match op with
  | RemoveFile p => Some p
  | WriteFile _ _ => None
  end.

Section Save.
Context `{Host}.

Definition doentry_path (cfg : Config) (name : string) : Path :=
  [journal cfg; "entries"; name +:+ ".doentry"].

(** [tag.strip(self.config["tagsymbols"]).replace("_", " ")]. *)
Definition encode_tag (cfg : Config) (tag : string) : PValue :=
  PString (Py.replace_char "_" " " (Py.strip_chars (tagsymbols cfg) tag)).

(** The defaults that [write] gives to the attributes an entry lacks. *)
Definition with_defaults (u : string) (utc_time : Z) (entry : Entry) : Entry :=
  let entry := set_uuid (Some u) entry in
  let entry := set_creator_device_agent
    (Some (default (PString "") (creator_device_agent entry))) entry in
  let entry := set_creator_generation_date
    (Some (default (PDate utc_time) (creator_generation_date entry))) entry in
  let entry := set_creator_host_name
    (Some (default (PString gethostname) (creator_host_name entry))) entry in
  let entry := set_creator_os_agent
    (Some (default (PString (platform_system +:+ "/" +:+ platform_release))
             (creator_os_agent entry))) entry in
  set_creator_software_agent
    (Some (default (PString (jrnl_title +:+ "/" +:+ jrnl_version))
             (creator_software_agent entry))) entry.

Definition optional_item (k : string) (o : option PValue)
  : list (string * PValue) :=
  match o with
  | Some v => [(k, v)]
  | None => []
  end.

(** [entry_plist], for an entry that has all its defaults. *)
Definition entry_plist (cfg : Config) (utc_time : Z) (u : string) (entry : Entry)
  : PValue :=
  PDict
    ([ ("Creation Date", PDate utc_time);
       ("Starred", PBool (starred entry));
       ("Entry Text", PString (title entry +:+ nl +:+ body entry));
       ("Time Zone", PString (zone get_localzone));
       ("UUID", PString (Py.upper u));
       ("Tags", PArray (encode_tag cfg <$> elements (tags entry)));
       ("Creator", PDict
          (optional_item "Device Agent" (creator_device_agent entry) ++
           optional_item "Generation Date" (creator_generation_date entry) ++
           optional_item "Host Name" (creator_host_name entry) ++
           optional_item "OS Agent" (creator_os_agent entry) ++
           optional_item "Software Agent" (creator_software_agent entry))) ]
     ++ optional_item "Location" (location entry)
     ++ optional_item "Weather" (weather entry)).

(** The file of an entry in the layout of [write]. *)
Definition entry_file (cfg : Config) (u : string) : Path :=
  doentry_path cfg (Py.upper u).

(** The body of [for entry in self.entries]: the entry as the loop leaves
    it, the disk after it, and the exception that ended it, if any.  An
    entry without a date raises before anything is done.  The defaults are
    set before the file is opened, so they stay when opening or dumping
    raises; a file on which [plistlib.dump] raised has been opened, and so
    created or emptied, and holds the beginning of a document. *)
Definition write_entry (cfg : Config) (dk : Disk) (entry : Entry)
  : Entry * Disk * option Error :=
  if modified entry then
    match date entry with
    | None => (entry, dk, Some AttributeError)
    | Some d =>
        let utc_time := utc_of_local d in
        let '(u, n) :=
          match uuid entry with
          | Some u => (u, uuid_calls dk)
          | None => (uuid1_hex (uuid_calls dk), S (uuid_calls dk))
          end in
        let entry := with_defaults u utc_time entry in
        let fn := entry_file cfg u in
        let v := entry_plist cfg utc_time u entry in
        match open_wb fn with
        | Some x => (entry, mkDisk (files dk) (oplog dk) n, Some x)
        | None =>
            (entry,
             mkDisk (<[fn := v]> (files dk)) (oplog dk ++ [WriteFile fn v]) n,
             Plistlib.dump_error v)
        end
    end
  else (entry, dk, None).

(** The first loop; an exception ends it, and leaves the entries and files
    handled before it as they are. *)
Fixpoint write_entries (cfg : Config) (es : list Entry) (dk : Disk)
  : list Entry * Disk * option Error :=
  match es with
  | [] => ([], dk, None)
  | e :: es' =>
      match write_entry cfg dk e with
      | (e', dk', Some x) => (e' :: es', dk', Some x)
      | (e', dk', None) =>
          let '(r, dk'', x) := write_entries cfg es' dk' in
          (e' :: r, dk'', x)
      end
  end.

(** The file that the second loop removes for a deleted entry. *)
Definition deleted_file (cfg : Config) (u : string) : Path :=
  doentry_path cfg u.

(** [os.remove(filename)]: removing a file that is not there raises. *)
Definition os_remove (fn : Path) (dk : Disk) : Result Disk :=
  match files dk !! fn with
  | Some _ =>
      Ok (mkDisk (delete fn (files dk)) (oplog dk ++ [RemoveFile fn])
            (uuid_calls dk))
  | None => Err FileNotFoundError
  end.

(** The second loop, [for entry in self._deleted_entries]. *)
Fixpoint remove_entries (cfg : Config) (ds : list Entry) (dk : Disk)
  : Disk * option Error :=
  match ds with
  | [] => (dk, None)
  | e :: ds' =>
      match u ← uuid_of e; os_remove (deleted_file cfg u) dk with
      | Err x => (dk, Some x)
      | Ok dk' => remove_entries cfg ds' dk'
      end
  end.

(** [write]: the store and the disk after the call, and the exception that
    ended it, if any. *)
Definition write (J : Store) (dk : Disk) : Store * Disk * option Error :=
  let '(es, dk1, x) := write_entries (config J) (entries J) dk in
  let J' := mkStore (config J) es (deleted_entries J) in
  match x with
  | Some _ => (J', dk1, x)
  | None =>
      let '(dk2, x2) := remove_entries (config J) (deleted_entries J) dk1 in
      (J', dk2, x2)
  end.

End Save.

(** ** Structural equality of values and entries *)

Lemma pvalue_eqb_eq : ∀ a b : PValue, pvalue_eqb a b = true ↔ a = b.
Proof.
  fix IH 1. intros [s|x|x|x|l|l] [t|y|y|y|m|m]; simpl;
    try (split; [discriminate | congruence]);
    try (rewrite bool_decide_eq_true; split; congruence).
  - revert m. induction l as [|x l IHl]; intros [|y m];
      try (split; [discriminate | congruence]); [done|].
    rewrite andb_true_iff, IH.
    specialize (IHl m). split.
    + intros [-> Hgo]. apply IHl in Hgo. congruence.
    + intros [= -> ->]. split; [done|]. by apply IHl.
  - revert m. induction l as [|[k x] l IHl]; intros [|[k' y] m];
      try (split; [discriminate | congruence]); [done|].
    rewrite !andb_true_iff, bool_decide_eq_true, IH.
    specialize (IHl m). split.
    + intros [[-> ->] Hgo]. apply IHl in Hgo. congruence.
    + intros [= -> -> ->]. split; [done|]. by apply IHl.
Qed.

#[global] Instance PValue_eq_dec : EqDecision PValue := fun a b =>
  match pvalue_eqb a b as r return pvalue_eqb a b = r → Decision (a = b) with
  | true => fun E => left (proj1 (pvalue_eqb_eq a b) E)
  | false => fun E => right (fun Heq =>
      Bool.diff_true_false (eq_trans (eq_sym (proj2 (pvalue_eqb_eq a b) Heq)) E))
  end eq_refl.

#[global] Instance Entry_eq_dec : EqDecision Entry.
Proof. solve_decision. Defined.

(** ** A reference implementation of the collaborators

    Used to run the model on concrete journals. *)

Module Reference.

Definition show_Z (z : Z) : string := NilZero.string_of_int (Z.to_int z).
Definition read_Z (s : string) : option Z := Z.of_int <$> NilZero.int_of_string s.

(** The text of an entry is its title line followed by its body. *)
Definition split_first_line (text : string) : string * string :=
  let t := Py.take_while (fun c => negb (bool_decide (c = "010"%char))) text in
  (t, Py.drop (S (String.length t)) text).

(** The words of a text: maximal runs of characters that are not white
    space. *)
Fixpoint words_from (cur : list ascii) (s : string) : list string :=
  match s with
  | EmptyString =>
      match cur with
      | [] => []
      | _ => [string_of_list_ascii (reverse cur)]
      end
  | String c s' =>
      if Py.isspace c then
        match cur with
        | [] => words_from [] s'
        | _ => string_of_list_ascii (reverse cur) :: words_from [] s'
        end
      else words_from (c :: cur) s'
  end.

Definition is_tag (symbols w : string) : bool :=
  match w with
  | String c (String _ _) => Py.mem_char symbols c
  | _ => false
  end.

Definition find_tags (symbols text : string) : gset string :=
  list_to_set (Py.lower <$> filter (fun w => is_tag symbols w) (words_from [] text)).

(** Modelled from the spec: the [Entry] class and [jrnl.time.parse], which
    are not in the source tree.  Construction splits the text into title and
    body; the text-parsing method derives the tags from title and body; the
    canonical text is a single line with the bracketed timestamp, the title
    and an optional star suffix, followed by the body (without the white
    space at its end); equality is full
    structural equality; the time parser reads the format the renderer
    writes. *)
#[export] Instance collab (symbols : string) : Collab := {|
  split_text := split_first_line;
  parse_text e :=
    (title e, body e, find_tags symbols (title e +:+ nl +:+ body e));
  entry_str e :=
    "[" +:+ from_option show_Z "" (date e) +:+ "] " +:+ title e +:+
    (if starred e then " *" else "") +:+
    (if bool_decide (Py.rstrip (body e) = "") then ""
     else nl +:+ Py.rstrip (body e));
  entry_eqb a b := bool_decide (a = b);
  time_parse := read_Z
|}.

(** The same collaborators with the equality that compares the content of
    two entries (title and body without the white space around them, date
    and starred flag) and neither the identity nor the other attributes. *)
Definition same_content (a b : Entry) : bool :=
  bool_decide (Py.strip (title a) = Py.strip (title b)) &&
  bool_decide (Py.rstrip (body a) = Py.rstrip (body b)) &&
  bool_decide (date a = date b) &&
  bool_decide (starred a = starred b).

Definition collab_by_content (symbols : string) : Collab := {|
  split_text := split_first_line;
  parse_text e :=
    (title e, body e, find_tags symbols (title e +:+ nl +:+ body e));
  entry_str := @entry_str (collab symbols);
  entry_eqb := same_content;
  time_parse := read_Z
|}.

(** The civil calendar: the number of the day of a date, counted from the
    first of January 1970, and the year of a day. *)
Definition days_from_civil (y m d : Z) : Z :=
  (let y' := if m <=? 2 then y - 1 else y in
   let era := y' / 400 in
   let yoe := y' - era * 400 in
   let mp := if m <=? 2 then m + 9 else m - 3 in
   let doy := (153 * mp + 2) / 5 + d - 1 in
   let doe := yoe * 365 + yoe / 4 - yoe / 100 + doy in
   era * 146097 + doe - 719468)%Z.

Definition year_of_day (z : Z) : Z :=
  (let z := z + 719468 in
   let era := z / 146097 in
   let doe := z - era * 146097 in
   let yoe := (doe - doe / 1460 + doe / 36524 - doe / 146096) / 365 in
   let doy := doe - (365 * yoe + yoe / 4 - yoe / 100) in
   let mp := (5 * doy + 2) / 153 in
   yoe + era * 400 + (if mp <? 10 then 0 else 1))%Z.

(** The last Sunday of a month with [n] days; day 0 is a Thursday. *)
Definition last_sunday (y m n : Z) : Z :=
  (let d := days_from_civil y m n in d - (d + 4) mod 7)%Z.

(** Summer time in Germany from 1981 on, for a local time in seconds: it
    starts on the last Sunday of March, when the clocks go from 2:00 to
    3:00, and ends on the last Sunday of October (of September until 1995),
    when they go from 3:00 back to 2:00.  A local time that does not exist
    or that comes twice is read as summer time when [is_dst] is set.  Earlier
    years are read as standard time. *)
Definition summer_time (t : Z) (is_dst : bool) : bool :=
  (let y := year_of_day (t / 86400) in
   let first := last_sunday y 3 31 * 86400 + 2 * 3600 in
   let last :=
     (if y <? 1996 then last_sunday y 9 30 else last_sunday y 10 31) * 86400
     + 3 * 3600 in
   (1981 <=? y) &&
   (if is_dst then (first <=? t) && (t <? last)
    else (first + 3600 <=? t) && (t <? last - 3600)))%Z.

(** A host in the zone [Europe/Berlin], which knows that zone and [UTC]. *)
Definition utc : TzInfo := mkTz "UTC" (fun _ _ => 0%Z).
Definition berlin : TzInfo :=
  mkTz "Europe/Berlin"
    (fun t is_dst => if summer_time t is_dst then 7200%Z else 3600%Z).

#[export] Instance host : Host := {|
  pytz_timezone name :=
    if bool_decide (name = "UTC") then Some utc
    else if bool_decide (name = "Europe/Berlin") then Some berlin
    else None;
  get_localzone := berlin;
  utc_of_local d := (d - utcoffset berlin d false)%Z;
  open_wb _ := None;
  uuid1_hex n := "f" +:+ show_Z (Z.of_nat n);
  gethostname := "host";
  platform_system := "Linux";
  platform_release := "6.1";
  jrnl_title := "jrnl";
  jrnl_version := "2.0"
|}.

End Reference.

(** ** Facts about the string operations *)

Lemma lower_char_not_upper (c : ascii) : Py.is_upper (Py.lower_char c) = false.
Proof. destruct c as [[] [] [] [] [] [] [] []]; reflexivity. Qed.

Lemma lower_has_no_upper (s : string) : Py.has_upper (Py.lower s) = false.
Proof.
  induction s as [|c s IH]; [done|].
  cbn. rewrite lower_char_not_upper. exact IH.
Qed.

Lemma lower_char_fixed (c : ascii) :
  Py.is_upper c = false → Py.lower_char c = c.
Proof. unfold Py.lower_char. by intros ->. Qed.

Lemma lower_fixed (s : string) : Py.has_upper s = false → Py.lower s = s.
Proof.
  induction s as [|c s IH]; [done|].
  cbn. intros [Hc Hs]%orb_false_iff.
  by rewrite lower_char_fixed, IH.
Qed.

Lemma lower_idemp (s : string) : Py.lower (Py.lower s) = Py.lower s.
Proof. apply lower_fixed, lower_has_no_upper. Qed.

(** ** Facts about the monadic loops *)

Lemma bind_Ok {A B} (m : Result A) (f : A → Result B) (b : B) :
  m ≫= f = Ok b ↔ ∃ a, m = Ok a ∧ f a = Ok b.
Proof.
  destruct m as [a|e]; simpl.
  - split; [eauto | by intros (? & [= ->] & ?)].
  - split; [done | by intros (? & ? & ?)].
Qed.

Lemma foldM_app {A St} (f : St → A → Result St) (s : St) (l1 l2 : list A) :
  foldM f s (l1 ++ l2) = foldM f s l1 ≫= fun s' => foldM f s' l2.
Proof.
  revert s. induction l1 as [|x l1 IH]; intros s; [done|].
  simpl. destruct (f s x); simpl; [apply IH | done].
Qed.

Lemma mapM_R_total {A B} (f : A → Result B) (g : A → B) (l : list A) :
  Forall (fun x => f x = Ok (g x)) l → mapM_R f l = Ok (g <$> l).
Proof.
  induction 1 as [|x l Hx _ IH]; [done|].
  simpl. by rewrite Hx, IH.
Qed.

Lemma mapM_R_Ok {A B} (f : A → Result B) (l : list A) (r : list B) :
  mapM_R f l = Ok r → Forall2 (fun x y => f x = Ok y) l r.
Proof.
  revert r. induction l as [|x l IH]; intros r; simpl.
  - intros [= <-]. constructor.
  - intros (y & Hy & (ys & Hys & [= <-])%bind_Ok)%bind_Ok.
    constructor; auto.
Qed.

Lemma filterM_total {A} (p : A → Result bool) (q : A → bool) (l : list A) :
  Forall (fun x => p x = Ok (q x)) l →
  filterM p l = Ok (filter (fun x => q x) l).
Proof.
  induction 1 as [|x l Hx _ IH]; [done|].
  simpl. rewrite Hx, IH. simpl.
  rewrite filter_cons. by destruct (q x).
Qed.

Lemma filterM_Ok {A} (p : A → Result bool) (l r : list A) :
  filterM p l = Ok r →
  ∃ q, Forall (fun x => p x = Ok (q x)) l ∧ r = filter (fun x => q x) l.
Proof.
  intros Hr.
  assert (Forall (fun x => is_Ok (p x) = true) l) as Hall.
  { revert r Hr. induction l as [|x l IH]; intros r; simpl; [constructor|].
    intros (b & Hb & (r' & Hr' & _)%bind_Ok)%bind_Ok.
    constructor; [by rewrite Hb | eauto]. }
  exists (fun x => match p x with Ok b => b | Err _ => false end).
  assert (Forall (fun x => p x =
    Ok (match p x with Ok b => b | Err _ => false end)) l) as Hq.
  { eapply Forall_impl; [exact Hall|]. intros x. cbv beta. destruct (p x); simpl; intros; [done | discriminate]. }
  split; [exact Hq|].
  rewrite (filterM_total _ _ _ Hq) in Hr. by injection Hr as <-.
Qed.

(** ** The scan of the edited document *)

Section Scan_facts.
Context `{Collab}.

(** The identity is present and has no upper-case letter. *)
Definition lowercase_id (e : Entry) : Prop :=
  ∃ u, uuid e = Some u ∧ Py.has_upper u = false.

Definition scan_state_ok (st : ScanState) : Prop :=
  Forall lowercase_id st.1 ∧ ∀ c, st.2 = Some c → lowercase_id c.

Lemma finish_current_ok (st : ScanState) :
  scan_state_ok st → Forall lowercase_id (finish_current st).
Proof.
  intros [Hacc Hcur]. unfold finish_current.
  destruct st.2 as [c|]; [|done].
  apply Forall_app. split; [done|]. constructor; [by apply Hcur | constructor].
Qed.

Lemma scan_line_ok (st st' : ScanState) (raw : string) :
  scan_state_ok st → scan_line st raw = Ok st' → scan_state_ok st'.
Proof.
  intros Hst. unfold scan_line.
  destruct (match_header _) as [g|].
  - intros [= <-]. split; simpl.
    + by apply finish_current_ok.
    + intros c [= <-]. exists (Py.lower g). split; [done|].
      apply lower_has_no_upper.
  - destruct Hst as [Hacc Hcur].
    destruct (find_date_blob _) as [blob|].
    + destruct st.2 as [c|]; simpl; [|done].
      destruct (Hcur c eq_refl) as (u & Hu & Hl).
      destruct (Py.ends_with_char _ _); intros [= <-];
        (split; [done|]); intros ? [= <-]; by exists u.
    + destruct st.2 as [c|] eqn:Hc; intros [= <-]; split; simpl; try done.
      * intros ? [= <-]. destruct (Hcur c eq_refl) as (u & Hu & Hl). by exists u.
      * by rewrite Hc.
Qed.

Lemma scan_lines_ok (lines : list string) (st st' : ScanState) :
  scan_state_ok st → scan_lines st lines = Ok st' → scan_state_ok st'.
Proof.
  revert st. induction lines as [|l lines IH]; intros st Hst; simpl.
  - by intros [= <-].
  - intros (st1 & H1 & H2)%bind_Ok. eauto using scan_line_ok.
Qed.

(** Every candidate carries an identity without upper-case letters. *)
Lemma scan_lowercase (edited : string) (cands : list Entry) :
  scan edited = Ok cands → Forall lowercase_id cands.
Proof.
  unfold scan. intros (st & Hst & [= <-])%bind_Ok.
  apply finish_current_ok. eapply scan_lines_ok; [|exact Hst].
  split; [constructor | done].
Qed.

(** A line that is neither a header nor a title line. *)
Definition plain_line (raw : string) : Prop :=
  match_header (Py.lower (Py.rstrip raw)) = None ∧
  find_date_blob (Py.rstrip raw) = None.

(** A title line: not a header, and it starts with a bracketed time. *)
Definition title_line (raw : string) : Prop :=
  match_header (Py.lower (Py.rstrip raw)) = None ∧
  is_Some (find_date_blob (Py.rstrip raw)).

Lemma scan_lines_cons (st : ScanState) (l : string) (ls : list string) :
  scan_lines st (l :: ls) = scan_line st l ≫= fun st' => scan_lines st' ls.
Proof. reflexivity. Qed.

Lemma scan_line_plain (acc : list Entry) (l : string) :
  plain_line l → scan_line (acc, None) l = Ok (acc, None).
Proof. intros [Hh Hd]. unfold scan_line. by rewrite Hh, Hd. Qed.

Lemma scan_line_title (acc : list Entry) (l : string) :
  title_line l → scan_line (acc, None) l = Err AttributeError.
Proof. intros [Hh [blob Hd]]. unfold scan_line. by rewrite Hh, Hd. Qed.

(** Plain lines before the first header leave the scan where it was. *)
Lemma scan_lines_skip_plain (pre rest : list string) (acc : list Entry) :
  Forall plain_line pre →
  scan_lines (acc, None) (pre ++ rest) = scan_lines (acc, None) rest.
Proof.
  induction 1 as [|l pre Hl _ IH]; [done|].
  rewrite <- app_comm_cons, scan_lines_cons, scan_line_plain by done.
  exact IH.
Qed.

(** A title line before the first header ends the scan with an exception:
    there is no entry whose title could be set. *)
Lemma scan_lines_title_first (pre rest : list string) (l : string)
    (acc : list Entry) :
  Forall plain_line pre → title_line l →
  scan_lines (acc, None) (pre ++ l :: rest) = Err AttributeError.
Proof.
  intros Hpre Hl.
  rewrite scan_lines_skip_plain by done.
  by rewrite scan_lines_cons, scan_line_title.
Qed.

End Scan_facts.

(** ** One step of the reconciliation *)

Definition has_uuid (e : Entry) : Prop := is_Some (uuid e).

(** The identity as stored, and the identity as the matching reads it. *)
Definition raw_id (e : Entry) : string := default "" (uuid e).
Definition lower_id (e : Entry) : string := Py.lower (raw_id e).

(** The seven extended attributes. *)
Definition extended_fields : list (Entry → option PValue) :=
  [creator_device_agent; creator_generation_date; creator_host_name;
   creator_os_agent; creator_software_agent; location; weather].

Section Reconcile_step.
Context `{Collab}.

Lemma uuid_apply_parse_text (e : Entry) : uuid (apply_parse_text e) = uuid e.
Proof. unfold apply_parse_text. by destruct (parse_text e) as [[t b] g]. Qed.

Lemma uuid_merge_with (m e : Entry) : uuid (merge_with m e) = uuid e.
Proof. reflexivity. Qed.

Lemma uuid_of_has_uuid (e : Entry) : has_uuid e → uuid_of e = Ok (raw_id e).
Proof. unfold uuid_of, raw_id. by intros [u ->]. Qed.

Lemma matched_entries_none (k : nat) (c : Entry) (W : list Entry) :
  Forall has_uuid W → has_uuid c →
  (∀ x, x ∈ W → lower_id x ≠ lower_id c) →
  matched_entries k c W = Ok [].
Proof.
  intros HW Hc. revert k. induction HW as [|e W He _ IH]; intros k Hno; [done|].
  simpl. rewrite (uuid_of_has_uuid e), (uuid_of_has_uuid c) by done. simpl.
  rewrite IH by (intros x Hx; apply Hno; by right). simpl.
  rewrite bool_decide_eq_false_2; [done|]. apply Hno. by left.
Qed.

Lemma matched_entries_first (k : nat) (c m : Entry) (l1 l2 : list Entry) :
  Forall has_uuid (l1 ++ m :: l2) → has_uuid c →
  (∀ x, x ∈ l1 → lower_id x ≠ lower_id c) →
  lower_id m = lower_id c →
  ∃ rest, matched_entries k c (l1 ++ m :: l2) = Ok ((k + length l1, m) :: rest).
Proof.
  intros HW Hc. revert k.
  induction l1 as [|e l1 IH]; intros k Hno Hm; simpl in *.
  - apply Forall_cons in HW as [Hmu Hl2].
    rewrite (uuid_of_has_uuid m), (uuid_of_has_uuid c) by done. simpl.
    assert (is_Ok (matched_entries (S k) c l2) = true) as Hok.
    { clear -Hl2 Hc. revert k. induction Hl2 as [|e l2 He _ IH]; intros k; [done|].
      simpl. rewrite (uuid_of_has_uuid e), (uuid_of_has_uuid c) by done. simpl.
      specialize (IH (S k)). by destruct (matched_entries _ _ _). }
    destruct (matched_entries _ _ _) as [rest|]; [|done]. simpl.
    rewrite bool_decide_eq_true_2 by exact Hm.
    exists rest. do 3 f_equal. lia.
  - apply Forall_cons in HW as [Heu HW].
    rewrite (uuid_of_has_uuid e), (uuid_of_has_uuid c) by done. simpl.
    destruct (IH HW (S k)) as [rest Hrest]; [|done|].
    { intros x Hx. apply Hno. by right. }
    rewrite Hrest. simpl.
    rewrite bool_decide_eq_false_2 by (apply Hno; by left).
    exists rest. do 3 f_equal. lia.
Qed.

(** Where the first entry with a given identity sits, if there is one. *)
Lemma first_match_split (key : string) (W : list Entry) :
  (∀ x, x ∈ W → lower_id x ≠ key) ∨
  ∃ l1 m l2, W = l1 ++ m :: l2 ∧
    (∀ x, x ∈ l1 → lower_id x ≠ key) ∧ lower_id m = key.
Proof.
  induction W as [|e W IH].
  - left. by intros x ?%elem_of_nil.
  - destruct (decide (lower_id e = key)) as [He|He].
    + right. exists [], e, W. split; [done|]. split; [|done].
      by intros x ?%elem_of_nil.
    + destruct IH as [Hno|(l1 & m & l2 & -> & Hno & Hm)].
      * left. intros x [->|Hx]%elem_of_cons; auto.
      * right. exists (e :: l1), m, l2. split; [done|]. split; [|done].
        intros x [->|Hx]%elem_of_cons; auto.
Qed.

(** [remove] always finds the object it is asked to remove. *)
Lemma list_remove_Ok (l1 l2 : list Entry) (m : Entry) :
  is_Ok (list_remove (length l1) m (l1 ++ m :: l2)) = true.
Proof.
  induction l1 as [|x l1 IH]; simpl; [done|].
  destruct (entry_eqb x m); [done|].
  by destruct (list_remove _ _ _).
Qed.

Section Structural.
(** The specification describes the comparison of two entries as full
    structural equality. *)
Hypothesis entry_eqb_structural : ∀ a b, entry_eqb a b = true ↔ a = b.

Lemma entry_eqb_false (a b : Entry) : entry_eqb a b = false ↔ a ≠ b.
Proof.
  rewrite <- entry_eqb_structural. destruct (entry_eqb a b); split; congruence.
Qed.

(** With structural equality, the object removed is the match itself. *)
Lemma list_remove_match (l1 l2 : list Entry) (m : Entry) :
  (∀ x, x ∈ l1 → x ≠ m) →
  list_remove (length l1) m (l1 ++ m :: l2) = Ok (l1 ++ l2).
Proof.
  induction l1 as [|x l1 IH]; intros Hno; simpl; [done|].
  rewrite (proj2 (entry_eqb_false x m)) by (apply Hno; by left).
  rewrite IH by (intros y Hy; apply Hno; by right). done.
Qed.

(** A candidate without a match is appended, marked as modified. *)
Lemma reconcile_one_new (W : list Entry) (c : Entry) :
  Forall has_uuid W → has_uuid c →
  (∀ x, x ∈ W → lower_id x ≠ lower_id c) →
  reconcile_one W c =
    Ok (W ++ [set_modified true (apply_parse_text c)],
        set_modified true (apply_parse_text c)).
Proof.
  intros HW Hc Hno. unfold reconcile_one.
  rewrite matched_entries_none; [done..| |].
  - unfold has_uuid. by rewrite uuid_apply_parse_text.
  - unfold lower_id, raw_id in *. by rewrite uuid_apply_parse_text.
Qed.

(** A candidate with a match is merged with it and compared: an equal
    candidate is dropped, an unequal one takes the place of the match at
    the end of the list. *)
Lemma reconcile_one_match (l1 l2 : list Entry) (m c : Entry) :
  Forall has_uuid (l1 ++ m :: l2) → has_uuid c →
  (∀ x, x ∈ l1 → lower_id x ≠ lower_id c) →
  lower_id m = lower_id c →
  reconcile_one (l1 ++ m :: l2) c =
    let c1 := merge_with m (apply_parse_text c) in
    if decide (m = c1) then Ok (l1 ++ m :: l2, c1)
    else Ok (l1 ++ l2 ++ [set_modified true c1], set_modified true c1).
Proof.
  intros HW Hc Hno Hm. unfold reconcile_one.
  destruct (matched_entries_first 0 (apply_parse_text c) m l1 l2) as [rest ->];
    [done| | | |].
  - unfold has_uuid. by rewrite uuid_apply_parse_text.
  - unfold lower_id, raw_id in *. by rewrite uuid_apply_parse_text.
  - unfold lower_id, raw_id in *. by rewrite uuid_apply_parse_text.
  - simpl. destruct (decide _) as [Heq|Hne].
    + by rewrite (proj2 (entry_eqb_structural _ _) Heq).
    + rewrite (proj2 (entry_eqb_false _ _) Hne). simpl.
      rewrite list_remove_match; [simpl; by rewrite <- app_assoc|].
      intros x Hx ->. by apply (Hno m).
Qed.

End Structural.
End Reconcile_step.

(** ** The reconciliation loop under structural equality *)

Section Reconcile_loop.
Context `{Collab}.
Hypothesis entry_eqb_structural : ∀ a b, entry_eqb a b = true ↔ a = b.

Lemma lowercase_id_has_uuid (c : Entry) : lowercase_id c → has_uuid c.
Proof. intros (u & Hu & _). unfold has_uuid. by rewrite Hu. Qed.

Lemma lowercase_id_raw (c : Entry) : lowercase_id c → lower_id c = raw_id c.
Proof.
  intros (u & Hu & Hl). unfold lower_id, raw_id. rewrite Hu. simpl.
  by apply lower_fixed.
Qed.

Lemma same_uuid_ids (a b : Entry) :
  uuid a = uuid b → raw_id a = raw_id b ∧ lower_id a = lower_id b.
Proof. unfold lower_id, raw_id. by intros ->. Qed.

(** What one step does to the working list [W]: either the candidate is
    new and is appended, or it has a first match [m], which stays when the
    merged candidate equals it and is replaced at the end otherwise. *)
Inductive step_shape (W : list Entry) (c : Entry) (W' : list Entry)
    (c' : Entry) : Prop :=
| step_new :
    (∀ x, x ∈ W → lower_id x ≠ lower_id c) →
    W' = W ++ [c'] → modified c' = true →
    step_shape W c W' c'
| step_same (l1 l2 : list Entry) :
    W = l1 ++ c' :: l2 → (∀ x, x ∈ l1 → lower_id x ≠ lower_id c) →
    W' = W →
    step_shape W c W' c'
| step_replace (l1 l2 : list Entry) (m : Entry) :
    W = l1 ++ m :: l2 → (∀ x, x ∈ l1 → lower_id x ≠ lower_id c) →
    lower_id m = lower_id c →
    W' = l1 ++ l2 ++ [c'] → modified c' = true →
    step_shape W c W' c'.

Lemma reconcile_one_shape (W : list Entry) (c : Entry) :
  Forall has_uuid W → has_uuid c →
  ∃ W' c', reconcile_one W c = Ok (W', c') ∧ uuid c' = uuid c ∧
    step_shape W c W' c'.
Proof.
  intros HW Hc.
  destruct (first_match_split (lower_id c) W)
    as [Hno|(l1 & m & l2 & -> & Hno & Hm)].
  - eexists _, _. split; [by apply reconcile_one_new|].
    split; [apply uuid_apply_parse_text|]. by apply step_new.
  - rewrite reconcile_one_match by done. simpl.
    destruct (decide _) as [Heq|Hne]; eexists _, _; (split; [done|]).
    + split; [simpl; apply uuid_apply_parse_text|].
      rewrite <- Heq. by eapply step_same.
    + split; [simpl; apply uuid_apply_parse_text|].
      by eapply step_replace.
Qed.

Section Step_facts.
Variables (W W' : list Entry) (c c' : Entry).
Hypothesis Hshape : step_shape W c W' c'.
Hypothesis Hc : lowercase_id c.
Hypothesis Huuid : uuid c' = uuid c.
Hypothesis HW : Forall has_uuid W.

Lemma step_lower_id : lower_id c' = lower_id c.
Proof. by apply same_uuid_ids. Qed.

Lemma step_raw_id : raw_id c' = lower_id c'.
Proof.
  destruct (same_uuid_ids c' c Huuid) as [-> ->].
  by rewrite lowercase_id_raw.
Qed.

Lemma step_has_uuid : Forall has_uuid W'.
Proof.
  assert (has_uuid c') as Hc'.
  { unfold has_uuid. rewrite Huuid. by apply lowercase_id_has_uuid. }
  destruct Hshape as [_ -> _|l1 l2 _ _ ->|l1 l2 m -> _ _ -> _]; [|done|].
  - apply Forall_app. split; [done|]. by constructor.
  - apply Forall_app in HW as [H1 [_ H2]%Forall_cons].
    rewrite !Forall_app. split; [done|]. split; [done|]. by constructor.
Qed.

(** The identities of the list: a new one is added at the end, and a
    replacement keeps the identity of the entry it replaces. *)
Lemma step_lower_ids :
  ((lower_id c ∉ (lower_id <$> W)) ∧
     lower_id <$> W' = (lower_id <$> W) ++ [lower_id c]) ∨
  ((lower_id c ∈ (lower_id <$> W)) ∧ (lower_id <$> W') ≡ₚ (lower_id <$> W)).
Proof.
  destruct Hshape as [Hno -> _|l1 l2 HWeq Hno ->|l1 l2 m -> Hno Hm -> _].
  - left. split.
    + intros (x & Hx & Hin)%list_elem_of_fmap. by apply (Hno x).
    + by rewrite fmap_app, <- step_lower_id.
  - right. split; [|done]. rewrite HWeq, <- step_lower_id.
    apply list_elem_of_fmap. exists c'. split; [done|].
    apply elem_of_app. right. by left.
  - right. split.
    + apply list_elem_of_fmap. exists m. split; [done|].
      apply elem_of_app. right. by left.
    + rewrite !fmap_app, !fmap_cons. simpl.
      rewrite step_lower_id, Hm. f_equiv.
      symmetry. apply Permutation_cons_append.
Qed.

Lemma step_NoDup : NoDup (lower_id <$> W) → NoDup (lower_id <$> W').
Proof.
  intros Hnd. destruct step_lower_ids as [[Hnew ->]|[_ ->]]; [|done].
  apply NoDup_app. split; [done|]. split; [|apply NoDup_singleton].
  by intros k Hk ->%list_elem_of_singleton.
Qed.

Lemma step_elem_of_ids (k : string) :
  k ∈ (lower_id <$> W') ↔ k ∈ (lower_id <$> W) ∨ k = lower_id c.
Proof.
  destruct step_lower_ids as [[Hnew ->]|[Hin ->]].
  - rewrite elem_of_app, list_elem_of_singleton. done.
  - split; [by left|]. by intros [?| ->].
Qed.

(** Entries whose identity is not one of the candidates' are not touched. *)
Lemma step_filter_others (ids : list string) :
  lower_id c ∈ ids →
  filter (fun e => lower_id e ∉ ids) W' = filter (fun e => lower_id e ∉ ids) W.
Proof.
  intros Hin.
  assert (filter (fun e => lower_id e ∉ ids) [c'] = []) as Hc'.
  { rewrite filter_cons_False; [done|]. rewrite step_lower_id. by intros ?. }
  destruct Hshape as [_ -> _|l1 l2 _ _ ->|l1 l2 m -> _ Hm -> _]; [|done|].
  - by rewrite filter_app, Hc', app_nil_r.
  - rewrite !filter_app, Hc', app_nil_r.
    rewrite filter_cons_False; [done|]. rewrite Hm. by intros ?.
Qed.

(** Every entry of the new list was there before or is the candidate,
    marked as modified. *)
Lemma step_provenance (e : Entry) :
  e ∈ W' → e ∈ W ∨ (e = c' ∧ modified c' = true).
Proof.
  destruct Hshape as [_ -> Hmod|l1 l2 _ _ ->|l1 l2 m -> _ _ -> Hmod];
    [|by left|].
  - intros [?| ->%list_elem_of_singleton]%elem_of_app; auto.
  - rewrite !elem_of_app, list_elem_of_singleton, elem_of_cons.
    intros [?|[?| ->]]; auto.
Qed.

(** Once a candidate has been handled, the entry that carries its identity
    stores it in lower case. *)
Lemma step_stored_lowercase (done_ids : list string) :
  NoDup (lower_id <$> W) →
  (∀ e, e ∈ W → lower_id e ∈ done_ids → raw_id e = lower_id e) →
  ∀ e, e ∈ W' → lower_id e ∈ lower_id c :: done_ids → raw_id e = lower_id e.
Proof.
  intros Hnd Hgood e He Hin.
  destruct Hshape as [Hno -> _|l1 l2 HWeq Hno ->|l1 l2 m -> Hno Hm -> _].
  - apply elem_of_app in He as [He| ->%list_elem_of_singleton];
      [|apply step_raw_id].
    apply elem_of_cons in Hin as [Heq|Hin]; [by apply Hno in He|auto].
  - apply elem_of_cons in Hin as [Heq|Hin]; [|auto].
    rewrite HWeq in He, Hnd.
    rewrite fmap_app, fmap_cons in Hnd.
    apply NoDup_app in Hnd as (_ & Hdisj & [Hc2 _]%NoDup_cons).
    apply elem_of_app in He as [He|[->|He]%elem_of_cons].
    + by apply Hno in He.
    + apply step_raw_id.
    + exfalso. apply Hc2. rewrite step_lower_id, <- Heq.
      apply list_elem_of_fmap. eauto.
  - rewrite fmap_app, fmap_cons in Hnd.
    apply NoDup_app in Hnd as (_ & Hdisj & [Hm2 _]%NoDup_cons).
    rewrite !elem_of_app, list_elem_of_singleton in He.
    destruct He as [He|[He| ->]]; [| |apply step_raw_id].
    + apply elem_of_cons in Hin as [Heq|Hin]; [by apply Hno in He|].
      apply Hgood; [|done]. apply elem_of_app. by left.
    + apply elem_of_cons in Hin as [Heq|Hin].
      * exfalso. apply Hm2. rewrite Hm, <- Heq.
        apply list_elem_of_fmap. eauto.
      * apply Hgood; [|done]. apply elem_of_app. right. by right.
Qed.

End Step_facts.
Lemma filter_ext_in {A} (P Q : A → Prop) `{∀ x, Decision (P x)}
    `{∀ x, Decision (Q x)} (l : list A) :
  (∀ x, x ∈ l → P x ↔ Q x) → filter P l = filter Q l.
Proof.
  induction l as [|x l IH]; intros Hext; [done|].
  rewrite !filter_cons.
  rewrite IH by (intros y Hy; apply Hext; by right).
  destruct (decide (P x)) as [HP|HP], (decide (Q x)) as [HQ|HQ]; try done.
  - by apply Hext in HP; [|left].
  - by apply Hext in HQ; [|left].
Qed.

(** What the loop over the candidates establishes.  [ids] are identities
    among which those of the candidates are found, [done_ids] those of the
    candidates handled before. *)
Record loop_result (W0 cands : list Entry) (ids done_ids : list string)
    (Wf cands' : list Entry) : Prop := mk_loop_result {
  lr_uuids : Forall2 (fun a b => uuid a = uuid b) cands' cands;
  lr_has_uuid : Forall has_uuid Wf;
  lr_NoDup : NoDup (lower_id <$> Wf);
  lr_others :
    filter (fun e => lower_id e ∉ ids) Wf = filter (fun e => lower_id e ∉ ids) W0;
  lr_ids : ∀ k,
    k ∈ (lower_id <$> Wf) ↔ k ∈ (lower_id <$> W0) ∨ k ∈ (lower_id <$> cands);
  lr_lowercase : ∀ e, e ∈ Wf →
    lower_id e ∈ (lower_id <$> cands) ∨ lower_id e ∈ done_ids →
    raw_id e = lower_id e;
  lr_provenance : ∀ e, e ∈ Wf → e ∈ W0 ∨ (e ∈ cands' ∧ modified e = true)
}.

Lemma reconcile_all_result (ids : list string) (cands : list Entry) :
  ∀ (W0 : list Entry) (done_ids : list string),
  Forall has_uuid W0 → NoDup (lower_id <$> W0) →
  Forall lowercase_id cands →
  (∀ c, c ∈ cands → lower_id c ∈ ids) →
  (∀ e, e ∈ W0 → lower_id e ∈ done_ids → raw_id e = lower_id e) →
  ∃ Wf cands', reconcile_all W0 cands = Ok (Wf, cands') ∧
    loop_result W0 cands ids done_ids Wf cands'.
Proof.
  induction cands as [|c cands IH]; intros W0 done_ids HW Hnd Hcs Hids Hgood.
  - exists W0, []. split; [done|]. split; try done.
    + intros k. split; [by left|]. by intros [?|?%elem_of_nil].
    + intros e He [Hin|Hin]; [by apply elem_of_nil in Hin | auto].
    + by left.
  - apply Forall_cons in Hcs as [Hc Hcs].
    destruct (reconcile_one_shape W0 c HW (lowercase_id_has_uuid c Hc))
      as (W1 & c1 & Hone & Huuid & Hshape).
    destruct (IH W1 (lower_id c :: done_ids)) as (Wf & cs' & Hall & Hres).
    + by eapply step_has_uuid.
    + by eapply step_NoDup.
    + done.
    + intros x Hx. apply Hids. by right.
    + by eapply step_stored_lowercase.
    + exists Wf, (c1 :: cs'). split.
      { simpl. rewrite Hone. simpl. by rewrite Hall. }
      destruct Hres as [R1 R2 R3 R4 R5 R6 R7]. split.
      * by constructor.
      * done.
      * done.
      * rewrite R4. eapply step_filter_others; [done..|]. apply Hids. by left.
      * intros k. rewrite R5, (step_elem_of_ids W0 W1 c c1) by done.
        rewrite fmap_cons, elem_of_cons. tauto.
      * intros e He Hin. apply R6; [done|].
        rewrite fmap_cons, elem_of_cons in Hin. rewrite elem_of_cons. tauto.
      * intros e He. destruct (R7 e He) as [He1|[He1 Hmod]].
        -- assert (e ∈ W0 ∨ e = c1 ∧ modified c1 = true) as [?|[-> ?]]
             by (eapply step_provenance; eauto).
           ++ by left.
           ++ right. split; [by left|done].
        -- right. split; [by right|done].
Qed.

(** The whole reconciliation, for a store whose entries have pairwise
    different identities (read without regard to case) and candidates as
    the scan produces them. *)
Lemma reconcile_summary (J : Store) (cands : list Entry) :
  Forall has_uuid (entries J) → NoDup (lower_id <$> entries J) →
  Forall lowercase_id cands →
  let ids := lower_id <$> cands in
  ∃ Wf cands' J',
    reconcile_all (entries J) cands = Ok (Wf, cands') ∧
    remove_deleted J Wf cands' = Ok J' ∧
    deleted_entries J' = filter (fun e => lower_id e ∉ ids) (entries J) ∧
    entries J' = filter (fun e => lower_id e ∈ ids) Wf ∧
    NoDup (lower_id <$> entries J') ∧
    (∀ k, k ∈ (lower_id <$> entries J') ↔ k ∈ ids) ∧
    (∀ e, e ∈ entries J' → e ∈ entries J ∨ (e ∈ cands' ∧ modified e = true)).
Proof.
  intros HW Hnd Hcs ids.
  destruct (reconcile_all_result ids cands (entries J) []) as (Wf & cs' & Hall & Hres);
    [done..| |by intros ? ? ?%elem_of_nil|].
  { intros c Hc. apply list_elem_of_fmap. eauto. }
  destruct Hres as [R1 R2 R3 R4 R5 R6 R7].
  assert (raw_id <$> cs' = ids) as Hed.
  { unfold ids. clear -R1 Hcs.
    induction R1 as [|a b cs' cands Hab _ IH]; [done|].
    apply Forall_cons in Hcs as [Hb Hcs]. rewrite !fmap_cons, IH by done.
    f_equal. rewrite (lowercase_id_raw b Hb).
    by destruct (same_uuid_ids a b Hab). }
  assert (Forall has_uuid cs') as Hcs'.
  { clear -R1 Hcs.
    induction R1 as [|a b cs' cands Hab _ IH]; [constructor|].
    apply Forall_cons in Hcs as [Hb Hcs]. constructor; [|by apply IH].
    unfold has_uuid. rewrite Hab. by apply lowercase_id_has_uuid. }
  assert (∀ k, k ∈ ids → Py.has_upper k = false) as Hlow.
  { intros k (c & -> & Hc)%list_elem_of_fmap.
    rewrite Forall_forall in Hcs. destruct (Hcs c Hc) as (u & Hu & Hl).
    unfold lower_id, raw_id. rewrite Hu. simpl. apply lower_has_no_upper. }
  assert (∀ e, e ∈ Wf → raw_id e ∈ ids ↔ lower_id e ∈ ids) as Hiff.
  { intros e He. split; intros Hin.
    - unfold lower_id. by rewrite lower_fixed by by apply Hlow.
    - rewrite R6; [done..|]. by left. }
  exists Wf, cs', (mkStore (config J)
    (filter (fun e => lower_id e ∈ ids) Wf)
    (filter (fun e => lower_id e ∉ ids) (entries J))).
  split; [done|]. split.
  { unfold remove_deleted.
    rewrite (mapM_R_total uuid_of raw_id), Hed.
    2:{ eapply Forall_impl; [exact Hcs'|]. apply uuid_of_has_uuid. }
    simpl.
    rewrite (filterM_total (not_in_uuids ids)
      (fun e => negb (bool_decide (raw_id e ∈ ids)))).
    2:{ eapply Forall_impl; [exact R2|]. intros e He. cbv beta. unfold not_in_uuids.
        by rewrite uuid_of_has_uuid. }
    simpl.
    rewrite (filterM_total (in_uuids ids)
      (fun e => bool_decide (raw_id e ∈ ids))).
    2:{ eapply Forall_impl; [exact R2|]. intros e He. cbv beta. unfold in_uuids.
        by rewrite uuid_of_has_uuid. }
    simpl. do 2 f_equal.
    - apply filter_ext_in. intros e He.
      rewrite bool_decide_spec. by apply Hiff.
    - rewrite <- R4. apply filter_ext_in. intros e He.
      rewrite negb_True, bool_decide_spec. by rewrite Hiff. }
  simpl. split; [done|]. split; [done|]. split; [|split].
  - eapply sublist_NoDup; [exact R3|].
    apply fmap_sublist, sublist_filter.
  - intros k. rewrite list_elem_of_fmap. split.
    + by intros (e & -> & [He _]%list_elem_of_filter).
    + intros Hk.
      assert (k ∈ (lower_id <$> Wf)) as (e & -> & He)%list_elem_of_fmap.
      { apply R5. by right. }
      exists e. split; [done|]. by apply list_elem_of_filter.
  - intros e [_ He]%list_elem_of_filter. by apply R7.
Qed.


End Reconcile_loop.

(** ** Facts that hold for every comparison of entries *)

Section Reconcile_any.
Context `{Collab}.

Lemma reconcile_one_uuid (W W' : list Entry) (c c' : Entry) :
  reconcile_one W c = Ok (W', c') → uuid c' = uuid c.
Proof.
  unfold reconcile_one. intros (ms & _ & Hres)%bind_Ok.
  destruct ms as [|[i m] ms].
  - injection Hres as _ <-. simpl. apply uuid_apply_parse_text.
  - destruct (negb _).
    + apply bind_Ok in Hres as (W1 & _ & [= _ <-]). simpl.
      apply uuid_apply_parse_text.
    + injection Hres as _ <-. simpl. apply uuid_apply_parse_text.
Qed.

Lemma reconcile_all_uuid (cands : list Entry) :
  ∀ W W' cands', reconcile_all W cands = Ok (W', cands') →
  Forall2 (fun a b => uuid a = uuid b) cands' cands.
Proof.
  induction cands as [|c cands IH]; intros W W' cands'; simpl.
  - intros [= _ <-]. constructor.
  - intros ([W1 c1] & Hone & ([W2 cs] & Hall & [= _ <-])%bind_Ok)%bind_Ok.
    constructor; [by eapply reconcile_one_uuid | by eapply IH].
Qed.

Lemma lowercase_id_same_uuid (a b : Entry) :
  uuid a = uuid b → lowercase_id b → lowercase_id a.
Proof. intros Hab (u & Hu & Hl). exists u. by rewrite Hab. Qed.

(** The last three statements of [parse_editable_str]: an entry of the
    working list is kept when its identity, as stored, is one of the
    candidates' identities, and goes to the deleted entries otherwise. *)
Lemma remove_deleted_spec (J J' : Store) (W cands : list Entry) :
  remove_deleted J W cands = Ok J' →
  ∃ edited_uuids, mapM_R uuid_of cands = Ok edited_uuids ∧
    Forall has_uuid W ∧
    entries J' = filter (fun e => raw_id e ∈ edited_uuids) W ∧
    deleted_entries J' = filter (fun e => raw_id e ∉ edited_uuids) W.
Proof.
  unfold remove_deleted.
  intros (ed & Hed & (del & Hdel & (kept & Hkept & [= <-])%bind_Ok)%bind_Ok)%bind_Ok.
  exists ed. split; [done|].
  apply filterM_Ok in Hdel as (qd & Hqd & ->).
  apply filterM_Ok in Hkept as (qk & Hqk & ->).
  assert (Forall has_uuid W) as HW.
  { eapply Forall_impl; [exact Hqk|]. intros e. cbv beta.
    unfold in_uuids, uuid_of, has_uuid. by destruct (uuid e). }
  split; [done|]. simpl. split.
  - apply filter_ext_in. intros e He.
    rewrite Forall_forall in Hqk, HW. specialize (Hqk e He).
    unfold in_uuids in Hqk. rewrite uuid_of_has_uuid in Hqk by auto.
    injection Hqk as <-. by rewrite bool_decide_spec.
  - apply filter_ext_in. intros e He.
    rewrite Forall_forall in Hqd, HW. specialize (Hqd e He).
    unfold not_in_uuids in Hqd. rewrite uuid_of_has_uuid in Hqd by auto.
    injection Hqd as <-. by rewrite negb_True, bool_decide_spec.
Qed.

(** The identities of the candidates, as [edited_uuids] lists them, have
    no upper-case letter. *)
Lemma edited_uuids_lowercase (cands : list Entry) (edited_uuids : list string) :
  Forall lowercase_id cands → mapM_R uuid_of cands = Ok edited_uuids →
  Forall (fun u => Py.has_upper u = false) edited_uuids.
Proof.
  intros Hcs Hed%mapM_R_Ok. induction Hed as [|c u cs us Hu _ IH]; [constructor|].
  apply Forall_cons in Hcs as [(v & Hv & Hl) Hcs].
  constructor; [|by apply IH].
  unfold uuid_of in Hu. rewrite Hv in Hu. simpl in Hu. congruence.
Qed.

End Reconcile_any.

(** ** The headers of a document *)

(** The identity that a line announces when it is a header line. *)
Definition header_id (raw : string) : option string :=
  Py.lower <$> match_header (Py.lower (Py.rstrip raw)).

(** The identities of the header lines of a document, in order. *)
Definition header_ids (edited : string) : list string :=
  omap header_id (Py.splitlines edited).

Section Header_facts.
Context `{Collab}.

Lemma scan_line_ids (st st' : ScanState) (raw : string) :
  scan_line st raw = Ok st' →
  raw_id <$> finish_current st' =
    (raw_id <$> finish_current st) ++ option_list (header_id raw).
Proof.
  unfold scan_line, header_id.
  destruct (match_header _) as [g|]; simpl.
  - intros [= <-]. unfold finish_current at 1. simpl.
    by rewrite fmap_app.
  - rewrite app_nil_r. destruct (find_date_blob _) as [blob|].
    + unfold finish_current. destruct st.2 as [c|]; simpl; [|done].
      destruct (Py.ends_with_char _ _); intros [= <-]; simpl;
        by rewrite !fmap_app.
    + unfold finish_current. destruct st.2 as [c|] eqn:Hc; intros [= <-]; simpl.
      * by rewrite !fmap_app.
      * by rewrite Hc.
Qed.

Lemma scan_lines_ids (lines : list string) :
  ∀ st st', scan_lines st lines = Ok st' →
  raw_id <$> finish_current st' =
    (raw_id <$> finish_current st) ++ omap header_id lines.
Proof.
  induction lines as [|l lines IH]; intros st st'.
  - intros [= <-]. by rewrite app_nil_r.
  - rewrite scan_lines_cons. intros (st1 & H1 & H2)%bind_Ok.
    rewrite (IH _ _ H2), (scan_line_ids _ _ _ H1), <- app_assoc.
    f_equal. simpl. by destruct (header_id l).
Qed.

(** The candidates of a document are its headers, one for one. *)
Lemma scan_header_ids (edited : string) (cands : list Entry) :
  scan edited = Ok cands → raw_id <$> cands = header_ids edited.
Proof.
  unfold scan. intros (st & Hst & [= <-])%bind_Ok.
  by rewrite (scan_lines_ids _ _ _ Hst).
Qed.

End Header_facts.

(** ** Properties of the reconciliation *)

(** C3.  A candidate whose identity matches an entry of the working list
    (upper and lower case read alike) gets the union of its own tags and
    the tags of the first such entry, and each of the seven extended
    attributes that this entry has; then, when the candidate differs from
    the entry, the entry is removed and the candidate is appended with
    [modified] set, and when they are equal the list stays as it is and the
    candidate is not added.  A candidate without a match is appended with
    [modified] set.  Equality of entries is structural equality. *)
Theorem reconcile_candidate `{Collab} (W : list Entry) (c : Entry) :
  (∀ a b, entry_eqb a b = true ↔ a = b) →
  Forall has_uuid W → has_uuid c →
  let c0 := apply_parse_text c in
  ((∀ x, x ∈ W → lower_id x ≠ lower_id c) →
     reconcile_one W c =
       Ok (W ++ [set_modified true c0], set_modified true c0) ∧
     modified (set_modified true c0) = true)
  ∧
  (∀ l1 m l2, W = l1 ++ m :: l2 →
     (∀ x, x ∈ l1 → lower_id x ≠ lower_id c) → lower_id m = lower_id c →
     let c1 := merge_with m c0 in
     tags c1 = tags c0 ∪ tags m ∧
     (∀ f v, f ∈ extended_fields → f m = Some v → f c1 = Some v) ∧
     (∀ f, f ∈ extended_fields → f m = None → f c1 = f c0) ∧
     (c1 ≠ m →
        reconcile_one W c =
          Ok (l1 ++ l2 ++ [set_modified true c1], set_modified true c1) ∧
        modified (set_modified true c1) = true) ∧
     (c1 = m → reconcile_one W c = Ok (W, c1))).
Proof.
  intros Heq HW Hc c0. split.
  - intros Hno. split; [by apply reconcile_one_new|done].
  - intros l1 m l2 -> Hno Hm c1. split; [done|].
    assert (∀ f, f ∈ extended_fields →
      f c1 = copy_if_present (f m) (f c0)) as Hfields.
    { intros f Hf. unfold extended_fields in Hf.
      repeat (apply elem_of_cons in Hf as [->|Hf]); try done.
      by apply elem_of_nil in Hf. }
    split; [|split].
    + intros f v Hf Hv. by rewrite (Hfields f Hf), Hv.
    + intros f Hf Hv. by rewrite (Hfields f Hf), Hv.
    + pose proof (reconcile_one_match Heq l1 l2 m c HW Hc Hno Hm) as Hone.
      simpl in Hone. fold c0 c1 in Hone.
      destruct (decide (m = c1)) as [He|Hne]; split; done.
Qed.

(** A candidate that its match compares equal to leaves the working list
    as it is, whatever the comparison of entries is. *)
Lemma reconcile_one_equal `{Collab} (l1 l2 : list Entry) (m c : Entry) :
  Forall has_uuid (l1 ++ m :: l2) → has_uuid c →
  (∀ x, x ∈ l1 → lower_id x ≠ lower_id c) →
  lower_id m = lower_id c →
  entry_eqb m (merge_with m (apply_parse_text c)) = true →
  reconcile_one (l1 ++ m :: l2) c =
    Ok (l1 ++ m :: l2, merge_with m (apply_parse_text c)).
Proof.
  intros HW Hc Hno Hm Heq. unfold reconcile_one.
  destruct (matched_entries_first 0 (apply_parse_text c) m l1 l2) as [rest ->];
    [done| | | |].
  - unfold has_uuid. by rewrite uuid_apply_parse_text.
  - unfold lower_id, raw_id in *. by rewrite uuid_apply_parse_text.
  - unfold lower_id, raw_id in *. by rewrite uuid_apply_parse_text.
  - simpl. by rewrite Heq.
Qed.

Lemma has_upper_not_lower (u v : string) :
  Py.has_upper u = true → u ≠ Py.lower v.
Proof. intros Hu ->. by rewrite lower_has_no_upper in Hu. Qed.

(** C2.  The claim is that the entries whose headers are in the document
    are kept and the others deleted.  The last statements of
    [parse_editable_str] look for the identity of an entry, as it is
    stored, among the identities of the candidates, which are in lower
    case.  Here the store holds the entries [eA], [eB] and [eC], the
    document has the headers of [eA] and [eC] and leaves both as they are
    (each compares equal to its candidate), and the identity of [eA] has
    an upper-case letter: [eA] is deleted with [eB], and it is not kept. *)
Theorem unchanged_entry_deleted `{Collab} (J : Store) (edited : string)
    (cA cC eA eB eC : Entry) (a b c : string) :
  uuid eA = Some a → uuid eB = Some b → uuid eC = Some c →
  NoDup [Py.lower a; Py.lower b; Py.lower c] →
  entries J = [eA; eB; eC] →
  header_ids edited = [Py.lower a; Py.lower c] →
  scan edited = Ok [cA; cC] →
  entry_eqb eA (merge_with eA (apply_parse_text cA)) = true →
  entry_eqb eC (merge_with eC (apply_parse_text cC)) = true →
  Py.has_upper a = true →
  ∃ J' cands', parse_editable_str J edited = Ok (J', cands') ∧
    deleted_entries J' = eA :: eB :: (if Py.has_upper c then [eC] else []) ∧
    entries J' = (if Py.has_upper c then [] else [eC]) ∧
    deleted_entries J' ≠ [eB].
Proof.
  intros Ha Hb Hc Hnd HJ Hhdr Hscan HeqA HeqC Hup.
  pose proof (scan_header_ids edited _ Hscan) as Hids.
  rewrite Hhdr in Hids. injection Hids as HrA HrC.
  pose proof (scan_lowercase edited _ Hscan) as Hlow.
  apply Forall_cons in Hlow as [(ua & HuA & _) Hlow].
  apply Forall_cons in Hlow as [(uc & HuC & _) _].
  assert (ua = Py.lower a) as -> by (unfold raw_id in HrA; by rewrite HuA in HrA).
  assert (uc = Py.lower c) as -> by (unfold raw_id in HrC; by rewrite HuC in HrC).
  assert (lower_id eA = Py.lower a ∧ lower_id eB = Py.lower b ∧
          lower_id eC = Py.lower c ∧ lower_id cA = Py.lower a ∧
          lower_id cC = Py.lower c) as (HlA & HlB & HlC & HlcA & HlcC).
  { unfold lower_id, raw_id. rewrite Ha, Hb, Hc, HuA, HuC. simpl.
    by rewrite !lower_idemp. }
  apply NoDup_cons in Hnd as [Hna [Hnb _]%NoDup_cons].
  rewrite !not_elem_of_cons in Hna. rewrite !not_elem_of_cons in Hnb.
  destruct Hna as (Hab & Hac & _). destruct Hnb as (Hbc & _).
  assert (Forall has_uuid [eA; eB; eC]) as HW
    by (repeat constructor; unfold has_uuid; by rewrite ?Ha, ?Hb, ?Hc).
  set (c1A := merge_with eA (apply_parse_text cA)).
  set (c1C := merge_with eC (apply_parse_text cC)).
  assert (reconcile_all [eA; eB; eC] [cA; cC] = Ok ([eA; eB; eC], [c1A; c1C]))
    as Hall.
  { simpl.
    rewrite (reconcile_one_equal [] [eB; eC] eA cA); simpl;
      [|done|by eexists|by intros x ?%elem_of_nil|congruence|done].
    rewrite (reconcile_one_equal [eA; eB] [] eC cC); simpl;
      [done|done|by eexists| |congruence|done].
    intros x [->|[->|[]%elem_of_nil]%elem_of_cons]%elem_of_cons; congruence. }
  assert (uuid c1A = Some (Py.lower a) ∧ uuid c1C = Some (Py.lower c))
    as [Hu1A Hu1C].
  { unfold c1A, c1C. by rewrite !uuid_merge_with, !uuid_apply_parse_text. }
  assert (a ∉ [Py.lower a; Py.lower c]) as HnA.
  { rewrite !not_elem_of_cons. repeat split; try by apply has_upper_not_lower.
    apply not_elem_of_nil. }
  assert (b ∉ [Py.lower a; Py.lower c]) as HnB.
  { rewrite !not_elem_of_cons. repeat split; try apply not_elem_of_nil.
    - intros ->. by rewrite lower_idemp in Hab.
    - intros ->. by rewrite lower_idemp in Hbc. }
  assert (c ∈ [Py.lower a; Py.lower c] ↔ Py.has_upper c = false) as HiC.
  { rewrite elem_of_cons, list_elem_of_singleton. split.
    - intros [->| ->]; [by rewrite lower_idemp in Hac|apply lower_has_no_upper].
    - intros Hl. right. by rewrite lower_fixed. }
  assert (remove_deleted J [eA; eB; eC] [c1A; c1C] =
          Ok (mkStore (config J)
                (if Py.has_upper c then [] else [eC])
                (eA :: eB :: (if Py.has_upper c then [eC] else [])))) as Hdel.
  { unfold remove_deleted. simpl. unfold uuid_of. rewrite Hu1A, Hu1C. simpl.
    unfold not_in_uuids, in_uuids, uuid_of. rewrite Ha, Hb, Hc. simpl.
    rewrite (bool_decide_eq_false_2 _ HnA), (bool_decide_eq_false_2 _ HnB).
    simpl. destruct (Py.has_upper c) eqn:Hcu.
    - rewrite (bool_decide_eq_false_2 (c ∈ _)); [done|].
      rewrite HiC. congruence.
    - rewrite (bool_decide_eq_true_2 (c ∈ _)); [done|]. by apply HiC. }
  exists (mkStore (config J)
            (if Py.has_upper c then [] else [eC])
            (eA :: eB :: (if Py.has_upper c then [eC] else []))), [c1A; c1C].
  split; [|split; [reflexivity|split; [reflexivity|]]].
  - unfold parse_editable_str. rewrite Hscan, HJ.
    cbv beta iota delta [mbind Result_bind]. rewrite Hall.
    cbv beta iota. by rewrite Hdel.
  - simpl. intros [=].
Qed.

(** C10.  Every candidate has an identity without upper-case letters, and
    the last statements of [parse_editable_str] look the stored identity of
    an entry up among those identities as it is written.  So an entry that
    is in the working list when the loop over the candidates ends, and
    whose stored identity has an upper-case letter, goes to the deleted
    entries and is not kept, whatever headers the document has. *)
Theorem uppercase_entries_deleted `{Collab} (J J' : Store) (edited : string)
    (cands cands' W : list Entry) :
  scan edited = Ok cands →
  reconcile_all (entries J) cands = Ok (W, cands') →
  remove_deleted J W cands' = Ok J' →
  parse_editable_str J edited = Ok (J', cands') ∧
  (∀ c, c ∈ cands' → lowercase_id c) ∧
  (∀ e u, e ∈ W → uuid e = Some u → Py.has_upper u = true →
     e ∈ deleted_entries J' ∧ (e ∉ entries J')).
Proof.
  intros Hscan Hall Hdel.
  assert (Forall lowercase_id cands') as Hlow.
  { pose proof (scan_lowercase edited cands Hscan) as Hcs.
    pose proof (reconcile_all_uuid cands _ _ _ Hall) as H2.
    clear -Hcs H2. induction H2 as [|x y l l' Hxy _ IH]; [constructor|].
    apply Forall_cons in Hcs as [Hy Hcs].
    constructor; [by eapply lowercase_id_same_uuid | by apply IH]. }
  split; [|split].
  - unfold parse_editable_str. rewrite Hscan. simpl. rewrite Hall. simpl.
    by rewrite Hdel.
  - by apply Forall_forall.
  - intros e u He Hu Hup.
    destruct (remove_deleted_spec _ _ _ _ Hdel) as (ed & Hed & _ & Hk & Hd).
    pose proof (edited_uuids_lowercase _ _ Hlow Hed) as Hedlow.
    assert (raw_id e ∉ ed) as Hnot.
    { intros Hin. rewrite Forall_forall in Hedlow.
      specialize (Hedlow _ Hin). unfold raw_id in Hedlow.
      rewrite Hu in Hedlow. simpl in Hedlow. congruence. }
    rewrite Hk, Hd, !list_elem_of_filter. tauto.
Qed.

(** C1.  The claim is that rendering a store and reading the text back
    leaves the entries as they were.  An entry whose stored identity has an
    upper-case letter is never among the entries after the round trip, so
    the entries are not what they were, whatever the collaborators do. *)
Theorem roundtrip_loses_uppercase `{Collab} (J J' : Store) (doc : string)
    (cands : list Entry) (e : Entry) (u : string) :
  e ∈ entries J → uuid e = Some u → Py.has_upper u = true →
  editable_str J = Ok doc →
  parse_editable_str J doc = Ok (J', cands) →
  (e ∉ entries J') ∧ entries J' ≠ entries J.
Proof.
  intros He Hu Hup _ Hparse.
  unfold parse_editable_str in Hparse.
  apply bind_Ok in Hparse as (cs & Hscan & Hparse).
  apply bind_Ok in Hparse as ([W cs'] & Hall & Hparse).
  apply bind_Ok in Hparse as (J1 & Hdel & [= -> ->]).
  assert (e ∉ entries J') as Hnot.
  { destruct (remove_deleted_spec _ _ _ _ Hdel) as (ed & Hed & _ & Hk & _).
    assert (Forall lowercase_id cands) as Hlow.
    { pose proof (scan_lowercase doc cs Hscan) as Hcs.
      pose proof (reconcile_all_uuid cs _ _ _ Hall) as H2.
      clear -Hcs H2. induction H2 as [|x y l l' Hxy _ IH]; [constructor|].
      apply Forall_cons in Hcs as [Hy Hcs].
      constructor; [by eapply lowercase_id_same_uuid | by apply IH]. }
    pose proof (edited_uuids_lowercase _ _ Hlow Hed) as Hedlow.
    rewrite Hk, list_elem_of_filter. intros [Hin _].
    rewrite Forall_forall in Hedlow. specialize (Hedlow _ Hin).
    unfold raw_id in Hedlow. rewrite Hu in Hedlow. simpl in Hedlow.
    congruence. }
  split; [done|]. intros Heq. by rewrite Heq in Hnot.
Qed.

(** C9.  The claim is that a line before the first header is dropped and
    the scan goes on, whatever the line looks like.  That is so for the
    lines that do not start with a bracketed time ([scan_lines_skip_plain]).
    A line that starts with one is not dropped: when it comes before the
    first header there is no entry yet whose title it could set, and the
    call ends with an exception. *)
Theorem title_before_header_raises `{Collab} (J : Store) (edited : string)
    (pre rest : list string) (l : string) :
  Py.splitlines edited = pre ++ l :: rest →
  Forall plain_line pre → title_line l →
  parse_editable_str J edited = Err AttributeError.
Proof.
  intros Hlines Hpre Hl.
  unfold parse_editable_str, scan. rewrite Hlines.
  by rewrite scan_lines_title_first.
Qed.

(** ** A sample journal *)

Module Sample.
Import Reference.

Definition cfg : Config := mkConfig "/j" "@".

Definition entry (u : string) (d : Z) (t b : string) : Entry :=
  mkEntry (Some u) (Some d) t b false ∅
    None None None None None None None false.

Definition eA : Entry := entry "A1" 100 "First" ("one" +:+ nl).
Definition eB : Entry := entry "B2" 200 "Second" ("two" +:+ nl).
Definition eC : Entry := entry "c3" 300 "Third" ("three" +:+ nl).

Definition store : Store := mkStore cfg [eA; eB; eC] [].

(** The document with the block of [eB] taken out. *)
Definition without_B : string :=
  "# A1" +:+ nl +:+ "[100] First" +:+ nl +:+ "one" +:+ nl +:+
  "# c3" +:+ nl +:+ "[300] Third" +:+ nl +:+ "three".

(** A candidate as the scan makes it from the header of [eA]. *)
Definition candidate_A : Entry :=
  mkEntry (Some "a1") (Some 100%Z) "First" ("one" +:+ nl) false ∅
    None None None None None None None false.

End Sample.

Lemma reference_eqb_structural (symbols : string) :
  ∀ a b, @entry_eqb (Reference.collab symbols) a b = true ↔ a = b.
Proof. intros a b. apply bool_decide_eq_true. Qed.

Lemma reconcile_candidate_witness :
  reconcile_one (H := Reference.collab "@") [Sample.eB; Sample.eA]
    Sample.candidate_A =
  Ok ([Sample.eB; set_modified true Sample.candidate_A],
      set_modified true Sample.candidate_A).
Proof.
  pose proof (reconcile_candidate (H := Reference.collab "@")
    [Sample.eB; Sample.eA] Sample.candidate_A
    (reference_eqb_structural "@")) as Hthm.
  destruct Hthm as [_ Hmatch].
  - repeat constructor; by eexists.
  - by eexists.
  - destruct (Hmatch [Sample.eB] Sample.eA [] eq_refl) as (_ & _ & _ & Hne & _).
    + intros x Hx%list_elem_of_singleton. subst x. by vm_compute.
    + reflexivity.
    + destruct Hne as [Hone _]; [by vm_compute|]. exact Hone.
Defined.

(** A candidate as the scan makes it from the header of [eC]. *)
Definition candidate_C : Entry :=
  mkEntry (Some "c3") (Some 300%Z) "Third" ("three" +:+ nl) false ∅
    None None None None None None None false.

Lemma sample_by_content :
  NoDup [Py.lower "A1"; Py.lower "B2"; Py.lower "c3"] ∧
  header_ids Sample.without_B = [Py.lower "A1"; Py.lower "c3"] ∧
  scan (H := Reference.collab_by_content "@") Sample.without_B =
    Ok [Sample.candidate_A; candidate_C] ∧
  @entry_eqb (Reference.collab_by_content "@") Sample.eA
    (merge_with Sample.eA
       (apply_parse_text (H := Reference.collab_by_content "@")
          Sample.candidate_A)) = true ∧
  @entry_eqb (Reference.collab_by_content "@") Sample.eC
    (merge_with Sample.eC
       (apply_parse_text (H := Reference.collab_by_content "@")
          candidate_C)) = true.
Proof.
  split; [apply (bool_decide_unpack _); vm_compute; exact I|].
  repeat split; vm_compute; reflexivity.
Qed.

Lemma unchanged_entry_deleted_witness :
  ∃ J' cands',
    parse_editable_str (H := Reference.collab_by_content "@") Sample.store
      Sample.without_B = Ok (J', cands') ∧
    deleted_entries J' = [Sample.eA; Sample.eB] ∧
    entries J' = [Sample.eC] ∧
    deleted_entries J' ≠ [Sample.eB].
Proof.
  destruct sample_by_content as (Hnd & Hhdr & Hscan & HeqA & HeqC).
  exact (unchanged_entry_deleted (H := Reference.collab_by_content "@")
           Sample.store Sample.without_B Sample.candidate_A candidate_C
           Sample.eA Sample.eB Sample.eC "A1" "B2" "c3"
           eq_refl eq_refl eq_refl Hnd eq_refl Hhdr Hscan HeqA HeqC eq_refl).
Defined.

Lemma title_before_header_raises_witness :
  parse_editable_str (H := Reference.collab "@") Sample.store
    ("some notes" +:+ nl +:+ "[2020-01-01 09:00] Title" +:+ nl +:+
     "# abc" +:+ nl +:+ "[2020-01-01 10:00] Other") = Err AttributeError.
Proof.
  apply (title_before_header_raises (H := Reference.collab "@") Sample.store _
    ["some notes"] ["# abc"; "[2020-01-01 10:00] Other"]
    "[2020-01-01 09:00] Title").
  - reflexivity.
  - constructor; [|constructor]. split; reflexivity.
  - split; [reflexivity|]. by eexists.
Defined.

(** Two entries that share the identity [A1], and a document with a header
    for it. *)
Definition twin : Entry := Sample.entry "A1" 150 "Copy" ("copy" +:+ nl).
Definition twin_store : Store := mkStore Sample.cfg [Sample.eA; twin] [].
Definition twin_doc : string :=
  "# a1" +:+ nl +:+ "[100] First" +:+ nl +:+ "one".

Lemma uppercase_entries_deleted_witness :
  ∃ J' cands',
    parse_editable_str (H := Reference.collab "@") twin_store twin_doc =
      Ok (J', cands') ∧
    twin ∈ deleted_entries J' ∧ (twin ∉ entries J').
Proof.
  eexists _, _.
  edestruct (uppercase_entries_deleted (H := Reference.collab "@"))
    with (J := twin_store) (edited := twin_doc) as (Hparse & _ & Hdel).
  - vm_compute. reflexivity.
  - vm_compute. reflexivity.
  - vm_compute. reflexivity.
  - split; [exact Hparse|].
    apply (Hdel twin "A1").
    + apply (bool_decide_unpack _). by vm_compute.
    + reflexivity.
    + reflexivity.
Defined.

(** The sample store as [editable_str] renders it. *)
Definition sample_doc : string :=
  "# A1" +:+ nl +:+ "[100] First" +:+ nl +:+ "one" +:+ nl +:+
  "# B2" +:+ nl +:+ "[200] Second" +:+ nl +:+ "two" +:+ nl +:+
  "# c3" +:+ nl +:+ "[300] Third" +:+ nl +:+ "three".

Lemma roundtrip_loses_uppercase_witness :
  ∃ J' cands,
    editable_str (H := Reference.collab "@") Sample.store = Ok sample_doc ∧
    parse_editable_str (H := Reference.collab "@") Sample.store sample_doc =
      Ok (J', cands) ∧
    (Sample.eA ∉ entries J') ∧ entries J' ≠ entries Sample.store.
Proof.
  eexists _, _.
  assert (editable_str (H := Reference.collab "@") Sample.store = Ok sample_doc)
    as Hdoc by (vm_compute; reflexivity).
  split; [exact Hdoc|].
  assert (parse_editable_str (H := Reference.collab "@") Sample.store
            sample_doc = Ok (_, _))
    as Hparse by (vm_compute; reflexivity).
  split; [exact Hparse|].
  eapply (roundtrip_loses_uppercase (H := Reference.collab "@")
    Sample.store _ sample_doc _ Sample.eA "A1").
  - apply (bool_decide_unpack _). by vm_compute.
  - reflexivity.
  - reflexivity.
  - exact Hdoc.
  - exact Hparse.
Defined.

(** With the reference collaborators, the round trip of the sample store
    marks the entries with upper-case identities as modified and moves them
    to the end; a store whose identities are in lower case comes back as it
    was. *)
Example roundtrip_sample :
  (doc ← editable_str (H := Reference.collab "@") Sample.store;
   '(J', _) ← parse_editable_str (H := Reference.collab "@") Sample.store doc;
   Ok ((fun e => (uuid e, modified e)) <$> entries J')) =
  Ok [(Some "c3", false); (Some "a1", true); (Some "b2", true)].
Proof. by vm_compute. Qed.

Example roundtrip_lowercase :
  let J := mkStore Sample.cfg [Sample.candidate_A; Sample.eC] [] in
  (doc ← editable_str (H := Reference.collab "@") J;
   '(J', _) ← parse_editable_str (H := Reference.collab "@") J doc;
   Ok J') = Ok J.
Proof. by vm_compute. Qed.

(** ** Loading: well-formed records *)

Definition is_string (v : PValue) : bool :=
  match v with PString _ => true | _ => false end.
Definition is_bool (v : PValue) : bool :=
  match v with PBool _ => true | _ => false end.
Definition is_date (v : PValue) : bool :=
  match v with PDate _ => true | _ => false end.

(** The tags of a record are an array of strings; a tag needs a tag symbol
    to be put in front of it. *)
Definition tags_well_formed (cfg : Config) (v : PValue) : bool :=
  match v with
  | PArray l =>
      forallb is_string l &&
      (bool_decide (l = []) || negb (bool_decide (tagsymbols cfg = "")))
  | _ => false
  end.

(** A well-formed record: a dictionary with a creation date, an entry
    text, a starred flag and an identity of the right types; the name of
    the time zone and the tags may be missing. *)
Definition well_formed_record (cfg : Config) (v : PValue) : bool :=
  match v with
  | PDict kv =>
      from_option is_date false (assoc "Creation Date" kv) &&
      from_option is_string false (assoc "Entry Text" kv) &&
      from_option is_bool false (assoc "Starred" kv) &&
      from_option is_string false (assoc "UUID" kv) &&
      from_option is_string true (assoc "Time Zone" kv) &&
      from_option (tags_well_formed cfg) true (assoc "Tags" kv)
  | _ => false
  end.

(** A file that [plistlib.load] rejects with one of [PLIST_EXCEPTIONS]. *)
Definition is_malformed (f : File) : bool :=
  match content f with Malformed => true | _ => false end.

Lemma insert_by_date_perm (e : Entry) (l : list Entry) :
  insert_by_date e l ≡ₚ e :: l.
Proof.
  induction l as [|x l IH]; [done|].
  simpl. destruct (date_leb x e); [|done].
  by rewrite IH, Permutation_swap.
Qed.

Lemma sort_entries_perm (l : list Entry) : sort_entries l ≡ₚ l.
Proof.
  unfold sort_entries.
  assert (∀ acc, foldl (fun acc e => insert_by_date e acc) acc l ≡ₚ acc ++ l)
    as Hgen.
  { induction l as [|e l IH]; intros acc; simpl.
    - by rewrite app_nil_r.
    - rewrite IH, insert_by_date_perm. simpl. apply Permutation_middle. }
  apply Hgen.
Qed.

Section Load_facts.
Context `{Collab} `{Host}.

(** The zone that [decode] works with. *)
Definition resolved_zone (kv : list (string * PValue)) : TzInfo :=
  match assoc "Time Zone" kv with
  | Some (PString name) => default get_localzone (pytz_timezone name)
  | _ => get_localzone
  end.

Lemma decode_tags_well_formed (cfg : Config) (l : list PValue) :
  forallb is_string l = true →
  (bool_decide (l = []) || negb (bool_decide (tagsymbols cfg = ""))) = true →
  is_Ok (mapM_R (decode_tag cfg) l) = true.
Proof.
  intros Hall Hsym. destruct l as [|t l]; [done|].
  simpl in Hsym. apply negb_true_iff, bool_decide_eq_false in Hsym.
  revert Hall. generalize (t :: l). clear t l.
  induction l as [|t l IH]; [done|].
  simpl. intros [Ht Hl]%andb_true_iff.
  destruct t as [s| | | | |]; try done.
  assert (∃ y, decode_tag cfg (PString s) = Ok y) as [y ->].
  { unfold decode_tag. destruct (tagsymbols cfg); [done|eauto]. }
  simpl. specialize (IH Hl).
  destruct (mapM_R _ _); [done | simpl in IH; discriminate].
Qed.

(** A well-formed record always decodes; this names what comes out. *)
Lemma decode_well_formed (cfg : Config) (kv : list (string * PValue)) :
  well_formed_record cfg (PDict kv) = true →
  ∃ d text star u tag_list,
    assoc "Creation Date" kv = Some (PDate d) ∧
    assoc "Entry Text" kv = Some (PString text) ∧
    assoc "Starred" kv = Some (PBool star) ∧
    assoc "UUID" kv = Some (PString u) ∧
    resolve_timezone kv = Ok (resolved_zone kv) ∧
    let d' := to_utc (resolved_zone kv) d in
    decode cfg (PDict kv) =
      Ok (mkEntry (Some u) (Some d') (split_text text).1 (split_text text).2
            star (list_to_set tag_list)
            (creator_field kv "Device Agent")
            (Some (default (PDate d') (creator_field kv "Generation Date")))
            (creator_field kv "Host Name")
            (creator_field kv "OS Agent")
            (creator_field kv "Software Agent")
            (assoc "Location" kv) (assoc "Weather" kv) false).
Proof.
  unfold well_formed_record. rewrite !andb_true_iff.
  intros [[[[[Hd Ht] Hs] Hu] Hz] Hg].
  destruct (assoc "Creation Date" kv) as [[| | |d| |]|] eqn:Ed; try done.
  destruct (assoc "Entry Text" kv) as [[text| | | | |]|] eqn:Et; try done.
  destruct (assoc "Starred" kv) as [[|star| | | |]|] eqn:Es; try done.
  destruct (assoc "UUID" kv) as [[u| | | | |]|] eqn:Eu; try done.
  assert (resolve_timezone kv = Ok (resolved_zone kv)) as Hres.
  { unfold resolve_timezone, resolved_zone.
    by destruct (assoc "Time Zone" kv) as [[name| | | | |]|]. }
  assert (∃ tag_list,
    (match assoc "Tags" kv with Some v => iterate v | None => Ok [] end)
      ≫= mapM_R (decode_tag cfg) = Ok tag_list) as [tag_list Htags].
  { destruct (assoc "Tags" kv) as [v|]; [|by exists []].
    simpl in Hg. destruct v as [| | | |l|]; try done. simpl.
    apply andb_true_iff in Hg as [Hall Hsym].
    pose proof (decode_tags_well_formed cfg l Hall Hsym) as Hok.
    destruct (mapM_R _ _) as [r|]; [by exists r|done]. }
  exists d, text, star, u, tag_list.
  do 5 (split; [done|]).
  unfold decode. simpl. rewrite Hres, Ed, Et, Es, Eu. simpl.
  apply bind_Ok in Htags as (vs & Hvs & Hl).
  rewrite Hvs. simpl. rewrite Hl. done.
Qed.

End Load_facts.

Section Load_files.
Context `{Collab} `{Host}.

Lemma load_file_malformed (cfg : Config) (acc : list Entry) (f : File) :
  is_malformed f = true → load_file cfg acc f = Ok acc.
Proof. unfold is_malformed, load_file. by destruct (content f). Qed.

Lemma load_file_plist (cfg : Config) (acc : list Entry) (f : File) (v : PValue) :
  content f = Plist v →
  load_file cfg acc f = decode cfg v ≫= fun entry => Ok (acc ++ [entry]).
Proof. unfold load_file. by intros ->. Qed.

(** A file that [plistlib] cannot load leaves no trace in the loop. *)
Lemma load_files_skip (cfg : Config) (fs : list File) :
  ∀ acc,
  foldM (load_file cfg) acc (filter is_doentry fs) =
  foldM (load_file cfg) acc
    (filter is_doentry (filter (fun f => is_malformed f = false) fs)).
Proof.
  induction fs as [|f fs IH]; intros acc; [done|].
  rewrite (filter_cons (fun f => is_malformed f = false)).
  destruct (decide (is_malformed f = false)) as [Hm|Hm].
  - rewrite !filter_cons. destruct (decide (is_doentry f)); [|apply IH].
    simpl. destruct (load_file cfg acc f); simpl; [apply IH|done].
  - apply not_false_is_true in Hm.
    rewrite filter_cons. destruct (decide (is_doentry f)); [|apply IH].
    simpl. rewrite load_file_malformed by done. simpl. apply IH.
Qed.

(** A file that is loaded and decoded. *)
Definition decodes_to (cfg : Config) (f : File) (e : Entry) : Prop :=
  ∃ v, content f = Plist v ∧ decode cfg v = Ok e.

(** When every file is loaded and decoded, the loop ends normally with the
    entries decoded, in the order of the files. *)
Lemma load_files_decoded (cfg : Config) (fs : list File) (es : list Entry) :
  Forall2 (decodes_to cfg) fs es →
  ∀ acc, foldM (load_file cfg) acc fs = Ok (acc ++ es).
Proof.
  induction 1 as [|f e fs es (v & Hv & He) _ IH]; intros acc; simpl.
  - by rewrite app_nil_r.
  - rewrite (load_file_plist cfg acc f v Hv), He. simpl.
    by rewrite IH, <- app_assoc.
Qed.

(** The first file that is not decoded ends the loop, with its
    exception. *)
Lemma load_files_fail (cfg : Config) (pre rest : list File) (f : File)
    (es : list Entry) (x : Error) :
  Forall2 (decodes_to cfg) pre es →
  content f = Raises x ∨ (∃ v, content f = Plist v ∧ decode cfg v = Err x) →
  ∀ acc, foldM (load_file cfg) acc (pre ++ f :: rest) = Err x.
Proof.
  intros Hpre Hf acc. rewrite foldM_app, (load_files_decoded cfg pre es Hpre).
  simpl. unfold load_file.
  destruct Hf as [->|(v & -> & ->)]; done.
Qed.

(** A well-formed record is decoded. *)
Lemma well_formed_decodes (cfg : Config) (f : File) (v : PValue) :
  content f = Plist v → well_formed_record cfg v = true →
  ∃ e, decodes_to cfg f e.
Proof.
  intros Hv Hwf. destruct v as [| | | | |kv]; try done.
  destruct (decode_well_formed cfg kv Hwf)
    as (d & text & star & u & tl & _ & _ & _ & _ & _ & Hdec).
  eexists. exists (PDict kv). split; [done|exact Hdec].
Qed.

End Load_files.

(** ** Properties of loading *)

(** The record files that [open] decodes: the [*.doentry] files that
    [plistlib.load] does not reject with one of [PLIST_EXCEPTIONS]. *)
Definition loadable_records (dir : Directory) : list File :=
  filter is_doentry (filter (fun f => is_malformed f = false) (walk dir)).

(** C4, as the code has it.  A record file that [plistlib.load] rejects
    with one of [PLIST_EXCEPTIONS] is skipped: [open] does on a directory
    what it does on the same directory without such files.  When each of
    the other record files is loaded and decoded, [open] ends normally and
    the entries are the entries decoded, sorted; so one corrupt file among
    nine well-formed ones gives the nine entries.  But the first record
    file that is not decoded, because [plistlib.load] raises another
    exception on it or because [decode] raises, ends [open] with that
    exception. *)
Theorem open_skips_malformed `{Collab} `{Host} (J : Store) (dir : Directory) :
  open J dir =
    open J (mkDirectory (has_entries_dir dir)
              (filter (fun f => is_malformed f = false) (walk dir)))
  ∧
  (∀ es, has_entries_dir dir = true →
     Forall2 (decodes_to (config J)) (loadable_records dir) es →
     open J dir = Ok (mkStore (config J) (sort_entries es) (deleted_entries J)))
  ∧
  (∀ pre f rest es x, has_entries_dir dir = true →
     loadable_records dir = pre ++ f :: rest →
     Forall2 (decodes_to (config J)) pre es →
     content f = Raises x ∨
       (∃ v, content f = Plist v ∧ decode (config J) v = Err x) →
     x ≠ Untyped →
     open J dir = Err x).
Proof.
  split; [|split].
  - unfold open. simpl. destruct (has_entries_dir dir); [|done]. simpl.
    by rewrite (load_files_skip (config J) (walk dir)).
  - intros es Hdir Hall. unfold open. rewrite Hdir. simpl.
    rewrite (load_files_skip (config J) (walk dir)).
    by rewrite (load_files_decoded (config J) _ es Hall).
  - intros pre f rest es x Hdir Hsplit Hpre Hf _. unfold open. rewrite Hdir.
    simpl. rewrite (load_files_skip (config J) (walk dir)).
    fold (loadable_records dir). rewrite Hsplit.
    by rewrite (load_files_fail (config J) pre rest f es x Hpre Hf).
Qed.

(** C5, as the code has it.  For a well-formed record, [decode] works with
    the zone that the record names, and with the zone of the host when the
    record names none or one that is not known; the creation date of the
    entry is that of the record plus [utcoffset(date, is_dst=False)] of this
    zone, the offset that the zone has at that date, when the name of the
    zone is not [UTC], and that of the record itself when it is. *)
Theorem decode_converts_to_utc `{Collab} `{Host} (cfg : Config)
    (kv : list (string * PValue)) (d : Z) :
  well_formed_record cfg (PDict kv) = true →
  assoc "Creation Date" kv = Some (PDate d) →
  ∃ e tz, decode cfg (PDict kv) = Ok e ∧ resolve_timezone kv = Ok tz ∧
    (assoc "Time Zone" kv = None → tz = get_localzone) ∧
    (∀ name, assoc "Time Zone" kv = Some (PString name) →
       pytz_timezone name = None → tz = get_localzone) ∧
    (∀ name tz', assoc "Time Zone" kv = Some (PString name) →
       pytz_timezone name = Some tz' → tz = tz') ∧
    (zone tz ≠ "UTC" → date e = Some (d + utcoffset tz d false)%Z) ∧
    (zone tz = "UTC" → date e = Some d).
Proof.
  intros Hwf Hd.
  destruct (decode_well_formed cfg kv Hwf)
    as (d' & text & star & u & tl & Hd' & _ & _ & _ & Hres & Hdec).
  rewrite Hd in Hd'. injection Hd' as <-.
  eexists _, (resolved_zone kv). split; [exact Hdec|]. split; [done|].
  unfold resolved_zone. repeat split.
  - by intros ->.
  - by intros name -> ->.
  - by intros name tz' -> ->.
  - intros Hz. simpl. unfold to_utc, resolved_zone.
    by rewrite bool_decide_eq_true_2.
  - intros Hz. simpl. unfold to_utc, resolved_zone.
    rewrite bool_decide_eq_false_2; [done|]. by intros Hne.
Qed.

(** C6, as the code has it.  For a well-formed record, [decode] ends
    normally whatever the record holds under [Creator], [Location] and
    [Weather].  The device agent, the host name, the OS agent, the software
    agent, the location and the weather of the entry are the values found
    in the record, and are absent when the record has none (or when
    [Creator] is not a dictionary); the generation date is the value found
    in the record and, when there is none, the creation date of the entry. *)
Theorem decode_extended_attributes `{Collab} `{Host} (cfg : Config)
    (kv : list (string * PValue)) :
  well_formed_record cfg (PDict kv) = true →
  ∃ e d, decode cfg (PDict kv) = Ok e ∧ date e = Some d ∧
    creator_device_agent e = (assoc "Creator" kv ≫= fun c => subscript c "Device Agent") ∧
    creator_host_name e = (assoc "Creator" kv ≫= fun c => subscript c "Host Name") ∧
    creator_os_agent e = (assoc "Creator" kv ≫= fun c => subscript c "OS Agent") ∧
    creator_software_agent e =
      (assoc "Creator" kv ≫= fun c => subscript c "Software Agent") ∧
    location e = assoc "Location" kv ∧
    weather e = assoc "Weather" kv ∧
    creator_generation_date e =
      Some (match assoc "Creator" kv ≫= fun c => subscript c "Generation Date" with
            | Some v => v
            | None => PDate d
            end).
Proof.
  intros Hwf.
  destruct (decode_well_formed cfg kv Hwf)
    as (d & text & star & u & tl & _ & _ & _ & _ & _ & Hdec).
  eexists _, _. split; [exact Hdec|]. by repeat split.
Qed.

(** ** A sample directory *)

Module SampleDir.
Import Reference.

(** The fields of a record that names the zone of Berlin and has no
    [Creator]. *)
Definition fields (u : string) (d : Z) : list (string * PValue) :=
  [ ("Creation Date", PDate d);
    ("Entry Text", PString ("Title" +:+ nl +:+ "Body"));
    ("Starred", PBool false);
    ("UUID", PString u);
    ("Time Zone", PString "Europe/Berlin");
    ("Tags", PArray [PString "Work"]) ].

Definition record_file (u : string) : File :=
  mkFile "/j/entries" (u +:+ ".doentry") (Plist (PDict (fields u 1000))).

(** One file that cannot be loaded and nine well-formed records. *)
Definition dir : Directory :=
  mkDirectory true
    (mkFile "/j/entries" "BAD.doentry" Malformed ::
     (record_file <$> ["A1"; "A2"; "A3"; "A4"; "A5"; "A6"; "A7"; "A8"; "A9"])).

Definition empty_store : Store := mkStore Sample.cfg [] [].

(** Noon on the 15th of January and on the first of July 2020. *)
Definition winter : Z := 1579089600.
Definition summer : Z := 1593604800.

(** A record without an identity, and a file in which an integer cannot
    be read. *)
Definition no_uuid : File :=
  mkFile "/j/entries" "A0.doentry"
    (Plist (PDict [ ("Creation Date", PDate 1000);
                    ("Entry Text", PString "Title");
                    ("Starred", PBool false) ])).
Definition bad_integer : File :=
  mkFile "/j/entries" "A0.doentry" (Raises ValueError).

End SampleDir.

(** The entries of the nine records of the sample directory. *)
Definition sample_entries : list Entry :=
  Eval vm_compute in
    omap (fun u =>
            match decode (H := Reference.collab "@") (H0 := Reference.host)
                    Sample.cfg (PDict (SampleDir.fields u 1000)) with
            | Ok e => Some e
            | Err _ => None
            end)
      ["A1"; "A2"; "A3"; "A4"; "A5"; "A6"; "A7"; "A8"; "A9"].

Lemma sample_dir_decodes :
  Forall2 (decodes_to (H := Reference.collab "@") (H0 := Reference.host)
             Sample.cfg)
    (loadable_records SampleDir.dir) sample_entries.
Proof.
  assert (loadable_records SampleDir.dir =
          SampleDir.record_file <$>
            ["A1"; "A2"; "A3"; "A4"; "A5"; "A6"; "A7"; "A8"; "A9"]) as ->
    by (vm_compute; reflexivity).
  repeat constructor; (eexists; split; [reflexivity|vm_compute; reflexivity]).
Qed.

Lemma open_skips_malformed_witness :
  open (H := Reference.collab "@") (H0 := Reference.host)
    SampleDir.empty_store SampleDir.dir =
    Ok (mkStore Sample.cfg (sort_entries sample_entries) []) ∧
  length sample_entries = 9.
Proof.
  destruct (open_skips_malformed (H := Reference.collab "@")
    (H0 := Reference.host) SampleDir.empty_store SampleDir.dir)
    as (_ & Hload & _).
  split; [|reflexivity].
  apply Hload; [reflexivity|exact sample_dir_decodes].
Defined.

(** C4, as it is stated, fails: one record file that is a property list
    and lacks the identity, or one in which [plistlib.load] cannot read an
    integer, ends [open] with an exception, and the nine well-formed records
    beside it are not loaded. *)
Lemma bad_record_fails_open :
  open (H := Reference.collab "@") (H0 := Reference.host)
    SampleDir.empty_store
    (mkDirectory true (walk SampleDir.dir ++ [SampleDir.no_uuid])) =
    Err KeyError ∧
  open (H := Reference.collab "@") (H0 := Reference.host)
    SampleDir.empty_store
    (mkDirectory true (SampleDir.bad_integer :: walk SampleDir.dir)) =
    Err ValueError.
Proof. split; vm_compute; reflexivity. Qed.

Lemma decode_converts_to_utc_witness :
  ∃ e tz,
    decode (H := Reference.collab "@") (H0 := Reference.host) Sample.cfg
      (PDict (SampleDir.fields "A1" SampleDir.summer)) = Ok e ∧
    tz = Reference.berlin ∧ date e = Some (SampleDir.summer + 7200)%Z.
Proof.
  destruct (decode_converts_to_utc (H := Reference.collab "@")
    (H0 := Reference.host) Sample.cfg
    (SampleDir.fields "A1" SampleDir.summer) SampleDir.summer)
    as (e & tz & Hdec & _ & _ & _ & Hknown & Hadd & _).
  - reflexivity.
  - reflexivity.
  - exists e, tz. split; [exact Hdec|].
    assert (tz = Reference.berlin) as -> by (by eapply Hknown).
    split; [done|]. by apply Hadd.
Defined.

(** C5, as it is stated, fails: the offset added is not the offset of the
    zone without daylight saving.  Two records that name the zone of Berlin
    get one hour in January and two hours in July. *)
Lemma offset_follows_summer_time :
  ∃ e1 e2,
    decode (H := Reference.collab "@") (H0 := Reference.host) Sample.cfg
      (PDict (SampleDir.fields "A1" SampleDir.winter)) = Ok e1 ∧
    decode (H := Reference.collab "@") (H0 := Reference.host) Sample.cfg
      (PDict (SampleDir.fields "A1" SampleDir.summer)) = Ok e2 ∧
    date e1 = Some (SampleDir.winter + 3600)%Z ∧
    date e2 = Some (SampleDir.summer + 7200)%Z ∧
    (SampleDir.summer + 7200 - SampleDir.summer ≠
     SampleDir.winter + 3600 - SampleDir.winter)%Z.
Proof. eexists _, _. repeat split; vm_compute; congruence. Qed.

Lemma decode_extended_attributes_witness :
  ∃ e d,
    decode (H := Reference.collab "@") (H0 := Reference.host) Sample.cfg
      (PDict (SampleDir.fields "A1" 1000)) = Ok e ∧
    date e = Some d ∧
    creator_host_name e = None ∧ location e = None ∧
    creator_generation_date e = Some (PDate d).
Proof.
  destruct (decode_extended_attributes (H := Reference.collab "@")
    (H0 := Reference.host) Sample.cfg (SampleDir.fields "A1" 1000))
    as (e & d & Hdec & Hd & _ & Hhost & _ & _ & Hloc & _ & Hgen).
  - reflexivity.
  - exists e, d. by repeat split.
Defined.

(** C6, as it is stated, fails on a well-formed record without [Creator]:
    there is no generation date to be found, and yet the entry has one. *)
Lemma generation_date_not_left_absent :
  ∃ e,
    decode (H := Reference.collab "@") (H0 := Reference.host) Sample.cfg
      (PDict (SampleDir.fields "A1" 1000)) = Ok e ∧
    well_formed_record Sample.cfg (PDict (SampleDir.fields "A1" 1000)) = true ∧
    creator_field (SampleDir.fields "A1" 1000) "Generation Date" = None ∧
    creator_generation_date e = Some (PDate 4600) ∧
    creator_generation_date e ≠ None.
Proof. eexists. by repeat split. Qed.

(** ** Saving: what reaches the disk *)

Definition op_path (op : FsOp) : Path :=
  match op with
  | WriteFile p _ => p
  | RemoveFile p => p
  end.

(** The effect of one operation on the files. *)
Definition apply_op (m : gmap Path PValue) (op : FsOp) : gmap Path PValue :=
  match op with
  | WriteFile p v => <[p := v]> m
  | RemoveFile p => delete p m
  end.

Lemma apply_ops_frame (ops : list FsOp) (p : Path) :
  ∀ m : gmap Path PValue,
  Forall (fun op => op_path op ≠ p) ops → foldl apply_op m ops !! p = m !! p.
Proof.
  induction ops as [|op ops IH]; intros m Hall; [done|].
  apply Forall_cons in Hall as [Hop Hall]. simpl. rewrite IH by done.
  destruct op as [q v|q]; simpl in *.
  - by rewrite lookup_insert_ne.
  - by rewrite lookup_delete_ne.
Qed.

Section Save_facts.
Context `{Host}.

Lemma modified_with_defaults (u : string) (t : Z) (e : Entry) :
  modified (with_defaults u t e) = modified e ∧
  uuid (with_defaults u t e) = Some u.
Proof. done. Qed.

(** What the body of the first loop does with an entry: nothing when the
    entry is not modified; an exception when it has no date; otherwise the
    defaults are set, and the file is opened and the record dumped into
    it, unless opening raises. *)
Lemma write_entry_inv (cfg : Config) (dk dk' : Disk) (e e' : Entry)
    (x : option Error) :
  write_entry cfg dk e = (e', dk', x) →
  (modified e = false ∧ e' = e ∧ dk' = dk ∧ x = None) ∨
  (modified e = true ∧ date e = None ∧ e' = e ∧ dk' = dk ∧
   x = Some AttributeError) ∨
  (modified e = true ∧ ∃ d u, date e = Some d ∧
     (∀ v, uuid e = Some v → v = u) ∧
     e' = with_defaults u (utc_of_local d) e ∧
     uuid_calls dk' =
       match uuid e with Some _ => uuid_calls dk | None => S (uuid_calls dk) end ∧
     ((∃ err, open_wb (entry_file cfg u) = Some err ∧ x = Some err ∧
         files dk' = files dk ∧ oplog dk' = oplog dk) ∨
      (open_wb (entry_file cfg u) = None ∧
       x = Plistlib.dump_error (entry_plist cfg (utc_of_local d) u e') ∧
       files dk' =
         <[entry_file cfg u := entry_plist cfg (utc_of_local d) u e']> (files dk) ∧
       oplog dk' =
         oplog dk ++ [WriteFile (entry_file cfg u)
                        (entry_plist cfg (utc_of_local d) u e')]))).
Proof.
  unfold write_entry. destruct (modified e) eqn:Hm.
  - destruct (date e) as [d|] eqn:Hd.
    + intros Hres. right. right. split; [done|].
      destruct (uuid e) as [u|] eqn:Hu.
      * exists d, u. split; [done|]. split; [by intros v [= ->]|].
        destruct (open_wb (entry_file cfg u)) as [err|] eqn:Ho;
          injection Hres as <- <- <-; (split; [done|]); (split; [done|]).
        -- left. by exists err.
        -- right. done.
      * exists d, (uuid1_hex (uuid_calls dk)). split; [done|]. split; [done|].
        destruct (open_wb (entry_file cfg (uuid1_hex (uuid_calls dk))))
          as [err|] eqn:Ho;
          injection Hres as <- <- <-; (split; [done|]); (split; [done|]).
        -- left. by exists err.
        -- right. done.
    + intros [= <- <- <-]. right. left. done.
  - intros [= <- <- <-]. by left.
Qed.

(** What the record of an entry holds under each key. *)
Definition holds_entry (cfg : Config) (e : Entry) (v : PValue) : Prop :=
  ∃ kv d, v = PDict kv ∧ date e = Some d ∧
    assoc "Creation Date" kv = Some (PDate (utc_of_local d)) ∧
    assoc "Starred" kv = Some (PBool (starred e)) ∧
    assoc "Entry Text" kv = Some (PString (title e +:+ nl +:+ body e)) ∧
    assoc "Time Zone" kv = Some (PString (zone get_localzone)) ∧
    assoc "UUID" kv = Some (PString (Py.upper (raw_id e))) ∧
    assoc "Tags" kv =
      Some (PArray ((fun t => PString (Py.replace_char "_" " "
                                         (Py.strip_chars (tagsymbols cfg) t)))
                      <$> elements (tags e))) ∧
    (assoc "Creator" kv ≫= fun c => subscript c "Device Agent") =
      creator_device_agent e ∧
    (assoc "Creator" kv ≫= fun c => subscript c "Generation Date") =
      creator_generation_date e ∧
    (assoc "Creator" kv ≫= fun c => subscript c "Host Name") =
      creator_host_name e ∧
    (assoc "Creator" kv ≫= fun c => subscript c "OS Agent") =
      creator_os_agent e ∧
    (assoc "Creator" kv ≫= fun c => subscript c "Software Agent") =
      creator_software_agent e ∧
    assoc "Location" kv = location e ∧
    assoc "Weather" kv = weather e.

Lemma entry_plist_holds (cfg : Config) (d : Z) (e : Entry) :
  date e = Some d →
  holds_entry cfg e (entry_plist cfg (utc_of_local d) (raw_id e) e).
Proof.
  intros Hd. eexists _, d. split; [reflexivity|]. split; [done|].
  do 6 (split; [reflexivity|]).
  destruct e as [u dt t b st tg a1 a2 a3 a4 a5 loc w m]. simpl.
  repeat split;
    try (by destruct a1, a2, a3, a4, a5);
    by destruct loc, w.
Qed.

(** One written file for each modified entry that the loop has reached, in
    order; the entries keep their [modified] flag, and an entry that is not
    modified is left as it is. *)
Lemma write_entries_spec (cfg : Config) (es : list Entry) :
  ∀ (dk : Disk) (es' : list Entry) (dk' : Disk) (x : option Error),
  write_entries cfg es dk = (es', dk', x) →
  Forall2 (fun e e' => modified e' = modified e ∧ (modified e = false → e' = e))
    es es' ∧
  ∃ ops written,
    oplog dk' = oplog dk ++ ops ∧
    files dk' = foldl apply_op (files dk) ops ∧
    written `prefix_of` filter (fun e' => modified e' = true) es' ∧
    (x = None → written = filter (fun e' => modified e' = true) es') ∧
    Forall2 (fun e' op => ∃ v, op = WriteFile (entry_file cfg (raw_id e')) v ∧
                               holds_entry cfg e' v) written ops.
Proof.
  induction es as [|e es IH]; intros dk es' dk' x; simpl.
  - intros [= <- <- <-]. split; [constructor|]. exists [], [].
    rewrite app_nil_r. repeat split; [done|constructor].
  - destruct (write_entry cfg dk e) as [[e1 dk1] x1] eqn:He.
    assert (Forall2 (fun e e' => modified e' = modified e ∧
              (modified e = false → e' = e)) es es) as Hsame.
    { clear. induction es; constructor; auto. }
    destruct (write_entry_inv _ _ _ _ _ _ He)
      as [(Hm & -> & -> & ->)|[(Hm & Hd & -> & -> & ->)|
          (Hm & d & u & Hd & Hu & He1 & _ & Hwr)]].
    + (* not modified *)
      destruct (write_entries cfg es dk) as [[r dk2] x2] eqn:Hes.
      intros [= <- <- <-].
      destruct (IH _ _ _ _ Hes) as (Hall & ops & written & Hlog & Hf & Hpre & Hex & Hops).
      split; [by constructor|]. exists ops, written.
      rewrite filter_cons_False by congruence. done.
    + (* no date *)
      intros [= <- <- <-]. split; [by constructor|]. exists [], [].
      rewrite app_nil_r. split; [done|]. split; [done|]. split; [apply prefix_nil|].
        split; [done|constructor].
    + (* written, or not opened *)
      assert (modified e1 = true ∧ raw_id e1 = u ∧ date e1 = Some d)
        as (Hm1 & Hraw & Hd1) by (by rewrite He1).
      assert (holds_entry cfg e1 (entry_plist cfg (utc_of_local d) u e1)) as Hrec.
      { rewrite <- Hraw. by apply entry_plist_holds. }
      destruct Hwr as [(err & _ & -> & Hf1 & Hl1)|(_ & -> & Hf1 & Hl1)].
      * intros [= <- <- <-]. split; [constructor; [split; congruence|done]|].
        exists [], []. rewrite app_nil_r.
        split; [done|]. split; [done|]. split; [apply prefix_nil|].
        split; [done|constructor].
      * destruct (Plistlib.dump_error _) as [err|] eqn:Hdump.
        -- intros [= <- <- <-]. split; [constructor; [split; congruence|done]|].
           eexists [_], [e1]. split; [exact Hl1|]. split; [by rewrite Hf1|].
           split; [|split; [done|]].
           ++ rewrite filter_cons_True by done. by apply prefix_cons, prefix_nil.
           ++ constructor; [|constructor]. eexists. split; [|exact Hrec].
              by rewrite Hraw.
        -- destruct (write_entries cfg es dk1) as [[r dk2] x2] eqn:Hes.
           intros [= <- <- <-].
           destruct (IH _ _ _ _ Hes)
             as (Hall & ops & written & Hlog & Hf & Hpre & Hex & Hops).
           split; [constructor; [split; congruence|done]|].
           eexists (_ :: ops), (e1 :: written).
           split; [by rewrite Hlog, Hl1, <- app_assoc|].
           split; [by rewrite Hf, Hf1|].
           rewrite filter_cons_True by done.
           split; [by apply prefix_cons|]. split; [by intros ->%Hex|].
           constructor; [|done]. eexists. split; [|exact Hrec].
           by rewrite Hraw.
Qed.

Definition written_path (op : FsOp) : option Path := fst <$> file_written op.

(** Every write of the first loop is the write of the file of a modified
    entry. *)
Lemma write_entries_ops (cfg : Config) (es es' : list Entry) (dk dk' : Disk)
    (x : option Error) :
  write_entries cfg es dk = (es', dk', x) →
  ∃ ops,
    oplog dk' = oplog dk ++ ops ∧
    files dk' = foldl apply_op (files dk) ops ∧
    Forall (fun op => ∃ e v, op = WriteFile (entry_file cfg (raw_id e)) v ∧
                             e ∈ es' ∧ modified e = true) ops.
Proof.
  intros Hw.
  destruct (write_entries_spec _ _ _ _ _ _ Hw)
    as (_ & ops & written & Hlog & Hf & [k Hpre] & _ & Hops).
  exists ops. split; [done|]. split; [done|].
  assert (Forall (fun e => e ∈ es' ∧ modified e = true) written) as Hin.
  { apply Forall_forall. intros e He.
    assert (e ∈ filter (fun e' => modified e' = true) es') as Hf'
      by (rewrite Hpre; apply elem_of_app; by left).
    by apply list_elem_of_filter in Hf' as [? ?]. }
  clear -Hops Hin. induction Hops as [|e op written ops (v & -> & _) _ IH];
    [constructor|].
  apply Forall_cons in Hin as [[He Hm] Hin].
  constructor; [by exists e, v|by apply IH].
Qed.

Lemma os_remove_spec (fn : Path) (dk dk' : Disk) :
  os_remove fn dk = Ok dk' →
  oplog dk' = oplog dk ++ [RemoveFile fn] ∧ files dk' = delete fn (files dk).
Proof. unfold os_remove. destruct (files dk !! fn); [|done]. by intros [= <-]. Qed.

Lemma remove_entries_spec (cfg : Config) (ds : list Entry) :
  ∀ (dk dk' : Disk) (x : option Error),
  remove_entries cfg ds dk = (dk', x) →
  ∃ ops,
    oplog dk' = oplog dk ++ ops ∧
    files dk' = foldl apply_op (files dk) ops ∧
    Forall (fun op => ∃ d, op = RemoveFile (deleted_file cfg (raw_id d)) ∧
                           d ∈ ds) ops.
Proof.
  induction ds as [|d ds IH]; intros dk dk' x; simpl.
  - intros [= <- <-]. exists []. rewrite app_nil_r. by repeat split.
  - destruct (uuid_of d ≫= _) as [dk1|err] eqn:Hd.
    + intros Hrest.
      apply bind_Ok in Hd as (u & Hu & Hrm).
      apply os_remove_spec in Hrm as [Hlog1 Hfiles1].
      destruct (IH _ _ _ Hrest) as (ops & Hlog & Hfiles & Hops).
      assert (raw_id d = u) as Hraw.
      { unfold uuid_of, raw_id in *. by destruct (uuid d); simplify_eq/=. }
      exists (RemoveFile (deleted_file cfg u) :: ops).
      split; [by rewrite Hlog, Hlog1, <- app_assoc|].
      split; [by rewrite Hfiles, Hfiles1|].
      constructor.
      * exists d. rewrite Hraw. split; [done|by left].
      * eapply Forall_impl; [exact Hops|].
        intros op (d0 & -> & Hin). exists d0. split; [done|by right].
    + intros [= <- <-]. exists []. rewrite app_nil_r.
      split; [done|]. split; [done|]. constructor.
Qed.

End Save_facts.

(** ** Properties of saving *)

(** C8.  [write] dumps a record for the entries whose [modified] flag is
    set and for no other.  The entries keep their flags, and an entry that
    is not modified is left as it is.  The files written by the call are,
    in order, the files of the modified entries that the first loop has
    reached, all of them when the call ends normally; each is the file
    named after the identity of its entry, in upper case, and is given the
    record of this entry.  A file that is neither the file of a modified
    entry nor the file removed for a deleted entry is on the disk after the
    call as it was before, whether the call ends normally or not. *)
Theorem write_only_modified `{Host} (J J' : Store) (dk dk' : Disk)
    (x : option Error) :
  write J dk = (J', dk', x) →
  Forall2 (fun e e' => modified e' = modified e ∧ (modified e = false → e' = e))
    (entries J) (entries J') ∧
  ∃ ops written,
    oplog dk' = oplog dk ++ ops ∧
    files dk' = foldl apply_op (files dk) ops ∧
    written `prefix_of` filter (fun e' => modified e' = true) (entries J') ∧
    (x = None → written = filter (fun e' => modified e' = true) (entries J')) ∧
    Forall2 (fun e' w => w.1 = [journal (config J); "entries";
                                Py.upper (raw_id e') +:+ ".doentry"] ∧
                         holds_entry (config J) e' w.2)
      written (omap file_written ops) ∧
    (∀ p,
       (∀ e, e ∈ entries J' → modified e = true →
          entry_file (config J) (raw_id e) ≠ p) →
       (∀ d, d ∈ deleted_entries J →
          deleted_file (config J) (raw_id d) ≠ p) →
       files dk' !! p = files dk !! p).
Proof.
  unfold write.
  destruct (write_entries (config J) (entries J) dk) as [[es dk1] x1] eqn:Hw.
  destruct (write_entries_spec _ _ _ _ _ _ Hw)
    as (Hall & ops1 & written & Hlog1 & Hfiles1 & Hpre & Hexact & Hops1).
  assert (Forall2 (fun e' w => w.1 = [journal (config J); "entries";
                                      Py.upper (raw_id e') +:+ ".doentry"] ∧
                               holds_entry (config J) e' w.2)
            written (omap file_written ops1)) as Hrecs.
  { clear -Hops1.
    induction Hops1 as [|e op written ops (v & -> & Hv) _ IH]; [constructor|].
    simpl. by constructor. }
  destruct (write_entries_ops _ _ _ _ _ _ Hw) as (ops1' & Hlog1' & _ & Hwrites).
  assert (ops1' = ops1) as -> by (rewrite Hlog1 in Hlog1'; by simplify_list_eq).
  assert (∀ p,
    (∀ e, e ∈ es → modified e = true → entry_file (config J) (raw_id e) ≠ p) →
    Forall (fun op => op_path op ≠ p) ops1) as Hframe1.
  { intros p Hp. eapply Forall_impl; [exact Hwrites|].
    intros op (e & v & -> & He & Hm). simpl. by apply Hp. }
  destruct x1 as [err|].
  - intros [= <- <- <-]. split; [done|]. exists ops1, written. simpl.
    split; [done|]. split; [done|]. split; [done|]. split; [done|].
    split; [done|]. intros p Hp _. rewrite Hfiles1.
    by apply apply_ops_frame, Hframe1.
  - destruct (remove_entries (config J) (deleted_entries J) dk1)
      as [dk2 x2] eqn:Hr.
    intros [= <- <- <-]. split; [done|].
    destruct (remove_entries_spec _ _ _ _ _ Hr) as (ops2 & Hlog2 & Hfiles2 & Hops2).
    assert (omap file_written ops2 = []) as Hnone.
    { clear -Hops2. induction Hops2 as [|op ops (d & -> & _) _ IH]; [done|].
      simpl. exact IH. }
    exists (ops1 ++ ops2), written. simpl.
    split; [by rewrite Hlog2, Hlog1, <- app_assoc|].
    split; [by rewrite Hfiles2, Hfiles1, foldl_app|].
    split; [done|]. split; [by intros _; apply Hexact|].
    split; [by rewrite omap_app, Hnone, app_nil_r|].
    intros p Hp Hd. rewrite Hfiles2, Hfiles1, <- foldl_app.
    apply apply_ops_frame, Forall_app. split; [by apply Hframe1|].
    eapply Forall_impl; [exact Hops2|].
    intros op (d & -> & Hin). simpl. by apply Hd.
Qed.

(** ** A sample disk *)

Module SampleDisk.
Import Reference.

(** A new entry, which has no identity yet, and an entry that was loaded
    and not touched. *)
Definition fresh : Entry :=
  mkEntry None (Some 5000%Z) "New" ("text" +:+ nl) false {["@a_b"]}
    None None None None None None None true.
Definition loaded : Entry := Sample.entry "ab" 100 "Old" ("text" +:+ nl).

Definition store : Store := mkStore Sample.cfg [fresh; loaded] [].

Definition loaded_file : Path := ["/j"; "entries"; "AB.doentry"].

Definition disk : Disk := mkDisk {[ loaded_file := PString "as loaded" ]} [] 0.

End SampleDisk.

(** The sample store and the sample disk after [write]. *)
Definition written : Store * Disk * option Error :=
  Eval vm_compute in write (H := Reference.host) SampleDisk.store SampleDisk.disk.

Lemma written_eq :
  write (H := Reference.host) SampleDisk.store SampleDisk.disk =
    (written.1.1, written.1.2, written.2).
Proof. vm_compute. reflexivity. Qed.

Lemma written_files_differ (e : Entry) :
  e ∈ entries written.1.1 → modified e = true →
  entry_file (config SampleDisk.store) (raw_id e) ≠ SampleDisk.loaded_file.
Proof.
  intros He Hm. vm_compute in He.
  apply elem_of_cons in He as [->|He]; [vm_compute; discriminate|].
  apply list_elem_of_singleton in He as ->. vm_compute in Hm. discriminate.
Qed.

Lemma written_paths :
  written.2 = None ∧
  omap written_path (oplog written.1.2) = [["/j"; "entries"; "F0.doentry"]].
Proof. split; vm_compute; reflexivity. Qed.

Lemma write_only_modified_witness :
  files written.1.2 !! SampleDisk.loaded_file =
    files SampleDisk.disk !! SampleDisk.loaded_file.
Proof.
  destruct (write_only_modified (H := Reference.host) _ _ _ _ _ written_eq)
    as (_ & ops & ws & _ & _ & _ & _ & _ & Hframe).
  apply Hframe.
  - exact written_files_differ.
  - intros d Hd. by apply elem_of_nil in Hd.
Defined.

(** C7.  The claim is that the file removed for a deleted entry has the
    name that [write] gives to the file of an entry, with the identity in
    upper case.  The second loop of [write] takes the identity as it is
    stored.  Here an entry is added through the edited text (its identity
    is in lower case, as for every candidate) and saved, to the file
    [AB.doentry]; then it is taken out of the text, and the next call of
    [write] asks to remove [ab.doentry], which does not exist: the call
    ends with an exception and the file [AB.doentry] stays. *)
Theorem deleted_file_not_upper_cased :
  ∃ J1 c1 J2 dk1 J3 c3 J4 dk2,
    parse_editable_str (H := Reference.collab "@") SampleDir.empty_store
      ("# ab" +:+ nl +:+ "[100] New") = Ok (J1, c1) ∧
    write (H := Reference.host) J1 (mkDisk ∅ [] 0) = (J2, dk1, None) ∧
    oplog dk1 = [WriteFile ["/j"; "entries"; "AB.doentry"]
                   (default (PInt 0) (files dk1 !! ["/j"; "entries"; "AB.doentry"]))] ∧
    parse_editable_str (H := Reference.collab "@") J2 "" = Ok (J3, c3) ∧
    uuid <$> deleted_entries J3 = [Some "ab"] ∧
    write (H := Reference.host) J3 dk1 = (J4, dk2, Some FileNotFoundError) ∧
    deleted_file Sample.cfg "ab" = ["/j"; "entries"; "ab.doentry"] ∧
    files dk2 !! ["/j"; "entries"; "ab.doentry"] = None ∧
    is_Some (files dk2 !! ["/j"; "entries"; "AB.doentry"]) ∧
    omap file_removed (oplog dk2) = [].
Proof.
  eexists _, _, _, _, _, _, _, _.
  split; [vm_compute; reflexivity|].
  split; [vm_compute; reflexivity|].
  split; [vm_compute; reflexivity|].
  split; [vm_compute; reflexivity|].
  split; [vm_compute; reflexivity|].
  split; [vm_compute; reflexivity|].
  split; [vm_compute; reflexivity|].
  split; [vm_compute; reflexivity|].
  split; [vm_compute; by eexists|].
  vm_compute; reflexivity.
Qed.

Lemma map_chars_length (f : ascii → ascii) (s : string) :
  String.length (Py.map_chars f s) = String.length s.
Proof. induction s as [|c s IH]; simpl; congruence. Qed.

Lemma append_inj_same_length (u w s : string) :
  String.length u = String.length w → u +:+ s = w +:+ s → u = w.
Proof.
  revert w. induction u as [|c u IH]; intros [|d w]; simpl; try done.
  intros [= Hlen] [= -> Heq]. f_equal. by apply IH.
Qed.

(** The two loops of [write] name the file of an identity differently as
    soon as the identity has a lower-case letter. *)
Lemma deleted_file_differs `{Host} (cfg : Config) (u : string) :
  Py.upper u ≠ u → deleted_file cfg u ≠ entry_file cfg u.
Proof.
  intros Hne. unfold deleted_file, entry_file, doentry_path.
  intros [= Heq]. apply Hne. symmetry.
  eapply append_inj_same_length; [|exact Heq].
  unfold Py.upper. by rewrite map_chars_length.
Qed.

(** The round trip of a journal as [open] loads it, with the reference
    collaborators: the nine records of the sample directory carry their
    identities in upper case, as [write] stores them, and all nine entries
    come back marked as modified. *)
Example roundtrip_after_open :
  (J ← open (H := Reference.collab "@") (H0 := Reference.host)
         SampleDir.empty_store SampleDir.dir;
   doc ← editable_str (H := Reference.collab "@") J;
   '(J', _) ← parse_editable_str (H := Reference.collab "@") J doc;
   Ok (length (entries J),
       length (filter (fun e => modified e = true) (entries J')),
       length (deleted_entries J'))) = Ok (9, 9, 0).
Proof. vm_compute. reflexivity. Qed.

(** * Further properties of the code *)

(** ** What the scan produces *)

Fixpoint all_chars (p : ascii → bool) (s : string) : bool :=
  match s with
  | EmptyString => true
  | String c s' => p c && all_chars p s'
  end.

(** A candidate as the scan leaves it: an identity that is a non-empty
    string of digits and of the letters [a] to [f], no tags, none of the
    extended attributes, and the [modified] flag not set. *)
Record scanned (c : Entry) : Prop := mk_scanned {
  scanned_uuid : ∃ u, uuid c = Some u ∧ u ≠ "" ∧ all_chars is_hex u = true;
  scanned_tags : tags c = ∅;
  scanned_extended : ∀ f, f ∈ extended_fields → f c = None;
  scanned_modified : modified c = false
}.

Lemma take_while_all (p : ascii → bool) (s : string) :
  all_chars p (Py.take_while p s) = true.
Proof.
  induction s as [|c s IH]; [done|].
  simpl. destruct (p c) eqn:Hp; [|done]. simpl. by rewrite Hp.
Qed.

Lemma is_hex_not_upper (c : ascii) : is_hex c = true → Py.is_upper c = false.
Proof. destruct c as [[] [] [] [] [] [] [] []]; by vm_compute. Qed.

Lemma all_hex_lower (s : string) : all_chars is_hex s = true → Py.lower s = s.
Proof.
  intros Hs. apply lower_fixed. unfold Py.has_upper.
  induction s as [|c s IH]; [done|].
  simpl in *. apply andb_true_iff in Hs as [Hc Hs].
  by rewrite (is_hex_not_upper c Hc), IH.
Qed.

(** What the header pattern captures. *)
Lemma match_header_hex (s g : string) :
  match_header s = Some g → g ≠ "" ∧ all_chars is_hex g = true.
Proof.
  unfold match_header. destruct s as [|c s]; [done|].
  destruct c as [b0 b1 b2 b3 b4 b5 b6 b7].
  destruct b0; [|done]. destruct b1; [|done]. destruct b2; [done|].
  destruct b3; [done|]. destruct b4; [done|]. destruct b5; [|done].
  destruct b6; [done|]. destruct b7; [done|].
  destruct (bool_decide (_ = "")) eqn:He; [done|].
  apply bool_decide_eq_false in He.
  destruct (_ || _); [|done]. intros [= <-].
  split; [done|]. apply take_while_all.
Qed.

Section Scan_shape.
Context `{Collab}.

Lemma scanned_same (c c' : Entry) :
  uuid c' = uuid c → tags c' = tags c → modified c' = modified c →
  (∀ f, f ∈ extended_fields → f c' = f c) →
  scanned c → scanned c'.
Proof.
  intros Hu Ht Hm Hf [Hcu Hct Hce Hcm]. split.
  - by rewrite Hu.
  - by rewrite Ht.
  - intros f Hin. rewrite Hf by done. by apply Hce.
  - by rewrite Hm.
Qed.

Ltac same_fields :=
  intros f Hf; unfold extended_fields in Hf;
  repeat (apply elem_of_cons in Hf as [->|Hf]); try done;
  by apply elem_of_nil in Hf.

Definition scan_state_scanned (st : ScanState) : Prop :=
  Forall scanned st.1 ∧ ∀ c, st.2 = Some c → scanned c.

Lemma finish_current_scanned (st : ScanState) :
  scan_state_scanned st → Forall scanned (finish_current st).
Proof.
  intros [Hacc Hcur]. unfold finish_current.
  destruct st.2 as [c|]; [|done].
  apply Forall_app. split; [done|]. constructor; [by apply Hcur | constructor].
Qed.

Lemma scan_line_scanned (st st' : ScanState) (raw : string) :
  scan_state_scanned st → scan_line st raw = Ok st' → scan_state_scanned st'.
Proof.
  intros Hst. unfold scan_line.
  destruct (match_header _) as [g|] eqn:Hg.
  - intros [= <-]. split; simpl.
    + by apply finish_current_scanned.
    + intros c [= <-]. apply match_header_hex in Hg as [Hne Hhex].
      split; simpl; [|done| |done].
      * exists g. by rewrite (all_hex_lower g Hhex).
      * same_fields.
  - destruct Hst as [Hacc Hcur].
    destruct (find_date_blob _) as [blob|].
    + destruct st.2 as [c|]; simpl; [|done].
      pose proof (Hcur c eq_refl) as Hc.
      destruct (Py.ends_with_char _ _); intros [= <-];
        (split; [done|]); intros ? [= <-];
        (eapply scanned_same; [..|exact Hc]); try done; same_fields.
    + destruct st.2 as [c|] eqn:Hc; intros [= <-]; split; simpl; try done.
      * intros ? [= <-]. pose proof (Hcur c eq_refl) as Hsc.
        (eapply scanned_same; [..|exact Hsc]); try done. same_fields.
      * by rewrite Hc.
Qed.

Lemma scan_lines_scanned (lines : list string) (st st' : ScanState) :
  scan_state_scanned st → scan_lines st lines = Ok st' → scan_state_scanned st'.
Proof.
  revert st. induction lines as [|l lines IH]; intros st Hst; simpl.
  - by intros [= <-].
  - intros (st1 & H1 & H2)%bind_Ok. eauto using scan_line_scanned.
Qed.

(** X1.  The candidates that the scan returns are the header lines of the
    document, one for one and in the order of the document; each has as
    identity the non-empty string of lower-case hexadecimal digits that its
    header shows, no tags, none of the seven extended attributes, and is
    not marked as modified. *)
Theorem scan_candidates (edited : string) (cands : list Entry) :
  scan edited = Ok cands →
  raw_id <$> cands = header_ids edited ∧ Forall scanned cands.
Proof.
  intros Hscan. split; [by apply scan_header_ids|].
  unfold scan in Hscan. apply bind_Ok in Hscan as (st & Hst & [= <-]).
  apply finish_current_scanned. eapply scan_lines_scanned; [|exact Hst].
  split; [constructor | done].
Qed.

(** Every line is a header, a title line or a plain line. *)
Lemma line_kinds (raw : string) :
  is_Some (header_id raw) ∨ title_line raw ∨ plain_line raw.
Proof.
  unfold header_id, title_line, plain_line.
  destruct (match_header _) as [g|]; [left; by eexists|right].
  destruct (find_date_blob _) as [b|]; [left|right]; split; done || by eexists.
Qed.

(** Once a header has been read, no line makes the scan fail. *)
Lemma scan_lines_started (lines : list string) :
  ∀ (acc : list Entry) (c : Entry), is_Ok (scan_lines (acc, Some c) lines) = true.
Proof.
  induction lines as [|l lines IH]; intros acc c; [done|].
  rewrite scan_lines_cons. unfold scan_line. simpl.
  destruct (match_header _) as [g|]; simpl; [apply IH|].
  destruct (find_date_blob _) as [blob|]; simpl; [|apply IH].
  destruct (Py.ends_with_char _ _); simpl; apply IH.
Qed.

Lemma scan_line_header (st : ScanState) (raw : string) :
  is_Some (header_id raw) → ∃ acc c, scan_line st raw = Ok (acc, Some c).
Proof.
  unfold header_id, scan_line. intros [g Hg].
  destruct (match_header _) as [g'|]; [|done]. by eexists _, _.
Qed.

(** X2.  The scan ends with an exception exactly when the first line of the
    document that is not a plain line is a title line, that is, when a line
    starting with a bracketed time comes before every header; the exception
    is then [AttributeError]. *)
Theorem scan_fails_iff (edited : string) :
  (∃ pre l rest, Py.splitlines edited = pre ++ l :: rest ∧
     Forall plain_line pre ∧ title_line l) ↔
  is_Ok (scan edited) = false.
Proof.
  unfold scan.
  assert (∀ lines acc,
    (∃ pre l rest, lines = pre ++ l :: rest ∧
       Forall plain_line pre ∧ title_line l) ↔
    is_Ok (scan_lines (acc, None) lines) = false) as Hgen.
  { induction lines as [|l lines IH]; intros acc.
    - split; [|done]. intros (pre & l & rest & Heq & _).
      by destruct pre.
    - rewrite scan_lines_cons.
      destruct (line_kinds l) as [Hh|[Ht|Hp]].
      + destruct (scan_line_header (acc, None) l Hh) as (acc' & c & ->). simpl.
        rewrite scan_lines_started. split; [|done].
        intros (pre & l' & rest & Heq & Hpre & Hl').
        destruct Hh as [g Hg]. unfold header_id in Hg.
        destruct pre as [|p pre]; simplify_eq/=.
        * destruct Hl' as [Hno _]. by rewrite Hno in Hg.
        * apply Forall_cons in Hpre as [[Hno _] _]. by rewrite Hno in Hg.
      + rewrite scan_line_title by done. simpl. split; [done|]. intros _.
        by exists [], l, lines.
      + rewrite scan_line_plain by done. simpl. rewrite <- IH. split.
        * intros (pre & l' & rest & Heq & Hpre & Hl').
          destruct pre as [|p pre]; simplify_eq/=.
          -- destruct Hp as [_ Hp], Hl' as [_ [b Hb]]. congruence.
          -- apply Forall_cons in Hpre as [_ Hpre]. by exists pre, l', rest.
        * intros (pre & l' & rest & -> & Hpre & Hl').
          exists (l :: pre), l', rest. split; [done|]. split; [|done].
          by constructor. }
  rewrite (Hgen (Py.splitlines edited) []).
  by destruct (scan_lines _ _).
Qed.

End Scan_shape.

(** ** What reconciliation does to the store, whatever the collaborators *)

Lemma filterM_Err {A} (p : A → Result bool) (err : Error) (l : list A) (x : A) :
  (∀ y e, p y = Err e → e = err) → x ∈ l → p x = Err err →
  filterM p l = Err err.
Proof.
  intros Honly Hin Hx. induction l as [|y l IH]; [by apply elem_of_nil in Hin|].
  simpl. destruct (p y) as [b|e] eqn:Hy.
  - simpl. apply elem_of_cons in Hin as [->|Hin]; [congruence|].
    by rewrite IH.
  - simpl. by rewrite (Honly y e Hy).
Qed.

Lemma mapM_R_Err {A B} (f : A → Result B) (err : Error) (l : list A) (x : A) :
  (∀ y e, f y = Err e → e = err) → x ∈ l → f x = Err err →
  mapM_R f l = Err err.
Proof.
  intros Honly Hin Hx. induction l as [|y l IH]; [by apply elem_of_nil in Hin|].
  simpl. destruct (f y) as [b|e] eqn:Hy.
  - simpl. apply elem_of_cons in Hin as [->|Hin]; [congruence|].
    by rewrite IH.
  - simpl. by rewrite (Honly y e Hy).
Qed.

Lemma uuid_of_Err (e : Entry) (err : Error) :
  uuid_of e = Err err → err = AttributeError.
Proof. unfold uuid_of. destruct (uuid e); simpl; congruence. Qed.

Section Reconcile_generic.
Context `{Collab}.

Lemma matched_entries_no_uuid (W : list Entry) (e : Entry) :
  e ∈ W → uuid e = None →
  ∀ k c, matched_entries k c W = Err AttributeError.
Proof.
  intros Hin He. induction W as [|x W IH]; [by apply elem_of_nil in Hin|].
  intros k c. simpl.
  destruct (uuid_of x) as [xu|err] eqn:Hx; simpl.
  - destruct (uuid_of c) as [cu|err] eqn:Hc; simpl.
    + apply elem_of_cons in Hin as [->|Hin].
      * unfold uuid_of in Hx. by rewrite He in Hx.
      * by rewrite IH.
    + by rewrite (uuid_of_Err c err Hc).
  - by rewrite (uuid_of_Err x err Hx).
Qed.

(** X4.  A store that holds an entry without an identity (an entry that was
    created and not yet written) cannot be edited: [editable_str] ends with
    [AttributeError], and so does [parse_editable_str] on every document
    whose scan ends normally. *)
Theorem entry_without_identity_raises (J : Store) (e : Entry) :
  e ∈ entries J → uuid e = None →
  editable_str J = Err AttributeError ∧
  ∀ edited, is_Ok (scan edited) = true →
    parse_editable_str J edited = Err AttributeError.
Proof.
  intros Hin He. split.
  - unfold editable_str.
    rewrite (mapM_R_Err _ AttributeError (entries J) e); [done| |done|].
    + intros y err. destruct (uuid_of y) as [u|err'] eqn:Hy; simpl; [done|].
      intros [= <-]. by apply uuid_of_Err in Hy.
    + unfold uuid_of. by rewrite He.
  - intros edited Hscan. unfold parse_editable_str.
    destruct (scan edited) as [cands|]; [|done]. simpl.
    destruct cands as [|c cands].
    + simpl. unfold remove_deleted. simpl.
      rewrite (filterM_Err (not_in_uuids []) AttributeError (entries J) e);
        [done| |done|].
      * intros y err. unfold not_in_uuids.
        destruct (uuid_of y) as [u|err'] eqn:Hy; simpl; [done|].
        intros [= <-]. by apply uuid_of_Err in Hy.
      * unfold not_in_uuids, uuid_of. by rewrite He.
    + simpl. unfold reconcile_one.
      by rewrite (matched_entries_no_uuid (entries J) e Hin He).
Qed.

(** X3.  When no line of the document is a header line or a title line
    (every line is a plain line, as in a document without any bracketed
    time and any header), every entry of the store goes to the deleted
    entries and the store is left without entries. *)
Theorem no_header_deletes_all (J : Store) (edited : string) :
  Forall has_uuid (entries J) → Forall plain_line (Py.splitlines edited) →
  parse_editable_str J edited = Ok (mkStore (config J) [] (entries J), []).
Proof.
  intros HW Hplain.
  assert (scan edited = Ok []) as Hscan.
  { unfold scan.
    rewrite <- (app_nil_r (Py.splitlines edited)).
    by rewrite (scan_lines_skip_plain _ [] [] Hplain). }
  unfold parse_editable_str. rewrite Hscan. simpl.
  unfold remove_deleted. simpl.
  rewrite (filterM_total (not_in_uuids []) (fun _ => true)).
  2:{ eapply Forall_impl; [exact HW|]. intros e He. cbv beta.
      unfold not_in_uuids. by rewrite uuid_of_has_uuid. }
  simpl.
  rewrite (filterM_total (in_uuids []) (fun _ => false)).
  2:{ eapply Forall_impl; [exact HW|]. intros e He. cbv beta.
      unfold in_uuids. by rewrite uuid_of_has_uuid. }
  simpl. do 3 f_equal.
  - clear. induction (entries J) as [|e l IH]; [done|].
    by rewrite filter_cons_False by tauto.
  - clear. induction (entries J) as [|e l IH]; [done|].
    rewrite filter_cons_True by tauto. by f_equal.
Qed.

Lemma list_remove_subseteq (i : nat) (m : Entry) (W W' : list Entry) :
  list_remove i m W = Ok W' → W' ⊆ W.
Proof.
  revert i W'. induction W as [|x W IH]; intros [|i] W'; simpl;
    try (by intros [=]).
  - intros [= <-] y Hy. by right.
  - destruct (entry_eqb x m).
    + intros [= <-] y Hy. by right.
    + intros (r & Hr & [= <-])%bind_Ok. apply IH in Hr.
      intros y [->|Hy]%elem_of_cons; [by left|]. right. by apply Hr.
Qed.

Lemma reconcile_one_provenance (W W' : list Entry) (c c' : Entry) :
  reconcile_one W c = Ok (W', c') →
  ∀ e, e ∈ W' → e ∈ W ∨ (e = c' ∧ modified c' = true).
Proof.
  unfold reconcile_one. intros (ms & _ & Hres)%bind_Ok.
  destruct ms as [|[i m] ms].
  - injection Hres as <- <-. intros e [?| ->%list_elem_of_singleton]%elem_of_app; auto.
  - destruct (negb _).
    + apply bind_Ok in Hres as (W1 & HW1 & [= <- <-]).
      apply list_remove_subseteq in HW1.
      intros e [?| ->%list_elem_of_singleton]%elem_of_app; auto.
    + injection Hres as <- <-. auto.
Qed.

Lemma reconcile_all_provenance (cands : list Entry) :
  ∀ W W' cands', reconcile_all W cands = Ok (W', cands') →
  ∀ e, e ∈ W' → e ∈ W ∨ (e ∈ cands' ∧ modified e = true).
Proof.
  induction cands as [|c cands IH]; intros W W' cands'; simpl.
  - intros [= <- <-]. auto.
  - intros ([W1 c1] & Hone & ([W2 cs] & Hall & [= <- <-])%bind_Ok)%bind_Ok.
    intros e He. destruct (IH _ _ _ Hall e He) as [He1|[He1 Hm]].
    + destruct (reconcile_one_provenance _ _ _ _ Hone e He1) as [?|[-> ?]];
        [by left|]. right. split; [by left|done].
    + right. split; [by right|done].
Qed.

(** X5.  After [parse_editable_str], no entry is both kept and deleted;
    every deleted entry is an entry that the store had before; every kept
    entry is an entry that the store had before or a candidate of the
    document, marked as modified; and the identity of every kept entry
    is, letter for letter, the identity of a candidate. *)
Theorem reconcile_partition (J J' : Store) (edited : string)
    (cands : list Entry) :
  parse_editable_str J edited = Ok (J', cands) →
  config J' = config J ∧
  (∀ e, e ∈ entries J' → e ∉ deleted_entries J') ∧
  (∀ e, e ∈ deleted_entries J' → e ∈ entries J) ∧
  (∀ e, e ∈ entries J' → e ∈ entries J ∨ (e ∈ cands ∧ modified e = true)) ∧
  (∀ e, e ∈ entries J' → ∃ c, c ∈ cands ∧ uuid e = uuid c).
Proof.
  unfold parse_editable_str.
  intros (cs & Hscan & ([W cs'] & Hall & (J1 & Hdel & [= -> ->])%bind_Ok)%bind_Ok)%bind_Ok.
  pose proof (reconcile_all_provenance _ _ _ _ Hall) as Hprov.
  destruct (remove_deleted_spec _ _ _ _ Hdel) as (ed & Hed & HW & Hk & Hd).
  assert (∀ c, c ∈ cands → raw_id c ∈ ed ∧ has_uuid c) as Hcands.
  { apply mapM_R_Ok in Hed. clear -Hed.
    induction Hed as [|c u cs us Hu _ IH]; [by intros c ?%elem_of_nil|].
    assert (raw_id c = u ∧ has_uuid c) as [Hraw Hhas].
    { unfold uuid_of, raw_id, has_uuid in *. destruct (uuid c); by simplify_eq/=. }
    intros c' [->|Hin]%elem_of_cons.
    - split; [|done]. rewrite Hraw. by left.
    - destruct (IH c' Hin). split; [by right|done]. }
  split; [|split; [|split; [|split]]].
  - unfold remove_deleted in Hdel.
    by apply bind_Ok in Hdel as (? & _ & (? & _ & (? & _ & [= <-])%bind_Ok)%bind_Ok).
  - intros e. rewrite Hk, Hd, !list_elem_of_filter. tauto.
  - intros e. rewrite Hd, list_elem_of_filter. intros [Hnot He].
    destruct (Hprov e He) as [?|[Hc _]]; [done|].
    by destruct (Hcands e Hc).
  - intros e. rewrite Hk, list_elem_of_filter. intros [_ He]. by apply Hprov.
  - intros e. rewrite Hk, list_elem_of_filter. intros [Hin He].
    rewrite Forall_forall in HW. specialize (HW e He).
    apply mapM_R_Ok in Hed. clear -Hed Hin HW.
    induction Hed as [|c u cs us Hu _ IH]; [by apply elem_of_nil in Hin|].
    apply elem_of_cons in Hin as [Heq|Hin].
    + exists c. split; [by left|].
      unfold uuid_of, raw_id, has_uuid in *.
      destruct HW as [v Hv]. rewrite Hv in *. destruct (uuid c); by simplify_eq/=.
    + destruct (IH Hin) as (c' & Hc' & Hu'). exists c'. split; [by right|done].
Qed.

End Reconcile_generic.

(** ** Reconciliation with structural equality *)

Section Reconcile_structural.
Context `{Collab}.
Hypothesis entry_eqb_structural : ∀ a b, entry_eqb a b = true ↔ a = b.

(** X6.  Entries are compared structurally, the entries of the store have
    identities that differ from each other whatever the case of their
    letters, and the scan of the document ends normally.  Then
    [parse_editable_str] ends normally; the identities of the store are
    still different from each other and are those of the headers of the
    document; and the deleted entries are the entries the store had whose
    identity is not the identity of any header, in the order they had. *)
Theorem reconcile_identities (J : Store) (edited : string)
    (cands : list Entry) :
  Forall has_uuid (entries J) → NoDup (lower_id <$> entries J) →
  scan edited = Ok cands →
  ∃ J' cands', parse_editable_str J edited = Ok (J', cands') ∧
    NoDup (lower_id <$> entries J') ∧
    (∀ k, k ∈ (lower_id <$> entries J') ↔ k ∈ header_ids edited) ∧
    deleted_entries J' =
      filter (fun e => lower_id e ∉ header_ids edited) (entries J).
Proof.
  intros HW Hnd Hscan.
  pose proof (scan_lowercase edited cands Hscan) as Hlow.
  assert (lower_id <$> cands = header_ids edited) as Hids.
  { rewrite <- (scan_header_ids edited cands Hscan).
    clear -Hlow. induction Hlow as [|x l Hx _ IH]; [done|].
    rewrite !fmap_cons, IH. f_equal.
    destruct Hx as (u & Hu & Hl). unfold lower_id, raw_id. rewrite Hu. simpl.
    by apply lower_fixed. }
  destruct (reconcile_summary entry_eqb_structural J cands HW Hnd Hlow)
    as (Wf & cs' & J' & Hall & Hdel & Hd & _ & Hnd' & Hk & _).
  exists J', cs'. rewrite <- Hids. split; [|done].
  unfold parse_editable_str. rewrite Hscan. simpl.
  rewrite Hall. simpl. by rewrite Hdel.
Qed.

Lemma reconcile_all_unchanged (W : list Entry) :
  Forall has_uuid W → NoDup (lower_id <$> W) →
  ∀ es cands,
  Forall2 (fun e c => uuid c = uuid e ∧
             merge_with e (apply_parse_text c) = e) es cands →
  es ⊆ W →
  reconcile_all W cands = Ok (W, es).
Proof.
  intros HW Hnd es cands Hall. induction Hall as [|e c es cands [Hu Hm] _ IH];
    intros Hsub; [done|].
  assert (e ∈ W) as He by (apply Hsub; by left).
  assert (has_uuid c) as Hc.
  { unfold has_uuid. rewrite Hu. rewrite Forall_forall in HW. by apply HW. }
  destruct (same_uuid_ids c e Hu) as [_ Hlid].
  destruct (first_match_split (lower_id c) W)
    as [Hno|(l1 & m & l2 & -> & Hno & Hmatch)].
  { by destruct (Hno e He). }
  assert (m = e) as ->.
  { rewrite fmap_app, fmap_cons in Hnd.
    apply NoDup_app in Hnd as (_ & Hdisj & [Hm2 _]%NoDup_cons).
    apply elem_of_app in He as [He|[->|He]%elem_of_cons]; [|done|].
    - by destruct (Hno e He).
    - destruct Hm2. rewrite Hmatch, Hlid. apply list_elem_of_fmap. eauto. }
  simpl. rewrite reconcile_one_match by done. simpl.
  rewrite Hm. rewrite decide_True by done. simpl.
  rewrite IH; [done|]. intros x Hx. apply Hsub. by right.
Qed.

(** X7.  Entries are compared structurally and the identities of the store
    differ from each other.  When the candidates of the document are, in
    the order of the store, one for each entry, with the identity of the
    entry as it is stored, and such that the candidate merged with the
    entry is the entry, then [parse_editable_str] leaves the entries as
    they were, content and order, marks none as modified and deletes
    none. *)
Theorem unchanged_document_keeps_store (J : Store) (edited : string)
    (cands : list Entry) :
  Forall has_uuid (entries J) → NoDup (lower_id <$> entries J) →
  scan edited = Ok cands →
  Forall2 (fun e c => uuid c = uuid e ∧
             merge_with e (apply_parse_text c) = e) (entries J) cands →
  parse_editable_str J edited =
    Ok (mkStore (config J) (entries J) [], entries J).
Proof.
  intros HW Hnd Hscan Hall.
  unfold parse_editable_str. rewrite Hscan. simpl.
  rewrite (reconcile_all_unchanged (entries J) HW Hnd (entries J) cands Hall)
    by done.
  simpl. unfold remove_deleted.
  rewrite (mapM_R_total uuid_of raw_id).
  2:{ eapply Forall_impl; [exact HW|]. apply uuid_of_has_uuid. }
  simpl.
  rewrite (filterM_total (not_in_uuids (raw_id <$> entries J)) (fun _ => false)).
  2:{ apply Forall_forall. intros e He. unfold not_in_uuids.
      rewrite Forall_forall in HW. rewrite uuid_of_has_uuid by auto. simpl.
      rewrite bool_decide_eq_true_2; [done|]. apply list_elem_of_fmap. eauto. }
  simpl.
  rewrite (filterM_total (in_uuids (raw_id <$> entries J)) (fun _ => true)).
  2:{ apply Forall_forall. intros e He. unfold in_uuids.
      rewrite Forall_forall in HW. rewrite uuid_of_has_uuid by auto. simpl.
      rewrite bool_decide_eq_true_2; [done|]. apply list_elem_of_fmap. eauto. }
  simpl. do 3 f_equal.
  - clear. induction (entries J) as [|e l IH]; [done|].
    rewrite filter_cons_True by tauto. by f_equal.
  - clear. induction (entries J) as [|e l IH]; [done|].
    by rewrite filter_cons_False by tauto.
Qed.

End Reconcile_structural.

Section New_entry.
Context `{Collab}.

Lemma extended_apply_parse_text (c : Entry) (f : Entry → option PValue) :
  f ∈ extended_fields → f (apply_parse_text c) = f c.
Proof.
  intros Hf. unfold apply_parse_text. destruct (parse_text c) as [[t b] g].
  unfold extended_fields in Hf.
  repeat (apply elem_of_cons in Hf as [->|Hf]); try done.
  by apply elem_of_nil in Hf.
Qed.

(** X8.  A header whose identity is the identity of no entry of the store
    gives a new entry: the candidate is appended to the entries, marked as
    modified, with the identity of the header and with none of the seven
    extended attributes. *)
Theorem new_entry_detected (W : list Entry) (edited : string)
    (cands : list Entry) (c : Entry) :
  scan edited = Ok cands → c ∈ cands →
  Forall has_uuid W →
  (∀ x, x ∈ W → lower_id x ≠ lower_id c) →
  ∃ c', reconcile_one W c = Ok (W ++ [c'], c') ∧
    modified c' = true ∧ uuid c' = uuid c ∧
    ∀ f, f ∈ extended_fields → f c' = None.
Proof.
  intros Hscan Hin HW Hno.
  destruct (scan_candidates edited cands Hscan) as [_ Hsc].
  rewrite Forall_forall in Hsc. destruct (Hsc c Hin) as [(u & Hu & _) _ Hext _].
  exists (set_modified true (apply_parse_text c)).
  split; [|split; [done|split]].
  - apply reconcile_one_new; [done| |done]. unfold has_uuid. by rewrite Hu.
  - simpl. apply uuid_apply_parse_text.
  - intros f Hf. rewrite <- (Hext f Hf), <- (extended_apply_parse_text c f Hf).
    unfold extended_fields in Hf.
    repeat (apply elem_of_cons in Hf as [->|Hf]); try done.
    by apply elem_of_nil in Hf.
Qed.

End New_entry.

(** ** Header lines and title lines *)

Lemma string_app_cons (x : ascii) (a b : string) :
  String x a +:+ b = String x (a +:+ b).
Proof. reflexivity. Qed.

Lemma string_app_assoc (a b c : string) : (a +:+ b) +:+ c = a +:+ (b +:+ c).
Proof.
  induction a as [|x a IH]; [done|]. rewrite !string_app_cons. by rewrite IH.
Qed.

Lemma string_app_nil_r (a : string) : a +:+ "" = a.
Proof.
  induction a as [|x a IH]; [done|]. rewrite string_app_cons. by rewrite IH.
Qed.

Lemma list_ascii_of_string_app (a b : string) :
  list_ascii_of_string (a +:+ b) =
    list_ascii_of_string a ++ list_ascii_of_string b.
Proof.
  induction a as [|x a IH]; [done|]. rewrite string_app_cons. simpl.
  by rewrite IH.
Qed.

Lemma string_of_list_ascii_app (l k : list ascii) :
  string_of_list_ascii (l ++ k) =
    string_of_list_ascii l +:+ string_of_list_ascii k.
Proof.
  induction l as [|x l IH]; [done|]. simpl. rewrite string_app_cons.
  by rewrite IH.
Qed.

Lemma rev_app (a b : string) : Py.rev (a +:+ b) = Py.rev b +:+ Py.rev a.
Proof.
  unfold Py.rev.
  by rewrite list_ascii_of_string_app, reverse_app, string_of_list_ascii_app.
Qed.

Lemma rev_involutive (a : string) : Py.rev (Py.rev a) = a.
Proof.
  unfold Py.rev.
  by rewrite list_ascii_of_string_of_list_ascii, reverse_involutive,
    string_of_list_ascii_of_string.
Qed.

Lemma rev_cons (c : ascii) (a : string) :
  Py.rev (String c a) = Py.rev a +:+ String c "".
Proof. change (String c a) with (String c "" +:+ a). by rewrite rev_app. Qed.

Lemma all_chars_app (p : ascii → bool) (a b : string) :
  all_chars p (a +:+ b) = all_chars p a && all_chars p b.
Proof.
  induction a as [|x a IH]; [done|]. rewrite string_app_cons. simpl.
  by rewrite IH, andb_assoc.
Qed.

Lemma all_chars_rev (p : ascii → bool) (a : string) :
  all_chars p (Py.rev a) = all_chars p a.
Proof.
  induction a as [|x a IH]; [done|].
  rewrite rev_cons, all_chars_app, IH. simpl.
  rewrite andb_true_r. apply andb_comm.
Qed.

Lemma drop_while_all_app (p : ascii → bool) (a b : string) :
  all_chars p a = true → Py.drop_while p (a +:+ b) = Py.drop_while p b.
Proof.
  induction a as [|x a IH]; [done|]. rewrite string_app_cons. simpl.
  intros [Hx Ha]%andb_true_iff. rewrite Hx. by apply IH.
Qed.

Lemma take_while_all_app (p : ascii → bool) (a b : string) :
  all_chars p a = true →
  Py.take_while p (a +:+ b) = a +:+ Py.take_while p b.
Proof.
  induction a as [|x a IH]; [done|]. rewrite !string_app_cons. simpl.
  intros [Hx Ha]%andb_true_iff. rewrite Hx. by rewrite IH.
Qed.

(** Stripping at the right end leaves a string that ends with a character
    outside the stripped class as it is, and does not see what lies in the
    class at the end. *)
Lemma rstrip_by_last (p : ascii → bool) (a : string) (c : ascii) :
  p c = false →
  Py.rstrip_by p (a +:+ String c "") = a +:+ String c "".
Proof.
  intros Hc. unfold Py.rstrip_by.
  rewrite rev_app.
  change (Py.rev (String c "") +:+ Py.rev a) with (String c (Py.rev a)).
  simpl. rewrite Hc. by rewrite rev_cons, rev_involutive.
Qed.

Lemma rstrip_by_app_all (p : ascii → bool) (a ws : string) :
  all_chars p ws = true → Py.rstrip_by p (a +:+ ws) = Py.rstrip_by p a.
Proof.
  intros Hws. unfold Py.rstrip_by.
  by rewrite rev_app, drop_while_all_app by by rewrite all_chars_rev.
Qed.

Lemma string_last (u : string) :
  u ≠ "" → ∃ u' c, u = u' +:+ String c "".
Proof.
  induction u as [|x u IH]; [done|]. intros _.
  destruct u as [|y u].
  - by exists "", x.
  - destruct IH as (u' & c & Hu); [done|].
    exists (String x u'), c. rewrite string_app_cons. by rewrite <- Hu.
Qed.

Lemma hex_lower_not_space (c : ascii) :
  is_hex (Py.lower_char c) = true → Py.isspace c = false.
Proof. destruct c as [[] [] [] [] [] [] [] []]; by vm_compute. Qed.

Lemma is_hex_not_space (c : ascii) : is_hex c = true → is_space c = false.
Proof. destruct c as [[] [] [] [] [] [] [] []]; by vm_compute. Qed.

Lemma all_chars_map (p : ascii → bool) (f : ascii → ascii) (s : string) :
  all_chars p (Py.map_chars f s) = all_chars (fun c => p (f c)) s.
Proof. induction s as [|x s IH]; simpl; congruence. Qed.

(** X9.  The header line that [editable_str] writes for an identity is read
    back as a header by the scan, with the identity in lower case, when the
    identity is a non-empty string of hexadecimal digits in either case. *)
Theorem header_round_trip (u : string) :
  u ≠ "" → all_chars is_hex (Py.lower u) = true →
  header_id ("# " +:+ u) = Some (Py.lower u).
Proof.
  intros Hne Hhex.
  assert (Py.rstrip ("# " +:+ u) = "# " +:+ u) as Hstrip.
  { destruct (string_last u Hne) as (u' & c & ->).
    assert (Py.isspace c = false) as Hc.
    { unfold Py.lower in Hhex. rewrite all_chars_map, all_chars_app in Hhex.
      apply andb_true_iff in Hhex as [_ Hhex]. simpl in Hhex.
      apply hex_lower_not_space. by destruct (is_hex _). }
    unfold Py.rstrip.
    by rewrite <- string_app_assoc, rstrip_by_last. }
  unfold header_id. rewrite Hstrip.
  set (lu := Py.lower u) in *.
  change (Py.lower ("# " +:+ u)) with (String "#" (String " " lu)).
  assert (lu ≠ "") as Hlu.
  { unfold lu, Py.lower. by destruct u. }
  unfold match_header. simpl.
  assert (Py.drop_while is_space lu = lu) as ->.
  { destruct lu as [|x lu]; [done|]. simpl in *.
    apply andb_true_iff in Hhex as [Hx _]. by rewrite (is_hex_not_space x Hx). }
  assert (Py.take_while is_hex lu = lu) as ->.
  { rewrite <- (string_app_nil_r lu) at 1.
    by rewrite take_while_all_app, string_app_nil_r. }
  assert (Py.drop_while is_hex lu = "") as ->.
  { rewrite <- (string_app_nil_r lu) at 1. by rewrite drop_while_all_app. }
  rewrite bool_decide_eq_false_2 by done. simpl.
  unfold lu. by rewrite lower_idemp.
Qed.

(** X10.  A line that holds a bracketed time and nothing after the closing
    bracket but white space is not a title line: the white space at the end
    of the line is stripped before the pattern, which wants a blank after
    the bracket, is tried.  The line is a plain line; it sets no date and
    no title. *)
Theorem bare_time_is_plain (x ws : string) :
  all_chars not_rbracket x = true → all_chars Py.isspace ws = true →
  plain_line ("[" +:+ x +:+ "]" +:+ ws).
Proof.
  intros Hx Hws. unfold plain_line, Py.rstrip.
  rewrite <- (string_app_assoc x "]" ws), <- (string_app_assoc "[" (x +:+ "]") ws).
  rewrite rstrip_by_app_all by done.
  rewrite <- (string_app_assoc "[" x "]").
  rewrite rstrip_by_last by done.
  rewrite (string_app_assoc "[" x "]").
  split; [done|].
  change (find_date_blob ("[" +:+ x +:+ "]"))
    with (match Py.take_while not_rbracket (x +:+ "]"),
                Py.drop_while not_rbracket (x +:+ "]") with
          | String _ _, String "]" (String " " _) =>
              Some ("[" +:+ Py.take_while not_rbracket (x +:+ "]") +:+ "] ")
          | _, _ => None
          end).
  rewrite take_while_all_app, drop_while_all_app by done. simpl.
  by destruct (x +:+ "").
Qed.

(** ** What [open] needs and what it gives *)

Section Open_facts.
Context `{Collab} `{Host}.

Lemma or_raise_bind_Ok {A B} (o : option A) (err : Error) (f : A → Result B)
    (b : B) :
  (o ?! err) ≫= f = Ok b → ∃ a, o = Some a ∧ f a = Ok b.
Proof. destruct o as [a|]; simpl; [eauto|done]. Qed.

(** What a record that decodes looks like, and what it decodes to. *)
Lemma decode_inv (cfg : Config) (v : PValue) (e : Entry) :
  decode cfg v = Ok e →
  ∃ kv d text star u tz tag_list,
    v = PDict kv ∧
    assoc "Creation Date" kv = Some (PDate d) ∧
    assoc "Entry Text" kv = Some (PString text) ∧
    assoc "Starred" kv = Some (PBool star) ∧
    assoc "UUID" kv = Some (PString u) ∧
    resolve_timezone kv = Ok tz ∧
    e = mkEntry (Some u) (Some (to_utc tz d)) (split_text text).1
          (split_text text).2 star (list_to_set tag_list)
          (creator_field kv "Device Agent")
          (Some (default (PDate (to_utc tz d))
                   (creator_field kv "Generation Date")))
          (creator_field kv "Host Name") (creator_field kv "OS Agent")
          (creator_field kv "Software Agent")
          (assoc "Location" kv) (assoc "Weather" kv) false.
Proof.
  unfold decode. intros (kv & Hkv & Hrest)%bind_Ok.
  destruct v as [| | | | |kv']; try done. injection Hkv as ->.
  apply bind_Ok in Hrest as (tz & Htz & Hrest).
  apply bind_Ok in Hrest as (d & Hd & Hrest).
  apply or_raise_bind_Ok in Hd as ([| | |d'| |] & Hd1 & Hd2); try done.
  injection Hd2 as ->.
  apply bind_Ok in Hrest as (text & Ht & Hrest).
  apply or_raise_bind_Ok in Ht as ([text'| | | | |] & Ht1 & Ht2); try done.
  injection Ht2 as ->.
  apply bind_Ok in Hrest as (star & Hs & Hrest).
  apply or_raise_bind_Ok in Hs as ([|star'| | | |] & Hs1 & Hs2); try done.
  injection Hs2 as ->.
  apply bind_Ok in Hrest as (u & Hu & Hrest).
  apply or_raise_bind_Ok in Hu as ([u'| | | | |] & Hu1 & Hu2); try done.
  injection Hu2 as ->.
  apply bind_Ok in Hrest as (tvs & _ & Hrest).
  apply bind_Ok in Hrest as (tl & _ & [= <-]).
  by exists kv, d, text, star, u, tz, tl.
Qed.

(** The entries that the loop of [open] adds: one for each file that
    [plistlib] loads, decoded from it, in the order of the files. *)
Lemma load_files_inv (cfg : Config) (fs : list File) :
  ∀ acc r, foldM (load_file cfg) acc fs = Ok r →
  ∃ es, r = acc ++ es ∧
    Forall2 (decodes_to cfg) (filter (fun f => is_malformed f = false) fs) es.
Proof.
  induction fs as [|f fs IH]; intros acc r; simpl.
  - intros [= <-]. exists []. by rewrite app_nil_r.
  - intros (acc1 & Hf & Hrest)%bind_Ok. rewrite filter_cons.
    destruct (IH _ _ Hrest) as (es & -> & Hall).
    unfold load_file in Hf. unfold is_malformed.
    destruct (content f) as [|x|v] eqn:Hc; [|done|].
    + injection Hf as <-. rewrite decide_False by done. by exists es.
    + apply bind_Ok in Hf as (e & He & [= <-]). rewrite decide_True by done.
      exists (e :: es). rewrite <- app_assoc. split; [done|].
      constructor; [|done]. by exists v.
Qed.

(** The entries that [open] leaves in the store. *)
Lemma open_inv (J J' : Store) (dir : Directory) :
  open J dir = Ok J' →
  has_entries_dir dir = true ∧
  ∃ es, Forall2 (decodes_to (config J))
          (filter (fun f => is_malformed f = false)
             (filter is_doentry (walk dir))) es ∧
    J' = mkStore (config J) (sort_entries es) (deleted_entries J).
Proof.
  unfold open. destruct (has_entries_dir dir); [|done]. simpl.
  intros (loaded & Hload & [= <-])%bind_Ok.
  destruct (load_files_inv _ _ _ _ Hload) as (es & -> & Hall).
  split; [done|]. by exists es.
Qed.

(** No entry that [open] makes is marked as modified, and each has an
    identity and a date. *)
Lemma open_entries (J J' : Store) (dir : Directory) :
  open J dir = Ok J' →
  Forall (fun e => modified e = false ∧ has_uuid e ∧ is_Some (date e))
    (entries J') ∧
  config J' = config J ∧ deleted_entries J' = deleted_entries J.
Proof.
  intros (_ & es & Hall & ->)%open_inv. simpl. split; [|done].
  rewrite sort_entries_perm.
  clear -Hall. induction Hall as [|f e fs es (v & _ & He) _ IH]; [constructor|].
  constructor; [|done].
  destruct (decode_inv _ _ _ He)
    as (kv & d & text & star & u & tz & tl & _ & _ & _ & _ & _ & _ & ->).
  simpl. split; [done|]. split; by eexists.
Qed.

(** X11.  [open] ends normally only if the [entries] directory can be
    listed and every [*.doentry] file that [plistlib.load] does not reject
    with one of [PLIST_EXCEPTIONS] is loaded as a dictionary with the keys
    [Creation Date], [Entry Text], [Starred] and [UUID]: one record that
    lacks one of them makes the whole load fail.  When it ends normally,
    the store has one entry for each such file, none of them marked as
    modified and each with an identity and a date, and the configuration
    and the deleted entries are untouched. *)
Theorem open_result (J J' : Store) (dir : Directory) :
  open J dir = Ok J' →
  has_entries_dir dir = true ∧
  (∀ f, f ∈ walk dir → is_doentry f = true → is_malformed f = false →
     ∃ kv, content f = Plist (PDict kv) ∧
       is_Some (assoc "Creation Date" kv) ∧
       is_Some (assoc "Entry Text" kv) ∧
       is_Some (assoc "Starred" kv) ∧
       is_Some (assoc "UUID" kv)) ∧
  length (entries J') = length (loadable_records dir) ∧
  Forall (fun e => modified e = false ∧ has_uuid e ∧ is_Some (date e))
    (entries J') ∧
  config J' = config J ∧ deleted_entries J' = deleted_entries J.
Proof.
  intros Hopen. destruct (open_entries _ _ _ Hopen) as (Hall' & Hcfg & Hdel).
  destruct (open_inv _ _ _ Hopen) as (Hdir & es & Hall & ->). simpl in *.
  split; [done|]. split; [|split; [|done]].
  - intros f Hf Hdo Hm.
    assert (f ∈ filter (fun f => is_malformed f = false)
                  (filter is_doentry (walk dir))) as Hin.
    { rewrite !list_elem_of_filter. split; [done|]. split; [|done].
      by apply Is_true_true. }
    clear -Hall Hin.
    induction Hall as [|f' e fs es (v' & Hv' & He) _ IH];
      [by apply elem_of_nil in Hin|].
    apply elem_of_cons in Hin as [->|Hin]; [|by apply IH].
    destruct (decode_inv _ _ _ He)
      as (kv & d & text & star & u & tz & tl & -> & Hd & Ht & Hs & Hu & _).
    exists kv. rewrite Hd, Ht, Hs, Hu. split; [done|]. by repeat split; eexists.
  - rewrite sort_entries_perm, <- (Forall2_length _ _ _ Hall).
    unfold loadable_records. rewrite !list_filter_filter. f_equal.
    apply list_filter_iff. intros f. tauto.
Qed.

End Open_facts.

(** ** What [write] does to the entries and to the disk *)

(** The five attributes of [Creator]. *)
Definition creator_fields : list (Entry → option PValue) :=
  [creator_device_agent; creator_generation_date; creator_host_name;
   creator_os_agent; creator_software_agent].

(** How [write] leaves an entry [e]: [e'] is [e] with the attributes it
    lacked.  The content, the two flags, the location and the weather stay;
    an identity and a [Creator] attribute that [e] has stay; the identity
    and the five [Creator] attributes are there afterwards. *)
Record completed (e e' : Entry) : Prop := mk_completed {
  completed_content :
    date e' = date e ∧ title e' = title e ∧ body e' = body e ∧
    starred e' = starred e ∧ tags e' = tags e ∧ modified e' = modified e ∧
    location e' = location e ∧ weather e' = weather e;
  completed_uuid : has_uuid e' ∧ ∀ u, uuid e = Some u → uuid e' = Some u;
  completed_creator : ∀ f, f ∈ creator_fields →
    is_Some (f e') ∧ ∀ v, f e = Some v → f e' = Some v
}.

Section Write_facts.
Context `{Host}.

Lemma with_defaults_completed (u : string) (t : Z) (e : Entry) :
  (∀ v, uuid e = Some v → v = u) → completed e (with_defaults u t e).
Proof.
  intros Hu. split.
  - done.
  - split; [by eexists|]. intros v Hv. by rewrite (Hu v Hv).
  - intros f Hf. unfold creator_fields in Hf.
    repeat (apply elem_of_cons in Hf as [->|Hf]);
      try (simpl; split; [by eexists|]; by intros v ->).
    by apply elem_of_nil in Hf.
Qed.

(** Writing an entry a second time changes nothing in it. *)
Lemma with_defaults_again (u : string) (t t' : Z) (e : Entry) :
  with_defaults u t' (with_defaults u t e) = with_defaults u t e.
Proof. reflexivity. Qed.

Lemma write_entries_Forall2 (cfg : Config) (es : list Entry) :
  ∀ dk es' dk', write_entries cfg es dk = (es', dk', None) →
  Forall2 (fun e e' => ∃ dka dkb, write_entry cfg dka e = (e', dkb, None)) es es'.
Proof.
  induction es as [|e es IH]; intros dk es' dk'; simpl.
  - intros [= <- <-]. constructor.
  - destruct (write_entry cfg dk e) as [[e1 dk1] [err|]] eqn:He; [done|].
    destruct (write_entries cfg es dk1) as [[r dk2] x2] eqn:Hes.
    intros [= <- <- ->]. constructor; [by eexists _, _|by eapply IH].
Qed.

(** X12.  A call of [write] that ends normally leaves the deleted entries
    in place and the entries in their order; it does not touch an entry
    that is not modified, and to a modified entry it only adds what the
    entry lacked, an identity and the five attributes of [Creator]: no
    attribute that the entry had is replaced, and the [modified] flag stays
    set. *)
Theorem write_completes_entries (J J' : Store) (dk dk' : Disk) :
  write J dk = (J', dk', None) →
  config J' = config J ∧ deleted_entries J' = deleted_entries J ∧
  Forall2 (fun e e' =>
             (modified e = false → e' = e) ∧
             (modified e = true → completed e e'))
    (entries J) (entries J').
Proof.
  unfold write.
  destruct (write_entries (config J) (entries J) dk) as [[es dk1] x1] eqn:Hw.
  destruct x1 as [err|]; [done|].
  destruct (remove_entries _ _ _) as [dk2 x2]. intros [= <- <- ->].
  split; [done|]. split; [done|]. simpl.
  eapply Forall2_impl; [by eapply write_entries_Forall2|].
  intros e e' (dka & dkb & He). simpl in He.
  destruct (write_entry_inv _ _ _ _ _ _ He)
    as [(Hm & -> & _)|[(_ & _ & _ & _ & [=])|(Hm & d & u & _ & Hu & -> & _)]].
  - split; [done|]. congruence.
  - split; [congruence|]. intros _. by apply with_defaults_completed.
Qed.

Lemma write_entries_unmodified (cfg : Config) (es : list Entry) (dk : Disk) :
  Forall (fun e => modified e = false) es →
  write_entries cfg es dk = (es, dk, None).
Proof.
  induction 1 as [|e es He _ IH]; [done|].
  simpl. unfold write_entry. by rewrite He, IH.
Qed.

Lemma write_entries_app (cfg : Config) (es1 es2 : list Entry) :
  ∀ dk es1' dk1,
  write_entries cfg es1 dk = (es1', dk1, None) →
  write_entries cfg (es1 ++ es2) dk =
    (let '(r, dk2, x) := write_entries cfg es2 dk1 in (es1' ++ r, dk2, x)).
Proof.
  induction es1 as [|e es1 IH]; intros dk es1' dk1; simpl.
  - intros [= <- <-]. by destruct (write_entries cfg es2 dk) as [[r d2] x].
  - destruct (write_entry cfg dk e) as [[e1 dka] [err|]]; [done|].
    destruct (write_entries cfg es1 dka) as [[r dkb] x] eqn:Hes.
    intros [= <- <- ->]. rewrite (IH _ _ _ Hes).
    by destruct (write_entries cfg es2 _) as [[r2 d2] x2].
Qed.

(** X13.  [write] is not a transaction.  When a modified entry has no date,
    the call ends with [AttributeError] at this entry: the record files of
    the entries before it have been written and stay written, the entries
    after it are not looked at, and no file of a deleted entry is removed. *)
Theorem write_stops_at_undated (J : Store) (dk dk1 : Disk)
    (es1 es1' es2 : list Entry) (e : Entry) :
  entries J = es1 ++ e :: es2 →
  modified e = true → date e = None →
  write_entries (config J) es1 dk = (es1', dk1, None) →
  write J dk =
    (mkStore (config J) (es1' ++ e :: es2) (deleted_entries J), dk1,
     Some AttributeError).
Proof.
  intros HJ Hm Hd H1. unfold write.
  rewrite HJ, (write_entries_app _ _ _ _ _ _ H1). simpl.
  unfold write_entry. by rewrite Hm, Hd.
Qed.

Lemma remove_entries_all (cfg : Config) (ds : list Entry) :
  ∀ dk,
  Forall has_uuid ds →
  NoDup ((fun d => deleted_file cfg (raw_id d)) <$> ds) →
  (∀ d, d ∈ ds → is_Some (files dk !! deleted_file cfg (raw_id d))) →
  ∃ dk', remove_entries cfg ds dk = (dk', None) ∧
    oplog dk' = oplog dk ++
      (RemoveFile <$> ((fun d => deleted_file cfg (raw_id d)) <$> ds)) ∧
    uuid_calls dk' = uuid_calls dk ∧
    ∀ p, files dk' !! p =
      if bool_decide (p ∈ (fun d => deleted_file cfg (raw_id d)) <$> ds)
      then None else files dk !! p.
Proof.
  induction ds as [|d ds IH]; intros dk Hu Hnd Hall.
  - exists dk. simpl. rewrite app_nil_r. by repeat split.
  - apply Forall_cons in Hu as [Hd Hu].
    rewrite fmap_cons in Hnd. apply NoDup_cons in Hnd as [Hnot Hnd].
    destruct (Hall d) as [v Hv]; [by left|].
    simpl. rewrite uuid_of_has_uuid by done. simpl.
    unfold os_remove. rewrite Hv.
    set (dk1 := mkDisk _ _ _).
    destruct (IH dk1 Hu Hnd) as (dk' & Hrm & Hlog & Hcalls & Hfiles).
    { intros d' Hd'. simpl. rewrite lookup_delete_ne; [apply Hall; by right|].
      intros Heq. apply Hnot. rewrite Heq. apply list_elem_of_fmap. eauto. }
    exists dk'. split; [done|]. split; [|split; [done|]].
    + rewrite Hlog. simpl. by rewrite <- app_assoc.
    + intros p. rewrite Hfiles. simpl.
      destruct (decide (p = deleted_file cfg (raw_id d))) as [->|Hne].
      * rewrite (bool_decide_eq_true_2 (_ ∈ _ :: _)) by by left.
        rewrite lookup_delete_eq. by destruct (bool_decide _).
      * rewrite lookup_delete_ne by done.
        destruct (decide (p ∈ (fun d => deleted_file cfg (raw_id d)) <$> ds)).
        -- rewrite !bool_decide_eq_true_2; [done| by right | done].
        -- rewrite !bool_decide_eq_false_2; [done| | done].
           by intros [?|?]%elem_of_cons.
Qed.

(** X14.  When the deleted entries have identities, the files that [write]
    looks for under these identities are different from each other and are
    all on the disk after the first loop, then [write] ends normally, has
    removed exactly these files, in the order of the deleted entries, and
    has left every other file as the first loop left it. *)
Theorem write_removes_deleted (J : Store) (dk dk1 : Disk) (es : list Entry) :
  write_entries (config J) (entries J) dk = (es, dk1, None) →
  Forall has_uuid (deleted_entries J) →
  let paths := (fun d => deleted_file (config J) (raw_id d)) <$> deleted_entries J in
  NoDup paths →
  (∀ p, p ∈ paths → is_Some (files dk1 !! p)) →
  ∃ dk2, write J dk = (mkStore (config J) es (deleted_entries J), dk2, None) ∧
    oplog dk2 = oplog dk1 ++ (RemoveFile <$> paths) ∧
    ∀ p, files dk2 !! p = if bool_decide (p ∈ paths) then None else files dk1 !! p.
Proof.
  intros Hw Hu paths Hnd Hall.
  destruct (remove_entries_all (config J) (deleted_entries J) dk1 Hu Hnd)
    as (dk2 & Hrm & Hlog & _ & Hfiles).
  { intros d Hd. apply Hall. apply list_elem_of_fmap. eauto. }
  exists dk2. unfold write. by rewrite Hw, Hrm.
Qed.

End Write_facts.

(** ** Saving twice, loading and saving, saving and loading *)

Lemma apply_removes_None (ops : list FsOp) (p : Path) :
  ∀ m : gmap Path PValue,
  Forall (fun op => ∃ q, op = RemoveFile q) ops →
  m !! p = None → foldl apply_op m ops !! p = None.
Proof.
  induction ops as [|op ops IH]; intros m Hall Hm; [done|].
  apply Forall_cons in Hall as [[q ->] Hall]. simpl. apply IH; [done|].
  destruct (decide (q = p)) as [->|Hne].
  - apply lookup_delete_eq.
  - by rewrite lookup_delete_ne.
Qed.

Section Write_again.
Context `{Host}.

Lemma write_entry_again (cfg : Config) (dka dkb : Disk) (e e' : Entry) :
  write_entry cfg dka e = (e', dkb, None) →
  ∀ dk0, ∃ dk0', write_entry cfg dk0 e' = (e', dk0', None).
Proof.
  intros He dk0.
  destruct (write_entry_inv _ _ _ _ _ _ He)
    as [(Hm & -> & _)|[(_ & _ & _ & _ & [=])|
        (Hm & d & u & Hd & _ & -> & _ & Hwr)]].
  - exists dk0. unfold write_entry. by rewrite Hm.
  - destruct Hwr as [(err & _ & [=] & _)|(Ho & Hdump & _)].
    eexists. unfold write_entry. simpl. rewrite Hm, Hd. simpl.
    rewrite Ho. simpl in Hdump. by rewrite <- Hdump.
Qed.

Lemma write_entries_again (cfg : Config) (es0 es : list Entry) :
  Forall2 (fun e e' => ∃ dka dkb, write_entry cfg dka e = (e', dkb, None)) es0 es →
  ∀ dk0, ∃ dk2, write_entries cfg es dk0 = (es, dk2, None).
Proof.
  induction 1 as [|e e' es0 es (dka & dkb & He) _ IH]; intros dk0.
  - by exists dk0.
  - destruct (write_entry_again _ _ _ _ _ He dk0) as [dk1 H1].
    destruct (IH dk1) as [dk2 H2].
    exists dk2. simpl. by rewrite H1, H2.
Qed.

(** X15.  [write] does not empty the deleted entries.  After a call that
    ended normally and removed the file of a deleted entry, the next call
    looks for this file again and ends with [FileNotFoundError], unless
    the file of a modified entry has the same name. *)
Theorem second_write_raises (J J' : Store) (dk dk' : Disk) (d : Entry)
    (ds : list Entry) :
  write J dk = (J', dk', None) →
  deleted_entries J = d :: ds →
  (∀ e, e ∈ entries J' → modified e = true →
     entry_file (config J) (raw_id e) ≠ deleted_file (config J) (raw_id d)) →
  ∃ dk'', write J' dk' = (J', dk'', Some FileNotFoundError).
Proof.
  unfold write at 1.
  destruct (write_entries (config J) (entries J) dk) as [[es dk1] x1] eqn:Hw.
  destruct x1 as [err|]; [done|].
  destruct (remove_entries _ _ _) as [dk2 x2] eqn:Hrm.
  intros [= <- <- ->] Hdel Hne. simpl in Hne.
  rewrite Hdel in Hrm. simpl in Hrm.
  destruct (uuid_of d ≫= _) as [dka|err] eqn:Hd; [|done].
  apply bind_Ok in Hd as (u & Hu & Hos).
  assert (raw_id d = u) as Hraw.
  { unfold uuid_of, raw_id in *. by destruct (uuid d); simplify_eq/=. }
  rewrite Hraw in Hne.
  apply os_remove_spec in Hos as [_ Hfa].
  destruct (remove_entries_spec _ _ _ _ _ Hrm) as (ops & _ & Hf2 & Hops).
  assert (files dk2 !! deleted_file (config J) u = None) as Hgone.
  { rewrite Hf2. apply apply_removes_None.
    - eapply Forall_impl; [exact Hops|]. intros op (d0 & -> & _). by eexists.
    - rewrite Hfa. apply lookup_delete_eq. }
  destruct (write_entries_again (config J) (entries J) es
              (write_entries_Forall2 _ _ _ _ _ Hw) dk2) as [dk3 Hw3].
  destruct (write_entries_ops _ _ _ _ _ _ Hw3) as (ops3 & _ & Hf3 & Hops3).
  assert (files dk3 !! deleted_file (config J) u = None) as Hgone3.
  { rewrite Hf3, apply_ops_frame; [done|].
    eapply Forall_impl; [exact Hops3|].
    intros op (e & v & -> & He & Hm). simpl. by apply Hne. }
  exists dk3. unfold write. simpl. rewrite Hw3, Hdel. simpl.
  rewrite Hu. simpl. unfold os_remove. by rewrite Hgone3.
Qed.

End Write_again.

Section Open_write.
Context `{Collab} `{Host}.

(** X16.  Saving a journal right after loading it writes nothing and
    removes nothing: no entry that [open] makes is marked as modified. *)
Theorem open_then_write (J J' : Store) (dir : Directory) (dk : Disk) :
  open J dir = Ok J' → deleted_entries J = [] →
  write J' dk = (J', dk, None).
Proof.
  intros Hopen Hdel.
  destruct (open_entries _ _ _ Hopen) as (Hall & _ & Hdel').
  unfold write. rewrite write_entries_unmodified.
  - rewrite Hdel', Hdel. simpl. destruct J'. simpl in *. congruence.
  - eapply Forall_impl; [exact Hall|]. by intros e [? _].
Qed.

Lemma forallb_reload_tags (cfg : Config) (l : list string) :
  forallb is_string (map Plistlib.reload (encode_tag cfg <$> l)) = true.
Proof. induction l as [|t l IH]; [done|]. simpl. exact IH. Qed.

(** X17.  When the body of the first loop of [write] ends normally for a
    modified entry, the file written holds a whole document.  What
    [plistlib.load] reads back from it, the record with the line ends of
    its strings as they were written, is a well-formed record (when the
    entry has no tags or the journal has a tag symbol), and [decode] makes
    of it an entry with the identity in upper case, the same starred flag
    and the same seven extended attributes, not marked as modified, whose
    title and body are what the [Entry] class makes of the title, a line
    feed and the body. *)
Theorem written_record_loads (cfg : Config) (dk dk' : Disk) (e e' : Entry) :
  write_entry cfg dk e = (e', dk', None) → modified e = true →
  tagsymbols cfg ≠ "" ∨ tags e = ∅ →
  ∃ v e2,
    files dk' !! entry_file cfg (raw_id e') = Some v ∧
    load_written v = Plist (Plistlib.reload v) ∧
    well_formed_record cfg (Plistlib.reload v) = true ∧
    decode cfg (Plistlib.reload v) = Ok e2 ∧
    uuid e2 = Some (Plistlib.newlines (Py.upper (raw_id e'))) ∧
    starred e2 = starred e ∧ modified e2 = false ∧
    (title e2, body e2) =
      split_text (Plistlib.newlines (title e +:+ nl +:+ body e)) ∧
    ∀ f, f ∈ extended_fields → f e2 = Plistlib.reload <$> f e'.
Proof.
  intros Hw Hm Htags.
  destruct (write_entry_inv _ _ _ _ _ _ Hw)
    as [(Hm' & _)|[(_ & _ & _ & _ & [=])|(_ & d & u & Hd & Hu & -> & _ & Hwr)]];
    [congruence|].
  destruct Hwr as [(err & _ & [=] & _)|(_ & Hdump & Hf & _)].
  set (e' := with_defaults u (utc_of_local d) e) in *.
  assert (raw_id e' = u) as -> by done.
  exists (entry_plist cfg (utc_of_local d) u e').
  assert (∃ kv, Plistlib.reload (entry_plist cfg (utc_of_local d) u e') = PDict kv ∧
    assoc "Creation Date" kv = Some (PDate (utc_of_local d)) ∧
    assoc "Entry Text" kv =
      Some (PString (Plistlib.newlines (title e +:+ nl +:+ body e))) ∧
    assoc "Starred" kv = Some (PBool (starred e)) ∧
    assoc "UUID" kv = Some (PString (Plistlib.newlines (Py.upper u))) ∧
    is_Some (assoc "Time Zone" kv ≫= fun z => if is_string z then Some z else None) ∧
    assoc "Tags" kv =
      Some (PArray (map Plistlib.reload (encode_tag cfg <$> elements (tags e)))) ∧
    (∀ k f, (k, f) ∈ [("Device Agent", creator_device_agent);
                      ("Generation Date", creator_generation_date);
                      ("Host Name", creator_host_name);
                      ("OS Agent", creator_os_agent);
                      ("Software Agent", creator_software_agent)] →
       creator_field kv k = Plistlib.reload <$> f e') ∧
    assoc "Location" kv = Plistlib.reload <$> location e ∧
    assoc "Weather" kv = Plistlib.reload <$> weather e)
    as (kv & Hkv & Hcd & Het & Hst & Huu & Htz & Htg & Hcr & Hloc & Hwe).
  { unfold entry_plist. subst e'. simpl.
    destruct (location e) as [loc|], (weather e) as [w|]; simpl;
      (eexists; split; [reflexivity|]);
      (do 4 (split; [reflexivity|]));
      (split; [by eexists|]); (split; [reflexivity|]);
      (split; [|done]);
      intros k f Hk;
      repeat (apply elem_of_cons in Hk as [[= -> ->]|Hk]); try done;
      by apply elem_of_nil in Hk. }
  rewrite Hkv.
  assert (well_formed_record cfg (PDict kv) = true) as Hwf.
  { unfold well_formed_record. rewrite Hcd, Het, Hst, Huu, Htg. simpl.
    destruct Htz as [z Hz].
    destruct (assoc "Time Zone" kv) as [[name| | | | |]|]; try done. simpl.
    rewrite forallb_reload_tags. simpl.
    destruct Htags as [Hs|Ht].
    - rewrite (bool_decide_eq_false_2 (tagsymbols cfg = "")) by done.
      simpl. by rewrite orb_true_r.
    - by rewrite Ht, elements_empty. }
  destruct (decode_well_formed cfg _ Hwf)
    as (d2 & text & star & u2 & tl & Hd2 & Ht2 & Hs2 & Hu2 & _ & Hdec).
  eexists. split; [rewrite Hf; apply lookup_insert_eq|].
  split; [unfold load_written; by rewrite <- Hdump, Hkv|].
  split; [done|]. split; [exact Hdec|].
  rewrite Het in Ht2. rewrite Hst in Hs2. rewrite Huu in Hu2.
  injection Ht2 as <-. injection Hs2 as <-. injection Hu2 as <-.
  split; [done|]. split; [done|]. split; [done|]. split.
  - simpl. by destruct (split_text _).
  - intros f Hf'. unfold extended_fields in Hf'.
    repeat (apply elem_of_cons in Hf' as [->|Hf']);
      try (by apply elem_of_nil in Hf'); simpl;
      rewrite ?Hloc, ?Hwe; try done.
    + apply (Hcr "Device Agent" creator_device_agent). by left.
    + rewrite (Hcr "Generation Date" creator_generation_date)
        by (right; by left). done.
    + apply (Hcr "Host Name" creator_host_name). do 2 right. by left.
    + apply (Hcr "OS Agent" creator_os_agent). do 3 right. by left.
    + apply (Hcr "Software Agent" creator_software_agent). do 4 right. by left.
Qed.

End Open_write.

(** ** The further properties on the sample journal *)

Module SampleRun.
Import Reference.

Definition C : Collab := Reference.collab "@".

(** The candidates of the document without the block of [eB]. *)
Definition cands : list Entry :=
  Eval vm_compute in
    match scan (H := C) Sample.without_B with Ok c => c | Err _ => [] end.

(** The store with lower-case identities, and its rendering. *)
Definition lower_store : Store :=
  mkStore Sample.cfg [Sample.candidate_A; Sample.eC] [].
Definition lower_doc : string :=
  "# a1" +:+ nl +:+ "[100] First" +:+ nl +:+ "one" +:+ nl +:+
  "# c3" +:+ nl +:+ "[300] Third" +:+ nl +:+ "three".
Definition lower_cands : list Entry :=
  Eval vm_compute in
    match scan (H := C) lower_doc with Ok c => c | Err _ => [] end.

(** The sample store after the document without [eB] has been read. *)
Definition reconciled : Store * list Entry :=
  Eval vm_compute in
    match parse_editable_str (H := C) Sample.store Sample.without_B with
    | Ok r => r
    | Err _ => (Sample.store, [])
    end.

(** The sample directory as [open] loads it. *)
Definition opened : Store :=
  Eval vm_compute in
    match open (H := C) (H0 := host) SampleDir.empty_store SampleDir.dir with
    | Ok J => J
    | Err _ => SampleDir.empty_store
    end.

(** A modified entry without a date, between the two sample entries. *)
Definition undated : Entry :=
  mkEntry None None "Draft" "" false ∅ None None None None None None None true.
Definition undated_store : Store :=
  mkStore Sample.cfg [SampleDisk.fresh; undated; SampleDisk.loaded] [].
Definition first_written : list Entry * Disk * option Error :=
  Eval vm_compute in
    write_entries (H := host) Sample.cfg [SampleDisk.fresh] SampleDisk.disk.

(** A store with one deleted entry, whose file is on the disk under the
    name that the second loop of [write] uses. *)
Definition deleting_store : Store := mkStore Sample.cfg [] [SampleDisk.loaded].
Definition deleting_disk : Disk :=
  mkDisk {[ deleted_file Sample.cfg "ab" := PString "as loaded" ]} [] 0.
Definition deleted_once : Store * Disk * option Error :=
  Eval vm_compute in write (H := host) deleting_store deleting_disk.

(** The sample entry without identity as [write] leaves it. *)
Definition fresh_written : Entry * Disk :=
  Eval vm_compute in
    (write_entry (H := host) Sample.cfg SampleDisk.disk SampleDisk.fresh).1.

End SampleRun.

Lemma sample_scan :
  scan (H := SampleRun.C) Sample.without_B = Ok SampleRun.cands.
Proof. vm_compute. reflexivity. Qed.

Lemma sample_has_uuid : Forall has_uuid (entries Sample.store).
Proof. repeat constructor; by eexists. Qed.

Lemma sample_NoDup : NoDup (lower_id <$> entries Sample.store).
Proof. apply (bool_decide_unpack _). vm_compute. exact I. Qed.

Lemma scan_candidates_witness :
  raw_id <$> SampleRun.cands = header_ids Sample.without_B ∧
  Forall scanned SampleRun.cands.
Proof. exact (scan_candidates (H := SampleRun.C) _ _ sample_scan). Defined.

Lemma no_header_deletes_all_witness :
  parse_editable_str (H := SampleRun.C) Sample.store "just a note" =
    Ok (mkStore Sample.cfg [] (entries Sample.store), []).
Proof.
  apply (no_header_deletes_all (H := SampleRun.C) Sample.store "just a note").
  - exact sample_has_uuid.
  - constructor; [|constructor]. split; reflexivity.
Defined.

Lemma entry_without_identity_raises_witness :
  editable_str (H := SampleRun.C) SampleDisk.store = Err AttributeError ∧
  ∀ edited, is_Ok (scan (H := SampleRun.C) edited) = true →
    parse_editable_str (H := SampleRun.C) SampleDisk.store edited =
      Err AttributeError.
Proof.
  apply (entry_without_identity_raises (H := SampleRun.C) SampleDisk.store
           SampleDisk.fresh).
  - by left.
  - reflexivity.
Defined.

Lemma sample_reconciled :
  parse_editable_str (H := SampleRun.C) Sample.store Sample.without_B =
    Ok (SampleRun.reconciled.1, SampleRun.reconciled.2).
Proof. vm_compute. reflexivity. Qed.

Lemma reconcile_partition_witness :
  (∀ e, e ∈ entries SampleRun.reconciled.1 →
     e ∉ deleted_entries SampleRun.reconciled.1) ∧
  (∀ e, e ∈ deleted_entries SampleRun.reconciled.1 → e ∈ entries Sample.store).
Proof.
  destruct (reconcile_partition (H := SampleRun.C) _ _ _ _ sample_reconciled)
    as (_ & Hdisj & Hdel & _).
  by split.
Defined.

Lemma reconcile_identities_witness :
  ∃ J' cands',
    parse_editable_str (H := SampleRun.C) Sample.store Sample.without_B =
      Ok (J', cands') ∧
    NoDup (lower_id <$> entries J') ∧
    (∀ k, k ∈ (lower_id <$> entries J') ↔ k ∈ header_ids Sample.without_B) ∧
    deleted_entries J' =
      filter (fun e => lower_id e ∉ header_ids Sample.without_B)
        (entries Sample.store).
Proof.
  exact (reconcile_identities (H := SampleRun.C) (reference_eqb_structural "@")
           Sample.store Sample.without_B SampleRun.cands
           sample_has_uuid sample_NoDup sample_scan).
Defined.

Lemma lower_store_facts :
  Forall has_uuid (entries SampleRun.lower_store) ∧
  NoDup (lower_id <$> entries SampleRun.lower_store) ∧
  scan (H := SampleRun.C) SampleRun.lower_doc = Ok SampleRun.lower_cands ∧
  Forall2 (fun e c => uuid c = uuid e ∧
             merge_with e (apply_parse_text (H := SampleRun.C) c) = e)
    (entries SampleRun.lower_store) SampleRun.lower_cands.
Proof.
  split; [repeat constructor; by eexists|].
  split; [apply (bool_decide_unpack _); vm_compute; exact I|].
  split; [vm_compute; reflexivity|].
  repeat constructor; vm_compute; reflexivity.
Qed.

Lemma unchanged_document_keeps_store_witness :
  parse_editable_str (H := SampleRun.C) SampleRun.lower_store SampleRun.lower_doc =
    Ok (mkStore Sample.cfg (entries SampleRun.lower_store) [],
        entries SampleRun.lower_store).
Proof.
  apply (unchanged_document_keeps_store (H := SampleRun.C)
           (reference_eqb_structural "@") SampleRun.lower_store
           SampleRun.lower_doc SampleRun.lower_cands);
    apply lower_store_facts.
Defined.

Lemma candidate_A_scanned : Sample.candidate_A ∈ SampleRun.cands.
Proof. apply (bool_decide_unpack _). vm_compute. exact I. Qed.

Lemma new_entry_detected_witness :
  ∃ c', reconcile_one (H := SampleRun.C) [Sample.eB] Sample.candidate_A =
          Ok ([Sample.eB] ++ [c'], c') ∧
    modified c' = true ∧ uuid c' = uuid Sample.candidate_A ∧
    ∀ f, f ∈ extended_fields → f c' = None.
Proof.
  apply (new_entry_detected (H := SampleRun.C) [Sample.eB] Sample.without_B
           SampleRun.cands Sample.candidate_A sample_scan candidate_A_scanned).
  - repeat constructor; by eexists.
  - intros x Hx%list_elem_of_singleton. subst x. vm_compute. discriminate.
Defined.

Lemma header_round_trip_witness :
  header_id ("# " +:+ "A1F") = Some (Py.lower "A1F").
Proof. apply header_round_trip; [discriminate | reflexivity]. Defined.

Lemma bare_time_is_plain_witness :
  plain_line ("[" +:+ "2020-01-01 09:00" +:+ "]" +:+ "  ").
Proof. apply bare_time_is_plain; reflexivity. Defined.

Lemma sample_opened :
  open (H := SampleRun.C) (H0 := Reference.host) SampleDir.empty_store
    SampleDir.dir = Ok SampleRun.opened.
Proof. vm_compute. reflexivity. Qed.

Lemma open_result_witness :
  length (entries SampleRun.opened) = length (loadable_records SampleDir.dir) ∧
  Forall (fun e => modified e = false ∧ has_uuid e ∧ is_Some (date e))
    (entries SampleRun.opened).
Proof.
  destruct (open_result (H := SampleRun.C) (H0 := Reference.host)
              _ _ _ sample_opened) as (_ & _ & Hlen & Hall & _).
  split; [exact Hlen|exact Hall].
Defined.

Lemma written_normally :
  write (H := Reference.host) SampleDisk.store SampleDisk.disk =
    (written.1.1, written.1.2, None).
Proof. vm_compute. reflexivity. Qed.

Lemma write_completes_entries_witness :
  Forall2 (fun e e' =>
             (modified e = false → e' = e) ∧
             (modified e = true → completed e e'))
    (entries SampleDisk.store) (entries written.1.1).
Proof.
  destruct (write_completes_entries (H := Reference.host) _ _ _ _
              written_normally) as (_ & _ & Hall).
  exact Hall.
Defined.

Lemma first_written_eq :
  write_entries (H := Reference.host) (config SampleRun.undated_store)
    [SampleDisk.fresh] SampleDisk.disk =
    (SampleRun.first_written.1.1, SampleRun.first_written.1.2, None).
Proof. vm_compute. reflexivity. Qed.

Lemma write_stops_at_undated_witness :
  write (H := Reference.host) SampleRun.undated_store SampleDisk.disk =
    (mkStore Sample.cfg
       (SampleRun.first_written.1.1 ++ SampleRun.undated :: [SampleDisk.loaded])
       [],
     SampleRun.first_written.1.2, Some AttributeError).
Proof.
  apply (write_stops_at_undated (H := Reference.host) SampleRun.undated_store
           SampleDisk.disk SampleRun.first_written.1.2 [SampleDisk.fresh]
           SampleRun.first_written.1.1 [SampleDisk.loaded] SampleRun.undated).
  - reflexivity.
  - reflexivity.
  - reflexivity.
  - exact first_written_eq.
Defined.

Lemma deleting_store_found (p : Path) :
  p ∈ (fun d => deleted_file (config SampleRun.deleting_store) (raw_id d)) <$>
        deleted_entries SampleRun.deleting_store →
  is_Some (files SampleRun.deleting_disk !! p).
Proof.
  intros Hp%list_elem_of_singleton. subst p. eexists. apply lookup_singleton_eq.
Qed.

Lemma write_removes_deleted_witness :
  ∃ dk2,
    write (H := Reference.host) SampleRun.deleting_store SampleRun.deleting_disk =
      (mkStore Sample.cfg [] [SampleDisk.loaded], dk2, None) ∧
    oplog dk2 = [RemoveFile ["/j"; "entries"; "ab.doentry"]].
Proof.
  destruct (write_removes_deleted (H := Reference.host) SampleRun.deleting_store
              SampleRun.deleting_disk SampleRun.deleting_disk [])
    as (dk2 & Hw & Hlog & _).
  - reflexivity.
  - repeat constructor. by eexists.
  - apply NoDup_singleton.
  - exact deleting_store_found.
  - exists dk2. split; [exact Hw|exact Hlog].
Defined.

Lemma deleted_once_eq :
  write (H := Reference.host) SampleRun.deleting_store SampleRun.deleting_disk =
    (SampleRun.deleted_once.1.1, SampleRun.deleted_once.1.2, None).
Proof. vm_compute. reflexivity. Qed.

Lemma second_write_raises_witness :
  ∃ dk'',
    write (H := Reference.host) SampleRun.deleted_once.1.1
      SampleRun.deleted_once.1.2 =
      (SampleRun.deleted_once.1.1, dk'', Some FileNotFoundError).
Proof.
  apply (second_write_raises (H := Reference.host) SampleRun.deleting_store
           SampleRun.deleted_once.1.1 SampleRun.deleting_disk
           SampleRun.deleted_once.1.2 SampleDisk.loaded []).
  - exact deleted_once_eq.
  - reflexivity.
  - intros e He. by apply elem_of_nil in He.
Defined.

Lemma open_then_write_witness :
  write (H := Reference.host) SampleRun.opened SampleDisk.disk =
    (SampleRun.opened, SampleDisk.disk, None).
Proof.
  apply (open_then_write (H := SampleRun.C) (H0 := Reference.host)
           SampleDir.empty_store SampleRun.opened SampleDir.dir SampleDisk.disk).
  - exact sample_opened.
  - reflexivity.
Defined.

Lemma fresh_written_eq :
  write_entry (H := Reference.host) Sample.cfg SampleDisk.disk SampleDisk.fresh =
    (SampleRun.fresh_written.1, SampleRun.fresh_written.2, None).
Proof. vm_compute. reflexivity. Qed.

Lemma written_record_loads_witness :
  ∃ v e2,
    files SampleRun.fresh_written.2 !!
      entry_file Sample.cfg (raw_id SampleRun.fresh_written.1) = Some v ∧
    load_written v = Plist (Plistlib.reload v) ∧
    well_formed_record Sample.cfg (Plistlib.reload v) = true ∧
    decode (H := SampleRun.C) (H0 := Reference.host) Sample.cfg
      (Plistlib.reload v) = Ok e2 ∧
    uuid e2 = Some (Plistlib.newlines (Py.upper (raw_id SampleRun.fresh_written.1))) ∧
    starred e2 = starred SampleDisk.fresh ∧ modified e2 = false ∧
    (title e2, body e2) =
      split_text (Collab := SampleRun.C)
        (Plistlib.newlines (title SampleDisk.fresh +:+ nl +:+ body SampleDisk.fresh)) ∧
    ∀ f, f ∈ extended_fields →
      f e2 = Plistlib.reload <$> f SampleRun.fresh_written.1.
Proof.
  apply (written_record_loads (H := SampleRun.C) (H0 := Reference.host)
           Sample.cfg SampleDisk.disk SampleRun.fresh_written.2
           SampleDisk.fresh SampleRun.fresh_written.1).
  - exact fresh_written_eq.
  - reflexivity.
  - left. discriminate.
Defined.
